(** * toki: a multi-stage countdown timer (main.go)

    A shallow embedding of the program's session state machine
    ([model.Update]), its cadence policy ([timerInterval]), its argument
    handling ([splitTimerArgString], [addSuffixIfArgIsNumber], the body of
    [rootCmd.RunE]) and of the library behaviour those functions call into
    (Go's [time], [strconv] and [regexp] packages, the bubbles [timer] and
    [progress] components and the bubbletea message loop). *)

From Stdlib Require Import ZArith List String Ascii Bool Lia QArith SpecFloat.
Import ListNotations.
Open Scope Z_scope.

(* ================================================================== *)
(** ** Go integers, panics *)

Module GoInt.

(** [int] and [int64] are 64-bit two's complement; arithmetic wraps. *)
Definition min_int64 : Z := - 2 ^ 63.
Definition max_int64 : Z := 2 ^ 63 - 1.

Definition wrap64 (z : Z) : Z := (z + 2 ^ 63) mod 2 ^ 64 - 2 ^ 63.

Definition in_int64 (z : Z) : Prop := min_int64 <= z <= max_int64.

Definition add64 (a b : Z) : Z := wrap64 (a + b).
Definition sub64 (a b : Z) : Z := wrap64 (a - b).
Definition mul64 (a b : Z) : Z := wrap64 (a * b).

End GoInt.
Import GoInt.

(** A Go run-time panic: the two the program can raise. *)
Inductive panic : Type :=
| IndexOutOfRange
| IntegerDivideByZero.

Inductive result (A : Type) : Type :=
| Ok (a : A)
| Panic (p : panic).
Arguments Ok {A} a.
Arguments Panic {A} p.

Definition bind {A B : Type} (r : result A) (k : A -> result B) : result B :=
  match r with
  | Ok a => k a
  | Panic p => Panic p
  end.

Notation "x <- r ;; k" := (bind r (fun x => k))
  (at level 61, r at next level, right associativity).

(** Truncated signed division [a / b] of two [int64]. *)
Definition div64 (a b : Z) : result Z :=
  if b =? 0 then Panic IntegerDivideByZero else Ok (wrap64 (Z.quot a b)).

(** Slice indexing [s[i]] with an [int] index. *)
Definition index {A : Type} (s : list A) (i : Z) : result A :=
  if i <? 0 then Panic IndexOutOfRange
  else match nth_error s (Z.to_nat i) with
       | Some a => Ok a
       | None => Panic IndexOutOfRange
       end.

Definition len {A : Type} (s : list A) : Z := Z.of_nat (List.length s).

(** The [error] values the program can return from [RunE]. *)
Inductive error : Type :=
| ErrInvalidDuration (orig : string)     (* time: invalid duration "orig" *)
| ErrMissingUnit (orig : string)         (* time: missing unit in duration *)
| ErrUnknownUnit (u orig : string)       (* time: unknown unit "u" in ... *)
| ErrInterrupted                         (* fmt.Errorf("interrupted") *)
| ErrProgram.                            (* an error of tea.Program.Run *)

(* ================================================================== *)
(** ** Go strings as byte sequences *)

Module Bytes.

(** A Go [string] is a sequence of bytes; [s[i]] is a byte. *)
Definition code (c : ascii) : Z := Z.of_N (N_of_ascii c).

Definition is_byte (c : ascii) (k : Z) : bool := code c =? k.
Definition between (lo : Z) (c : ascii) (hi : Z) : bool :=
  (lo <=? code c) && (code c <=? hi).

Definition is_digit (c : ascii) : bool := between 48 c 57.     (* '0'..'9' *)

(** [lower(c) = c | ('x' - 'X')] of package strconv. *)
Definition lower (c : ascii) : Z := Z.lor (code c) 32.

Fixpoint drop (n : nat) (s : string) : string :=
  match n, s with
  | O, _ => s
  | S n', String _ s' => drop n' s'
  | S _, EmptyString => EmptyString
  end.

End Bytes.
Import Bytes.

(* ================================================================== *)
(** ** package regexp, for patterns made of classes and starred classes *)

Module Regexp.

(** One piece of a pattern: a character class, or a class under a greedy
    star. *)
Inductive piece : Type :=
| One (cls : ascii -> bool)
| Star (cls : ascii -> bool).

(** [x*] followed by the continuation [k]: prefer one more [x]. *)
Fixpoint star (cls : ascii -> bool) (k : string -> option nat) (s : string)
  : option nat :=
  match s with
  | String c s' =>
      if cls c then
        match star cls k s' with
        | Some n => Some (S n)
        | None => k s
        end
      else k s
  | EmptyString => k s
  end.

(** The length of the match of [re] at the start of [s] that a
    backtracking search finds first, if there is one. *)
Fixpoint match_here (re : list piece) (s : string) : option nat :=
  match re with
  | [] => Some O
  | One cls :: re' =>
      match s with
      | String c s' =>
          if cls c then option_map S (match_here re' s') else None
      | EmptyString => None
      end
  | Star cls :: re' => star cls (match_here re') s
  end.

(** [FindAllStringIndex(s, -1)] for a pattern that matches no empty
    string: the successive leftmost matches, as [start, end) offsets.
    [pos] is the offset of [s] in the whole text and [skip] the number of
    bytes still inside the previous match. *)
Fixpoint find_all (re : list piece) (s : string) (pos skip : nat)
  : list (nat * nat) :=
  match s with
  | EmptyString => []
  | String _ s' =>
      match skip with
      | S k => find_all re s' (S pos) k
      | O =>
          match match_here re s with
          | Some (S k) => (pos, (pos + S k)%nat) :: find_all re s' (S pos) k
          | _ => find_all re s' (S pos) O
          end
      end
  end.

Definition FindAllStringIndex (re : list piece) (s : string)
  : list (nat * nat) :=
  find_all re s 0 0.

(** The loop of [Split] over the matches, with its [beg] and [end]. *)
Fixpoint split_matches (s : string) (matches : list (nat * nat))
  (beg end_ : nat) : list string :=
  match matches with
  | [] =>
      if (end_ =? String.length s)%nat then []
      else [substring beg (String.length s - beg) s]
  | (m0, m1) :: rest =>
      (if (m1 =? 0)%nat then [] else [substring beg (m0 - beg) s])
        ++ split_matches s rest m1 m0
  end.

(** [re.Split(s, -1)] *)
Definition Split (re : list piece) (s : string) : list string :=
  if (String.length s =? 0)%nat then [EmptyString]
  else split_matches s (FindAllStringIndex re s) 0 0.

(** [\s] is [[\t\n\f\r ]]. *)
Definition perl_space (c : ascii) : bool :=
  is_byte c 9 || is_byte c 10 || is_byte c 12 || is_byte c 13 || is_byte c 32.

End Regexp.

(* ================================================================== *)
(** ** package time: durations *)

Module Time.

(** [time.Duration] is an [int64] count of nanoseconds. *)
Definition Duration := Z.

Definition Nanosecond : Duration := 1.
Definition Microsecond : Duration := 1000 * Nanosecond.
Definition Millisecond : Duration := 1000 * Microsecond.
Definition Second : Duration := 1000 * Millisecond.
Definition Minute : Duration := 60 * Second.
Definition Hour : Duration := 60 * Minute.

(** [func (d Duration) Milliseconds() int64 { return int64(d) / 1e6 }] *)
Definition Milliseconds (d : Duration) : Z := Z.quot d 1000000.

(** *** [time.ParseDuration] *)

(** [leadingInt]: the leading [[0-9]*] of [s] as a [uint64], and the
    rest; [None] is [errLeadingInt]. *)
Fixpoint leadingInt_from (x : Z) (s : string) : option (Z * string) :=
  match s with
  | String c s' =>
      if negb (is_digit c) then Some (x, s)
      else if x >? 2 ^ 63 / 10 then None
      else
        let x := x * 10 + code c - 48 in
        if x >? 2 ^ 63 then None else leadingInt_from x s'
  | EmptyString => Some (x, s)
  end.

Definition leadingInt (s : string) : option (Z * string) :=
  leadingInt_from 0 s.

(** [leadingFraction]: the leading [[0-9]*] of [s] as a [uint64] [x] with
    its [scale], a power of ten below 10^20 and so an exact [float64]. *)
Fixpoint leadingFraction_from (x scale : Z) (overflow : bool) (s : string)
  : Z * Z * string :=
  match s with
  | String c s' =>
      if negb (is_digit c) then (x, scale, s)
      else if overflow then leadingFraction_from x scale overflow s'
      else if x >? (2 ^ 63 - 1) / 10 then
        leadingFraction_from x scale true s'
      else
        let y := x * 10 + code c - 48 in
        if y >? 2 ^ 63 then leadingFraction_from x scale true s'
        else leadingFraction_from y (scale * 10) overflow s'
  | EmptyString => (x, scale, s)
  end.

Definition leadingFraction (s : string) : Z * Z * string :=
  leadingFraction_from 0 1 false s.

(** The unit: the bytes up to the next ['.'] or digit. *)
Fixpoint unit_end (s : string) : nat :=
  match s with
  | String c s' =>
      if is_byte c 46 || is_digit c then O else S (unit_end s')
  | EmptyString => O
  end.

Definition micro : string := String "194" (String "181" "s"). (* U+00B5 *)
Definition mu : string := String "206" (String "188" "s").    (* U+03BC *)

Definition unitMap : list (string * Z) :=
  [("ns", Nanosecond); ("us", Microsecond); (micro, Microsecond);
   (mu, Microsecond); ("ms", Millisecond); ("s", Second); ("m", Minute);
   ("h", Hour)]%string.

Fixpoint lookup (u : string) (m : list (string * Z)) : option Z :=
  match m with
  | [] => None
  | (k, v) :: m' => if String.eqb u k then Some v else lookup u m'
  end.

(** [float64] arithmetic (IEEE 754 binary64, round to nearest even). *)
Definition float64_of (z : Z) : spec_float :=
  binary_normalize 53 1024 z 0 false.

(** [uint64(x)] for a finite [x >= 0] below 2^64: truncation. *)
Definition uint64_of_float (x : spec_float) : Z :=
  match x with
  | S754_finite false m e =>
      if 0 <=? e then Z.pos m * 2 ^ e else Z.pos m / 2 ^ (- e)
  | _ => 0
  end.

(** [uint64(float64(f) * (float64(unit) / scale))] *)
Definition fraction_ns (f unit scale : Z) : Z :=
  uint64_of_float
    (SFmul 53 1024 (float64_of f)
       (SFdiv 53 1024 (float64_of unit) (float64_of scale))).

(** One round of the loop [for len(s) > 0] of [ParseDuration], on a
    non-empty [s]: a number and its unit are consumed and added to the
    [uint64] sum [d]; returns the new sum and the rest of [s]. *)
Definition duration_round (orig : string) (d : Z) (s : string)
  : error + Z * string :=
  match s with
  | EmptyString => inl (ErrInvalidDuration orig)
  | String c0 _ =>
      if negb (is_byte c0 46 || is_digit c0) then
        inl (ErrInvalidDuration orig)
      else
        let pl := String.length s in
        match leadingInt s with
        | None => inl (ErrInvalidDuration orig)
        | Some (v, s1) =>
            let pre := negb (pl =? String.length s1)%nat in
            let '(f, scale, s2, post) :=
              match s1 with
              | String c s1' =>
                  if is_byte c 46 then
                    let '(f, scale, s2) := leadingFraction s1' in
                    (f, scale, s2,
                     negb (String.length s1' =? String.length s2)%nat)
                  else (0, 1, s1, false)
              | EmptyString => (0, 1, s1, false)
              end in
            if negb pre && negb post then inl (ErrInvalidDuration orig)
            else
              let i := unit_end s2 in
              if (i =? 0)%nat then inl (ErrMissingUnit orig)
              else
                let u := substring 0 i s2 in
                let s3 := drop i s2 in
                match lookup u unitMap with
                | None => inl (ErrUnknownUnit u orig)
                | Some unit =>
                    if v >? 2 ^ 63 / unit then
                      inl (ErrInvalidDuration orig)
                    else
                      let v := v * unit in
                      let v :=
                        if 0 <? f then v + fraction_ns f unit scale
                        else v in
                      if (0 <? f) && (v >? 2 ^ 63) then
                        inl (ErrInvalidDuration orig)
                      else
                        let d := (d + v) mod 2 ^ 64 in
                        if d >? 2 ^ 63 then inl (ErrInvalidDuration orig)
                        else inr (d, s3)
                end
        end
  end.

(** The loop [for len(s) > 0].  Every round consumes at least one byte, so
    [fuel] rounds with [fuel] the length of [s] are enough. *)
Fixpoint duration_loop (fuel : nat) (orig : string) (d : Z) (s : string)
  : error + Z :=
  match s with
  | EmptyString => inr d
  | String _ _ =>
      match fuel with
      | O => inl (ErrInvalidDuration orig)
      | S fuel' =>
          match duration_round orig d s with
          | inl e => inl e
          | inr (d', s') => duration_loop fuel' orig d' s'
          end
      end
  end.

(** [func ParseDuration(s string) (Duration, error)] *)
Definition ParseDuration (s : string) : error + Duration :=
  let orig := s in
  let '(neg, s) :=
    match s with
    | String c s' =>
        if is_byte c 45 || is_byte c 43 then (is_byte c 45, s') else (false, s)
    | EmptyString => (false, s)
    end in
  if String.eqb s "0" then inr 0
  else if String.eqb s EmptyString then inl (ErrInvalidDuration orig)
  else
    match duration_loop (String.length s) orig 0 s with
    | inl e => inl e
    | inr d =>
        if neg then inr (wrap64 (- wrap64 d))
        else if d >? 2 ^ 63 - 1 then inl (ErrInvalidDuration orig)
        else inr d
    end.

End Time.

(* ================================================================== *)
(** ** package strconv: when [ParseFloat(s, 64)] returns a nil error *)

Module Strconv.

(** [commonPrefixLenIgnoreCase(s, prefix)], [prefix] in lower case. *)
Fixpoint commonPrefixLenIgnoreCase (s prefix : string) : nat :=
  match s, prefix with
  | String c s', String p prefix' =>
      let c := if between 65 c 90 then code c + 32 else code c in
      if c =? code p then S (commonPrefixLenIgnoreCase s' prefix') else O
  | _, _ => O
  end.

(** The ['i', 'I'] case of [special], after [nsign] bytes of sign. *)
Definition infinity_prefix (s : string) (nsign : nat) : option nat :=
  let n := commonPrefixLenIgnoreCase s "infinity" in
  let n := if (3 <? n)%nat && (n <? 8)%nat then 3%nat else n in
  if (n =? 3)%nat || (n =? 8)%nat then Some (nsign + n)%nat else None.

(** [special]: the number of bytes of a leading infinity or NaN. *)
Definition special (s : string) : option nat :=
  match s with
  | EmptyString => None
  | String c s' =>
      if is_byte c 43 || is_byte c 45 then infinity_prefix s' 1
      else if is_byte c 105 || is_byte c 73 then infinity_prefix s 0
      else if is_byte c 110 || is_byte c 78 then
        if (commonPrefixLenIgnoreCase s "nan" =? 3)%nat then Some 3%nat
        else None
      else None
  end.

(** The state of the digit loop of [readFloat]. *)
Record scan : Type := mkScan {
  mantissa : Z;
  nd : Z;
  ndMant : Z;
  dp : Z;
  sawdot : bool;
  sawdigits : bool;
  trunc : bool;
  underscores : bool
}.

Definition scan0 : scan := mkScan 0 0 0 0 false false false false.

(** The loop [for ; i < len(s); i++] over the digits; returns the state
    and the bytes not consumed. *)
Fixpoint digits (hex : bool) (st : scan) (s : string) : scan * string :=
  let base := if hex then 16 else 10 in
  let maxMantDigits := if hex then 16 else 19 in
  match s with
  | EmptyString => (st, s)
  | String c s' =>
      if is_byte c 95 then
        digits hex
          (mkScan st.(mantissa) st.(nd) st.(ndMant) st.(dp) st.(sawdot)
             st.(sawdigits) st.(trunc) true) s'
      else if is_byte c 46 then
        if st.(sawdot) then (st, s)
        else
          digits hex
            (mkScan st.(mantissa) st.(nd) st.(ndMant) st.(nd) true
               st.(sawdigits) st.(trunc) st.(underscores)) s'
      else if is_digit c then
        if is_byte c 48 && (st.(nd) =? 0) then
          digits hex
            (mkScan st.(mantissa) st.(nd) st.(ndMant) (st.(dp) - 1)
               st.(sawdot) true st.(trunc) st.(underscores)) s'
        else if st.(ndMant) <? maxMantDigits then
          digits hex
            (mkScan (st.(mantissa) * base + (code c - 48)) (st.(nd) + 1)
               (st.(ndMant) + 1) st.(dp) st.(sawdot) true st.(trunc)
               st.(underscores)) s'
        else
          digits hex
            (mkScan st.(mantissa) (st.(nd) + 1) st.(ndMant) st.(dp)
               st.(sawdot) true
               (if negb (is_byte c 48) then true else st.(trunc))
               st.(underscores)) s'
      else if hex && (97 <=? lower c) && (lower c <=? 102) then
        if st.(ndMant) <? maxMantDigits then
          digits hex
            (mkScan (st.(mantissa) * 16 + (lower c - 97 + 10))
               (st.(nd) + 1) (st.(ndMant) + 1) st.(dp) st.(sawdot) true
               st.(trunc) st.(underscores)) s'
        else
          digits hex
            (mkScan st.(mantissa) (st.(nd) + 1) st.(ndMant) st.(dp)
               st.(sawdot) true true st.(underscores)) s'
      else (st, s)
  end.

(** The digits of the exponent, [e] capped as in the Go code; returns
    [e], whether an underscore was seen, and the rest. *)
Fixpoint exp_digits (e : Z) (us : bool) (s : string) : Z * bool * string :=
  match s with
  | EmptyString => (e, us, s)
  | String c s' =>
      if is_byte c 95 then exp_digits e true s'
      else if is_digit c then
        exp_digits (if e <? 10000 then e * 10 + code c - 48 else e) us s'
      else (e, us, s)
  end.

(** [underscoreOK]: underscores only between digits, or between a base
    prefix and a digit.  [saw] is ['^'], ['0'], ['_'] or ['!']. *)
Inductive saw : Type := SawStart | SawDigit | SawUnderscore | SawOther.

Fixpoint underscore_loop (hex : bool) (sw : saw) (s : string) : bool :=
  match s with
  | EmptyString => match sw with SawUnderscore => false | _ => true end
  | String c s' =>
      if is_digit c || (hex && (97 <=? lower c) && (lower c <=? 102)) then
        underscore_loop hex SawDigit s'
      else if is_byte c 95 then
        match sw with
        | SawDigit => underscore_loop hex SawUnderscore s'
        | _ => false
        end
      else
        match sw with
        | SawUnderscore => false
        | _ => underscore_loop hex SawOther s'
        end
  end.

Definition underscoreOK (s : string) : bool :=
  let s :=
    match s with
    | String c s' => if is_byte c 45 || is_byte c 43 then s' else s
    | EmptyString => s
    end in
  match s with
  | String c0 (String c1 s') =>
      if is_byte c0 48
         && ((lower c1 =? 98) || (lower c1 =? 111) || (lower c1 =? 120))
      then underscore_loop (lower c1 =? 120) SawDigit s'
      else underscore_loop false SawStart s
  | _ => underscore_loop false SawStart s
  end.

(** What [readFloat] returns: [mantissa], [exp], [trunc], [hex] and, for
    the index [i] it stopped at, the bytes consumed and those left. *)
Record number : Type := mkNumber {
  consumed : string;
  rest : string;
  hex : bool;
  mant : Z;
  exp : Z;
  trnc : bool
}.

(** [readFloat]; [None] when it reports [ok = false]. *)
Definition readFloat (s : string) : option number :=
  match s with
  | EmptyString => None
  | String c s1 =>
      let body := if is_byte c 43 || is_byte c 45 then s1 else s in
      let '(hx, body') :=
        match body with
        | String c0 (String c1 (String c2 t)) =>
            if is_byte c0 48 && (lower c1 =? 120)
            then (true, String c2 t) else (false, body)
        | _ => (false, body)
        end in
      let '(st, s2) := digits hx scan0 body' in
      if negb st.(sawdigits) then None
      else
        let dp := if st.(sawdot) then st.(dp) else st.(nd) in
        let dp := if hx then dp * 4 else dp in
        let ndMant := if hx then st.(ndMant) * 4 else st.(ndMant) in
        let expChar := if hx then 112 else 101 in
        let finish (dp : Z) (us : bool) (s3 : string) :=
          let n := (String.length s - String.length s3)%nat in
          if us && negb (underscoreOK (substring 0 n s)) then None
          else
            Some (mkNumber (substring 0 n s) s3 hx st.(mantissa)
                    (if st.(mantissa) =? 0 then 0 else dp - ndMant)
                    st.(trunc)) in
        match s2 with
        | String ce s3 =>
            if lower ce =? expChar then
              match s3 with
              | EmptyString => None
              | String cs s4 =>
                  let '(esign, s5) :=
                    if is_byte cs 43 then (1, s4)
                    else if is_byte cs 45 then (-1, s4)
                    else (1, s3) in
                  match s5 with
                  | String cd _ =>
                      if negb (is_digit cd) then None
                      else
                        let '(e, us, s6) :=
                          exp_digits 0 st.(underscores) s5 in
                        finish (dp + e * esign) us s6
                  | EmptyString => None
                  end
              end
            else if hx then None
            else finish dp st.(underscores) s2
        | EmptyString =>
            if hx then None else finish dp st.(underscores) s2
        end
  end.

(** *** Range errors *)

(** The [decimal] that [d.set] builds for the slow path: up to 800
    significant digits [d] (here as one integer), their number [dnd] and
    the position [ddp] of the decimal point. *)
Record decimal : Type := mkDecimal {
  dd : Z;
  dnd : Z;
  ddp : Z;
  dsawdot : bool;
  dsawdigits : bool
}.

Fixpoint set_digits (b : decimal) (s : string) : decimal * string :=
  match s with
  | EmptyString => (b, s)
  | String c s' =>
      if is_byte c 95 then set_digits b s'
      else if is_byte c 46 then
        if b.(dsawdot) then (b, s)
        else
          set_digits
            (mkDecimal b.(dd) b.(dnd) b.(dnd) true b.(dsawdigits)) s'
      else if is_digit c then
        if is_byte c 48 && (b.(dnd) =? 0) then
          set_digits
            (mkDecimal b.(dd) b.(dnd) (b.(ddp) - 1) b.(dsawdot) true) s'
        else if b.(dnd) <? 800 then
          set_digits
            (mkDecimal (b.(dd) * 10 + (code c - 48)) (b.(dnd) + 1) b.(ddp)
               b.(dsawdot) true) s'
        else
          set_digits
            (mkDecimal b.(dd) b.(dnd) b.(ddp) b.(dsawdot) true) s'
      else (b, s)
  end.

(** [d.set(s)]; [None] when it reports [ok = false]. *)
Definition decimal_set (s : string) : option decimal :=
  let body :=
    match s with
    | String c s' => if is_byte c 43 || is_byte c 45 then s' else s
    | EmptyString => s
    end in
  let '(b, s2) := set_digits (mkDecimal 0 0 0 false false) body in
  if negb b.(dsawdigits) then None
  else
    let b := if b.(dsawdot) then b
             else mkDecimal b.(dd) b.(dnd) b.(dnd) false true in
    match s2 with
    | EmptyString => Some b
    | String ce s3 =>
        if lower ce =? 101 then
          match s3 with
          | EmptyString => None
          | String cs s4 =>
              let '(esign, s5) :=
                if is_byte cs 43 then (1, s4)
                else if is_byte cs 45 then (-1, s4)
                else (1, s3) in
              match s5 with
              | String cd _ =>
                  if negb (is_digit cd) then None
                  else
                    let '(e, _, s6) := exp_digits 0 false s5 in
                    match s6 with
                    | EmptyString =>
                        Some (mkDecimal b.(dd) b.(dnd)
                                (b.(ddp) + e * esign) true true)
                    | String _ _ => None
                    end
              | EmptyString => None
              end
          end
        else None
    end.

(** Whether [d.floatBits] reports overflow.  After its two shortcuts on
    [dp] it rounds 0.d * 10^dp to the nearest [float64], ties to even;
    the result is beyond the largest [float64] exactly from
    2^1024 - 2^970 on. *)
Definition decimal_overflows (b : decimal) : bool :=
  if b.(dnd) =? 0 then false
  else if 310 <? b.(ddp) then true
  else if b.(ddp) <? -330 then false
  else
    let t := 2 ^ 1024 - 2 ^ 970 in
    let e10 := b.(ddp) - b.(dnd) in
    if 0 <=? e10 then t <=? b.(dd) * 10 ^ e10
    else t * 10 ^ (- e10) <=? b.(dd).

(** [atofHex], up to its range check. *)
Definition shl_step (st : Z * Z) : Z * Z :=
  let '(m, e) := st in
  if negb (m =? 0) && (Z.shiftr m 54 =? 0) then (Z.shiftl m 1, e - 1)
  else st.

Definition shr_step (st : Z * Z) : Z * Z :=
  let '(m, e) := st in
  if negb (Z.shiftr m 55 =? 0)
  then (Z.lor (Z.shiftr m 1) (Z.land m 1), e + 1)
  else st.

Definition denorm_step (st : Z * Z) : Z * Z :=
  let '(m, e) := st in
  if (1 <? m) && (e <? -1022 - 2)
  then (Z.lor (Z.shiftr m 1) (Z.land m 1), e + 1)
  else st.

Definition hex_overflows (mantissa exp : Z) (trunc : bool) : bool :=
  let maxExp := 1023 in
  let exp := exp + 52 in
  (* each loop runs at most 64 times on a 64-bit mantissa *)
  let '(m, e) := Nat.iter 64 shl_step (mantissa, exp) in
  let m := if trunc then Z.lor m 1 else m in
  let '(m, e) := Nat.iter 64 shr_step (m, e) in
  let '(m, e) := Nat.iter 64 denorm_step (m, e) in
  let round := Z.land m 3 in
  let m := Z.shiftr m 2 in
  let round := Z.lor round (Z.land m 1) in
  let e := e + 2 in
  let '(m, e) :=
    if round =? 3 then
      let m := m + 1 in
      if m =? Z.shiftl 1 53 then (Z.shiftr m 1, e + 1) else (m, e)
    else (m, e) in
  let e := if Z.shiftr m 52 =? 0 then -1023 else e in
  maxExp <? e.

(** Whether [atof64] returns an error for what [readFloat] accepted. *)
Definition atof64_fails (r : number) : bool :=
  if r.(hex) then hex_overflows r.(mant) r.(exp) r.(trnc)
  else
    match decimal_set r.(consumed) with
    | Some b => decimal_overflows b
    | None => true
    end.

(** [_, err := strconv.ParseFloat(s, 64); err == nil] *)
Definition ParseFloat_ok (s : string) : bool :=
  match special s with
  | Some n => (n =? String.length s)%nat
  | None =>
      match readFloat s with
      | Some r =>
          (String.length r.(rest) =? 0)%nat && negb (atof64_fails r)
      | None => false
      end
  end.

End Strconv.

(* ================================================================== *)
(** ** bubbletea messages and commands *)

(** The messages the program's [Update] distinguishes.  A key message is
    represented by its [String()], which is all [key.Matches] looks at. *)
Inductive Msg : Type :=
| TickMsg (ID : Z) (Timeout : bool) (tag : Z)   (* timer.TickMsg *)
| TimeoutMsg (ID : Z)                           (* timer.TimeoutMsg *)
| StartStopMsg (ID : Z) (running : bool)        (* timer.StartStopMsg *)
| WindowSizeMsg (Width Height : Z)              (* tea.WindowSizeMsg *)
| FrameMsg (id tag : Z)                         (* progress.FrameMsg *)
| KeyMsg (keystroke : string)                   (* tea.KeyMsg *)
| QuitMsg                                       (* tea.QuitMsg *)
| OtherMsg.                                     (* any other message *)

(** A [tea.Cmd], by what it will deliver. *)
#[warnings="-register-all"]
Inductive Cmd : Type :=
| CmdNil                                  (* nil *)
| CmdQuit                                 (* tea.Quit *)
| CmdMsg (msg : Msg)                      (* func() tea.Msg { return msg } *)
| CmdTick (d : Time.Duration) (msg : Msg) (* tea.Tick(d, func ... msg) *)
| CmdBatch (cs : list Cmd).               (* several commands, unordered *)

Definition is_nil (c : Cmd) : bool :=
  match c with CmdNil => true | _ => false end.

(** [tea.Batch]: nil commands are dropped; none left is nil, one left is
    that command. *)
Definition Batch (cs : list Cmd) : Cmd :=
  match filter (fun c => negb (is_nil c)) cs with
  | [] => CmdNil
  | [c] => c
  | l => CmdBatch l
  end.

(** The messages a command delivers once it has run. *)
Fixpoint delivers (c : Cmd) : list Msg :=
  match c with
  | CmdNil => []
  | CmdQuit => [QuitMsg]
  | CmdMsg msg => [msg]
  | CmdTick _ msg => [msg]
  | CmdBatch cs => flat_map delivers cs
  end.

(* ================================================================== *)
(** ** bubbles/timer *)

Module Timer.

Record Model : Type := mkModel {
  Timeout : Time.Duration;   (* how long until the timer expires *)
  Interval : Time.Duration;  (* how long to wait before every tick *)
  id : Z;
  tag : Z;
  running : bool
}.

(** [timer.New(timeout, timer.WithInterval(interval))]; [lastID] is the
    package's id counter, incremented for each new timer. *)
Definition New (timeout interval : Time.Duration) (lastID : Z) : Model * Z :=
  let i := add64 lastID 1 in
  (mkModel timeout interval i 0 true, i).

Definition Timedout (m : Model) : bool := m.(Timeout) <=? 0.

Definition Running (m : Model) : bool :=
  if Timedout m || negb m.(running) then false else true.

Definition tick (m : Model) : Cmd :=
  CmdTick m.(Interval) (TickMsg m.(id) (Timedout m) m.(tag)).

Definition timedout (m : Model) : Cmd :=
  if negb (Timedout m) then CmdNil else CmdMsg (TimeoutMsg m.(id)).

Definition Init (m : Model) : Cmd := tick m.

Definition Start (m : Model) : Cmd := CmdMsg (StartStopMsg m.(id) true).

Definition Update (m : Model) (msg : Msg) : Model * Cmd :=
  match msg with
  | StartStopMsg ID r =>
      if negb (ID =? 0) && negb (ID =? m.(id)) then (m, CmdNil)
      else
        let m := mkModel m.(Timeout) m.(Interval) m.(id) m.(tag) r in
        (m, tick m)
  | TickMsg ID _ mtag =>
      if negb (Running m) || (negb (ID =? 0) && negb (ID =? m.(id)))
      then (m, CmdNil)
      else if (0 <? mtag) && negb (mtag =? m.(tag)) then (m, CmdNil)
      else
        let m := mkModel (sub64 m.(Timeout) m.(Interval))
                         m.(Interval) m.(id) m.(tag) m.(running) in
        (m, Batch [tick m; timedout m])
  | _ => (m, CmdNil)
  end.

End Timer.

(* ================================================================== *)
(** ** bubbles/progress *)

(** The spring that animates the bar (harmonica): from the fraction shown,
    its velocity and the target, the next fraction shown and velocity.  Its
    arithmetic plays no part in the session's timing and is left open. *)
Class Spring : Type := springUpdate : Q -> Q -> Q -> Q * Q.

Module Progress.

(** The bar's fractions are [float64] in the library; they are kept here
    as exact rationals.  The two comparisons of [SetPercent] are against
    0 and 1, which rounding to [float64] preserves. *)
Record Model : Type := mkModel {
  id : Z;
  tag : Z;
  width : Z;
  targetPercent : Q;   (* percent of bar to fill, 0..1 *)
  percentShown : Q;    (* percent currently displaying *)
  velocity : Q
}.

Definition fps : Z := 60.
Definition defaultWidth : Z := 40.

Definition New (lastID : Z) : Model * Z :=
  let i := add64 lastID 1 in
  (mkModel i 0 defaultWidth 0%Q 0%Q 0%Q, i).

Definition nextFrame (m : Model) : Cmd :=
  CmdTick (Z.quot Time.Second fps) (FrameMsg m.(id) m.(tag)).

Definition Qmin (a b : Q) : Q := if Qle_bool a b then a else b.
Definition Qmax (a b : Q) : Q := if Qle_bool a b then b else a.

(** [m.targetPercent = math.Max(0, math.Min(1, p)); m.tag++;
     return m.nextFrame()] *)
Definition SetPercent (m : Model) (p : Q) : Model * Cmd :=
  let m := mkModel m.(id) (add64 m.(tag) 1) m.(width)
                   (Qmax 0%Q (Qmin 1%Q p)) m.(percentShown) m.(velocity) in
  (m, nextFrame m).

Definition SetWidth (m : Model) (w : Z) : Model :=
  mkModel m.(id) m.(tag) w m.(targetPercent) m.(percentShown) m.(velocity).

Definition Width (m : Model) : Z := m.(width).

Definition Qabs' (a : Q) : Q := if Qle_bool 0%Q a then a else Qopp a.
Definition Qlt_bool (a b : Q) : bool := negb (Qle_bool b a).

Definition IsAnimating (m : Model) : bool :=
  let dist := Qabs' (Qminus m.(percentShown) m.(targetPercent)) in
  negb (Qlt_bool dist (1 # 1000) && Qlt_bool m.(velocity) (1 # 100)).

Definition Update `{Spring} (m : Model) (msg : Msg) : Model * Cmd :=
  match msg with
  | FrameMsg mid mtag =>
      if negb (mid =? m.(id)) || negb (mtag =? m.(tag)) then (m, CmdNil)
      else if negb (IsAnimating m) then (m, CmdNil)
      else
        let '(shown, vel) :=
          springUpdate m.(percentShown) m.(velocity) m.(targetPercent) in
        let m := mkModel m.(id) m.(tag) m.(width) m.(targetPercent)
                         shown vel in
        (m, nextFrame m)
  | _ => (m, CmdNil)
  end.

End Progress.

(* ================================================================== *)
(** ** main.go: the session *)

(** Package-level state the handlers read and write: the program's own
    [winHeight] and the id counters of the two bubbles packages. *)
Record Globals : Type := mkGlobals {
  winHeight : Z;
  timerLastID : Z;
  progressLastID : Z
}.

Definition padding : Z := 2.
Definition maxWidth : Z := 80.

(** [key.NewBinding(key.WithKeys("esc", "q"))] and
    [key.NewBinding(key.WithKeys("ctrl+c"))] *)
Definition quitKeys : list string := ["esc"; "q"]%string.
Definition intKeys : list string := ["ctrl+c"]%string.

(** [key.Matches]: the key's string is one of the binding's keys. *)
Definition Matches (k : string) (binding : list string) : bool :=
  existsb (String.eqb k) binding.

Record model : Type := mkModel {
  name : string;
  altscreen : bool;
  startTimeFormat : string;
  durations : list Time.Duration;
  state : Z;
  passed : Time.Duration;
  start : Z;                      (* wall-clock instant *)
  timer : Timer.Model;
  progress : Progress.Model;
  quitting : bool;
  interrupting : bool
}.

Definition set_passed (m : model) (p : Time.Duration) : model :=
  mkModel m.(name) m.(altscreen) m.(startTimeFormat) m.(durations) m.(state)
          p m.(start) m.(timer) m.(progress) m.(quitting) m.(interrupting).

Definition set_state (m : model) (s : Z) : model :=
  mkModel m.(name) m.(altscreen) m.(startTimeFormat) m.(durations) s
          m.(passed) m.(start) m.(timer) m.(progress) m.(quitting)
          m.(interrupting).

Definition set_start (m : model) (t : Z) : model :=
  mkModel m.(name) m.(altscreen) m.(startTimeFormat) m.(durations) m.(state)
          m.(passed) t m.(timer) m.(progress) m.(quitting) m.(interrupting).

Definition set_timer (m : model) (t : Timer.Model) : model :=
  mkModel m.(name) m.(altscreen) m.(startTimeFormat) m.(durations) m.(state)
          m.(passed) m.(start) t m.(progress) m.(quitting) m.(interrupting).

Definition set_progress (m : model) (p : Progress.Model) : model :=
  mkModel m.(name) m.(altscreen) m.(startTimeFormat) m.(durations) m.(state)
          m.(passed) m.(start) m.(timer) p m.(quitting) m.(interrupting).

Definition set_quitting (m : model) (b : bool) : model :=
  mkModel m.(name) m.(altscreen) m.(startTimeFormat) m.(durations) m.(state)
          m.(passed) m.(start) m.(timer) m.(progress) b m.(interrupting).

Definition set_interrupting (m : model) (b : bool) : model :=
  mkModel m.(name) m.(altscreen) m.(startTimeFormat) m.(durations) m.(state)
          m.(passed) m.(start) m.(timer) m.(progress) m.(quitting) b.

(** [func timerInterval(d time.Duration) time.Duration] *)
Definition timerInterval (d : Time.Duration) : Time.Duration :=
  if d <? Time.Minute then 100 * Time.Millisecond else Time.Second.

(** [func (m model) Init() tea.Cmd] *)
Definition Init (m : model) : Cmd := Timer.Init m.(timer).

(** The whole-percent progress of the tick handler:
    [m.passed.Milliseconds() * 100 / m.durations[m.state].Milliseconds()]. *)
Definition percent (m : model) : result Z :=
  d <- index m.(durations) m.(state) ;;
  div64 (mul64 (Time.Milliseconds m.(passed)) 100) (Time.Milliseconds d).

Section Runner.

Context `{Spring}.

(** [func (m model) Update(msg tea.Msg) (tea.Model, tea.Cmd)].  [g] is the
    package-level state before the call and [now] what [time.Now()] would
    return; the result carries the package-level state after the call. *)
Definition Update (g : Globals) (now : Z) (m : model) (msg : Msg)
  : result (model * Cmd * Globals) :=
  match msg with
  | TickMsg _ _ _ =>
      let m := set_passed m (add64 m.(passed) m.(timer).(Timer.Interval)) in
      pct <- percent m ;;
      let '(p, cmd1) := Progress.SetPercent m.(progress) (pct # 100) in
      let m := set_progress m p in
      let '(t, cmd2) := Timer.Update m.(timer) msg in
      let m := set_timer m t in
      Ok (m, Batch [cmd1; cmd2], g)

  | WindowSizeMsg Width Height =>
      let m := set_progress m
                 (Progress.SetWidth m.(progress)
                    (sub64 (sub64 Width (mul64 padding 2)) 4)) in
      let g := mkGlobals Height g.(timerLastID) g.(progressLastID) in
      let m := if negb m.(altscreen)
                  && (maxWidth <? Progress.Width m.(progress))
               then set_progress m (Progress.SetWidth m.(progress) maxWidth)
               else m in
      Ok (m, CmdNil, g)

  | StartStopMsg _ _ =>
      let '(t, cmd) := Timer.Update m.(timer) msg in
      Ok (set_timer m t, cmd, g)

  | TimeoutMsg _ =>
      if m.(state) =? sub64 (len m.(durations)) 1 then
        Ok (set_quitting m true, CmdQuit, g)
      else
        let m := set_state m (add64 m.(state) 1) in
        let m := set_start m now in
        let m := set_passed m 0 in
        d <- index m.(durations) m.(state) ;;
        let interval := timerInterval d in
        d' <- index m.(durations) m.(state) ;;
        let '(t, lastID) := Timer.New d' interval g.(timerLastID) in
        let m := set_timer m t in
        Ok (m, Timer.Start m.(timer),
            mkGlobals g.(winHeight) lastID g.(progressLastID))

  | FrameMsg _ _ =>
      let '(p, cmd) := Progress.Update m.(progress) msg in
      Ok (set_progress m p, cmd, g)

  | KeyMsg k =>
      if Matches k quitKeys then Ok (set_quitting m true, CmdQuit, g)
      else if Matches k intKeys then
        Ok (set_interrupting m true, CmdQuit, g)
      else Ok (m, CmdNil, g)

  | _ => Ok (m, CmdNil, g)
  end.

End Runner.

(* ================================================================== *)
(** ** main.go: the timer argument *)

(** The class [[\s,-]]. *)
Definition sep_class (c : ascii) : bool :=
  Regexp.perl_space c || is_byte c 44 || is_byte c 45.

(** [const TIMER_ARG_SEP = "\\s*[\\s,-]\\s*"] *)
Definition TIMER_ARG_SEP : list Regexp.piece :=
  [Regexp.Star Regexp.perl_space; Regexp.One sep_class;
   Regexp.Star Regexp.perl_space].

(** [func splitTimerArgString(s string) []string] *)
Definition splitTimerArgString (s : string) : list string :=
  Regexp.Split TIMER_ARG_SEP s.

(** [func addSuffixIfArgIsNumber(s string, suffix string) string] *)
Definition addSuffixIfArgIsNumber (s suffix : string) : string :=
  if Strconv.ParseFloat_ok s then (s ++ suffix)%string else s.

(** The command-line flags [--name], [--fullscreen] and [--format]. *)
Record Flags : Type := mkFlags {
  flag_name : string;
  flag_altscreen : bool;
  flag_startTimeFormat : string
}.

(** The loop of [RunE] over the tokens: normalise, parse, stop at the first
    error. *)
Fixpoint parseDurations (items : list string) (durations : list Time.Duration)
  : error + list Time.Duration :=
  match items with
  | [] => inr durations
  | item :: rest =>
      match Time.ParseDuration (addSuffixIfArgIsNumber item "s") with
      | inl err => inl err
      | inr duration => parseDurations rest (durations ++ [duration])
      end
  end.

(** The [model] literal that [RunE] hands to [tea.NewProgram]. *)
Definition newModel (fl : Flags) (g : Globals) (now : Z)
  (durations : list Time.Duration) : result (model * Globals) :=
  d0 <- index durations 0 ;;
  let interval := timerInterval d0 in
  d0' <- index durations 0 ;;
  let '(t, tid) := Timer.New d0' interval g.(timerLastID) in
  let '(p, pid) := Progress.New g.(progressLastID) in
  Ok (mkModel fl.(flag_name) fl.(flag_altscreen) fl.(flag_startTimeFormat)
        durations 0 0 now t p false false,
      mkGlobals g.(winHeight) tid pid).

Definition newline : string := String "010" EmptyString.

(** The end of [RunE], from what [Program.Run] returned: what is printed
    and the error returned. *)
Definition finish (fl : Flags) (r : error + model) : string * option error :=
  match r with
  | inl err => (EmptyString, Some err)
  | inr m =>
      if m.(interrupting) then (EmptyString, Some ErrInterrupted)
      else
        ((if String.eqb fl.(flag_name) EmptyString then EmptyString
          else fl.(flag_name) ++ " ")
         ++ "finished!" ++ newline, None)%string
  end.

(** [rootCmd.RunE] on [args[0]]; [program] stands for
    [tea.NewProgram(m, opts...).Run()]. *)
Definition RunE (fl : Flags) (g : Globals) (now : Z)
  (program : model -> Globals -> error + model) (arg : string)
  : result (string * option error) :=
  match parseDurations (splitTimerArgString arg) [] with
  | inl err => Ok (EmptyString, Some err)
  | inr durations =>
      mg <- newModel fl g now durations ;;
      Ok (finish fl (program (fst mg) (snd mg)))
  end.

(** [func main()]: the exit status. *)
Definition exit_status (r : result (string * option error)) : Z :=
  match r with
  | Ok (_, None) => 0
  | Ok (_, Some _) => 1
  | Panic _ => 2
  end.

(* ================================================================== *)
(** ** Runs of the message loop *)

Section Runs.

Context `{Spring}.

(** The loop hands each message, in arrival order, to [Update]; an event
    is a message with the wall-clock instant at which it is handled. *)
Definition event : Type := Z * Msg.

Fixpoint handle (g : Globals) (m : model) (evs : list event)
  : result (model * Globals) :=
  match evs with
  | [] => Ok (m, g)
  | (now, msg) :: evs' =>
      r <- Update g now m msg ;;
      handle (snd r) (fst (fst r)) evs'
  end.

(** What [Program.Run] returns when the loop stops after [evs]: the last
    model, or an error when a handler panicked. *)
Definition program_result (g : Globals) (m : model) (evs : list event)
  : error + model :=
  match handle g m evs with
  | Ok (m', _) => inr m'
  | Panic _ => inl ErrProgram
  end.

(** The countdown counts the tick: this is the condition under which
    [timer.Update] decrements [Timeout]. *)
Definition counted (t : Timer.Model) (msg : Msg) : bool :=
  match msg with
  | TickMsg ID _ mtag =>
      Timer.Running t
      && negb (negb (ID =? 0) && negb (ID =? t.(Timer.id)))
      && negb ((0 <? mtag) && negb (mtag =? t.(Timer.tag)))
  | _ => true
  end.


End Runs.


(** The two invariants of the data model that [Update] relies on: the stage
    index is inside the stage list, and the list's length is an [int]. *)
Definition session_inv (m : model) : Prop :=
  0 <= m.(state) < len m.(durations) /\ len m.(durations) <= max_int64.

(* ================================================================== *)
(** ** Sample sessions *)

(** A spring that reaches its target at once. *)
Definition rigidSpring : Spring := fun _ _ target => (target, 0%Q).

Definition noGlobals : Globals := mkGlobals 0 0 0.
Definition noFlags : Flags := mkFlags EmptyString false EmptyString.
Definition pomodoro : Flags := mkFlags "pomodoro" false EmptyString.

(** The session [RunE] builds for the flags [fl] and the stage list [ds]. *)
Definition session_with (fl : Flags) (ds : list Time.Duration) : model :=
  match ds with
  | [] => mkModel EmptyString false EmptyString [] 0 0 0
            (Timer.mkModel 0 0 0 0 true) (Progress.mkModel 0 0 0 0 0 0)
            false false
  | d :: _ =>
      mkModel fl.(flag_name) fl.(flag_altscreen) fl.(flag_startTimeFormat)
        ds 0 0 0
        (Timer.mkModel d (timerInterval d) 1 0 true)
        (Progress.mkModel 1 0 Progress.defaultWidth 0 0 0) false false
  end.

Definition session (ds : list Time.Duration) : model :=
  session_with noFlags ds.

Definition sessionGlobals : Globals := mkGlobals 0 1 1.

Definition seconds (n : Z) : Time.Duration := n * Time.Second.
Definition millis (n : Z) : Time.Duration := n * Time.Millisecond.

(** An interrupt key: [key.Matches(msg, intKeys)] for a key message. *)
Definition is_interrupt (msg : Msg) : bool :=
  match msg with
  | KeyMsg k => Matches k intKeys
  | _ => false
  end.

(** A plain quit key: [key.Matches(msg, quitKeys)] for a key message. *)
Definition is_quit (msg : Msg) : bool :=
  match msg with
  | KeyMsg k => Matches k quitKeys
  | _ => false
  end.

(** A session that has completed naturally: one 2s stage, [quitting] set. *)
Definition finished_session : model :=
  set_quitting (session [seconds 2]) true.

(** Whether the loop handled an interrupt key (ctrl+c) among [evs]. *)
Definition interrupted (evs : list (Z * Msg)) : bool :=
  existsb (fun ev => is_interrupt (snd ev)) evs.

(** The line printed on success: ["<name> finished!\n"], without the name
    segment when the name is empty. *)
Definition finished_line (fl : Flags) : string :=
  ((if String.eqb fl.(flag_name) EmptyString then EmptyString
    else fl.(flag_name) ++ " ") ++ "finished!" ++ newline)%string.


(** The session of one 250ms stage after two of its ticks: 200ms elapsed,
    50ms left on the countdown. *)
Definition late_session : model :=
  mkModel EmptyString false EmptyString [millis 250] 0 (millis 200) 0
    (Timer.mkModel (millis 50) (millis 100) 1 0 true)
    (Progress.mkModel 1 2 Progress.defaultWidth (80 # 100) 0 0) false false.

(** A 10s stage with 3.27s elapsed. *)
Definition ten_second_stage : model :=
  set_passed (session [seconds 10]) (millis 3270).

(** What the countdown and the elapsed time have in common in a session
    over the stage list [ds]: the countdown belongs to the current stage,
    has not run more than one interval past zero, and elapsed is the part
    of the stage's duration it has counted off (as [int64]). *)
Definition countdown_inv (ds : list Time.Duration) (m : model) : Prop :=
  m.(durations) = ds
  /\ exists D,
       index ds m.(state) = Ok D
       /\ m.(timer).(Timer.Interval) = timerInterval D
       /\ - m.(timer).(Timer.Interval) < m.(timer).(Timer.Timeout) <= D
       /\ m.(passed) = wrap64 (D - m.(timer).(Timer.Timeout)).


(* ================================================================== *)
(** ** Shapes of tokens *)

(** Every byte of [s] satisfies [p]. *)
Fixpoint all (p : ascii -> bool) (s : string) : bool :=
  match s with
  | EmptyString => true
  | String c s' => p c && all p s'
  end.

(** The bytes that can occur in a string [ParseFloat] accepts: signs, the
    point, the underscore, digits, the letters of hexadecimal digits and of
    the exponent and base markers, and the letters of "infinity" and
    "nan". *)
Definition float_byte (c : ascii) : bool :=
  is_byte c 43 || is_byte c 45 || is_byte c 46 || is_byte c 95
  || is_digit c
  || ((97 <=? lower c) && (lower c <=? 102))
  || (lower c =? 120) || (lower c =? 112)
  || (lower c =? 105) || (lower c =? 110) || (lower c =? 116)
  || (lower c =? 121).

(** The names of the units [ParseDuration] recognises. *)
Definition unit_names : list string := map fst Time.unitMap.

Definition not_sep (c : ascii) : bool := negb (sep_class c).

(** A comma or a hyphen. *)
Definition punct (c : ascii) : bool := is_byte c 44 || is_byte c 45.

Definition minutes (n : Z) : Time.Duration := n * Time.Minute.

(** What may follow a separator: nothing, or a byte that is no white space
    (for the trailing [\s*]) or no separator byte at all. *)
Definition starts_nonspace (s : string) : bool :=
  match s with
  | EmptyString => true
  | String c _ => negb (Regexp.perl_space c)
  end.

Definition starts_token (s : string) : bool :=
  match s with
  | EmptyString => true
  | String c _ => not_sep c
  end.

(** The letters of "infinity" and "nan". *)
Definition word_letter (q : ascii) : bool :=
  is_byte q 105 || is_byte q 110 || is_byte q 102 || is_byte q 116
  || is_byte q 121 || is_byte q 97.

(** A plain integer or decimal: digits with at most one point among them
    and at least one digit. *)
Fixpoint plain_number_from (seen_dot seen_digit : bool) (s : string) : bool :=
  match s with
  | EmptyString => seen_digit
  | String c s' =>
      if is_digit c then plain_number_from seen_dot true s'
      else if is_byte c 46 && negb seen_dot then
        plain_number_from true seen_digit s'
      else false
  end.

Definition plain_number (s : string) : bool :=
  plain_number_from false false s.

(** A [decimal] after [k] bytes of a plain number: at most [k] digits kept,
    the digits as an integer below 10^[dnd], the point within [k] places
    of the digits. *)
Definition dec_ok (b : Strconv.decimal) (k : Z) : Prop :=
  0 <= b.(Strconv.dnd) <= k
  /\ 0 <= b.(Strconv.dd) < 10 ^ b.(Strconv.dnd)
  /\ - k <= b.(Strconv.ddp) <= b.(Strconv.dnd).

(* ================================================================== *)
(** ** Counting events *)

Definition is_timeout (msg : Msg) : bool :=
  match msg with
  | TimeoutMsg _ => true
  | _ => false
  end.

(** The number of Timeout events among [evs]. *)
Fixpoint timeouts (evs : list (Z * Msg)) : Z :=
  match evs with
  | [] => 0
  | (_, msg) :: evs' => (if is_timeout msg then 1 else 0) + timeouts evs'
  end.

(** Whether the loop handled a plain quit key (esc, q) among [evs]. *)
Definition quit_pressed (evs : list (Z * Msg)) : bool :=
  existsb (fun ev => is_quit (snd ev)) evs.

Definition is_frame (msg : Msg) : bool :=
  match msg with
  | FrameMsg _ _ => true
  | _ => false
  end.

Definition is_tick (msg : Msg) : bool :=
  match msg with
  | TickMsg _ _ _ => true
  | _ => false
  end.

(* ================================================================== *)
(** ** main.go: the view *)

(** What [View] takes from its libraries: [strings.ToLower],
    [time.Time.Format] and [time.Time.Add] (instants as [Z]), the renderers
    of the three lipgloss styles ([altscreenStyle] with its top margin),
    and the views of the two bubbles components. *)
Class Screen : Type := mkScreen {
  ToLower : string -> string;
  Format : Z -> string -> string;
  Add : Z -> Time.Duration -> Z;
  boldRender : string -> string;
  italicRender : string -> string;
  altscreenRender : Z -> string -> string;
  timerView : Timer.Model -> string;
  progressView : Progress.Model -> string
}.

(** [time.Kitchen] *)
Definition Kitchen : string := "3:04PM".

Section Viewing.

Context `{Screen}.

(** [func (m model) View() string]; [g] holds [winHeight]. *)
Definition View (g : Globals) (m : model) : result string :=
  if m.(quitting) || m.(interrupting) then Ok EmptyString
  else
    let startTimeFormat :=
      if String.eqb (ToLower m.(startTimeFormat)) "24h" then "15:04"%string
      else Kitchen in
    let result := boldRender (Format m.(start) startTimeFormat) in
    let result :=
      if negb (String.eqb m.(name) EmptyString)
      then (result ++ ": " ++ italicRender m.(name))%string
      else result in
    d <- index m.(durations) m.(state) ;;
    let endTime := Add m.(start) d in
    let result :=
      (result ++ " - " ++ boldRender (Format endTime startTimeFormat)
       ++ " - " ++ boldRender (timerView m.(timer))
       ++ newline ++ progressView m.(progress))%string in
    if m.(altscreen) then
      Ok (altscreenRender (Z.quot (sub64 g.(winHeight) 2) 2) result)
    else Ok result.

End Viewing.

(** A screen that renders nothing specially: plain text, empty component
    views. *)
Definition plainScreen : Screen :=
  mkScreen (fun s => s) (fun _ layout => layout) Z.add (fun s => s)
    (fun s => s) (fun _ s => s) (fun _ => EmptyString)
    (fun _ => EmptyString).


(* ================================================================== *)
(** ** The tokenizer as one scan *)

(** [cur] in front of the first string of [l]. *)
Definition prepend (cur : string) (l : list string) : list string :=
  match l with
  | [] => [cur]
  | t :: ts => (cur ++ t)%string :: ts
  end.

(** The tokens of [s] read off in one pass: the first string of the result
    is the rest of the token the scan is in; [skip] is the number of bytes
    still inside a separator. *)
Fixpoint split_scan (re : list Regexp.piece) (s : string) (skip : nat)
  : list string :=
  match s with
  | EmptyString => [EmptyString]
  | String c s' =>
      match skip with
      | S k => split_scan re s' k
      | O =>
          match Regexp.match_here re s with
          | Some (S k) => EmptyString :: split_scan re s' k
          | _ => prepend (String c EmptyString) (split_scan re s' 0)
          end
      end
  end.

(** The class of bytes a piece of a pattern matches. *)
Definition piece_class (p : Regexp.piece) : ascii -> bool :=
  match p with Regexp.One cls => cls | Regexp.Star cls => cls end.

(** The bytes of [s] that satisfy [p], in order. *)
Fixpoint keep (p : ascii -> bool) (s : string) : string :=
  match s with
  | EmptyString => EmptyString
  | String c s' => if p c then String c (keep p s') else keep p s'
  end.

(** A first token [a] followed by tokens, each behind its separator: white
    space, one separator byte, white space. *)
Fixpoint glue (a : string) (rest : list (string * ascii * string * string))
  : string :=
  match rest with
  | [] => a
  | (w1, c, w2, t) :: rest' => (a ++ (w1 ++ String c w2) ++ glue t rest')%string
  end.

(** A separator as the pattern reads it, in front of a token that is not
    empty and holds no separator byte. *)
Definition piece_ok (p : string * ascii * string * string) : bool :=
  let '(w1, c, w2, t) := p in
  all Regexp.perl_space w1 && sep_class c && all Regexp.perl_space w2
  && negb (String.eqb t EmptyString) && all not_sep t.

(* ================================================================== *)
(** ** Shapes of durations *)

(** [s] begins with a minus sign. *)
Definition starts_minus (s : string) : bool :=
  match s with
  | String c _ => is_byte c 45
  | EmptyString => false
  end.

(** The number a string of decimal digits denotes, continuing from [x]. *)
Fixpoint digits_value_from (x : Z) (s : string) : Z :=
  match s with
  | EmptyString => x
  | String c s' => digits_value_from (x * 10 + code c - 48) s'
  end.

Definition digits_value (s : string) : Z := digits_value_from 0 s.

(** [tok] is read as the duration [d], default unit included. *)
Definition reads_as (tok : string) (d : Time.Duration) : Prop :=
  Time.ParseDuration (addSuffixIfArgIsNumber tok "s") = inr d.

(* ================================================================== *)
(** ** The countdown of a stage *)

(** The countdown of the session [m] is the one made for its stage: with
    [base] the id counter before the session was built, its id is that of
    the timer made for stage number [state], which is the last one made,
    and its tag is the initial one. *)
Definition identity_inv (base : Z) (m : model) (g : Globals) : Prop :=
  m.(timer).(Timer.id) = base + 1 + m.(state)
  /\ g.(timerLastID) = m.(timer).(Timer.id)
  /\ m.(timer).(Timer.tag) = 0
  /\ exists D, index m.(durations) m.(state) = Ok D
               /\ m.(timer).(Timer.Interval) = timerInterval D.
(* ================================================================== *)
(** * Properties *)

(** ** Arithmetic and slices *)

Lemma wrap64_id (z : Z) : in_int64 z -> wrap64 z = z.
Proof.
  unfold in_int64, min_int64, max_int64, wrap64. intros Hz.
  rewrite Z.mod_small; lia.
Qed.

Lemma wrap64_range (z : Z) : in_int64 (wrap64 z).
Proof.
  unfold in_int64, min_int64, max_int64, wrap64.
  pose proof (Z.mod_pos_bound (z + 2 ^ 63) (2 ^ 64) ltac:(lia)). lia.
Qed.

Lemma index_in_range {A : Type} (s : list A) (i : Z) :
  0 <= i < len s -> exists a, index s i = Ok a.
Proof.
  unfold index, len. intros [Hlo Hhi].
  destruct (i <? 0) eqn:E; [apply Z.ltb_lt in E; lia|].
  destruct (nth_error s (Z.to_nat i)) as [a|] eqn:N; [now exists a|].
  apply nth_error_None in N. lia.
Qed.

Lemma index_Ok_range {A : Type} (s : list A) (i : Z) (a : A) :
  index s i = Ok a -> 0 <= i < len s.
Proof.
  unfold index, len. destruct (i <? 0) eqn:E; [discriminate|].
  apply Z.ltb_ge in E.
  destruct (nth_error s (Z.to_nat i)) eqn:N; [|discriminate].
  intros _. assert (Z.to_nat i < List.length s)%nat
    by (apply nth_error_Some; congruence). lia.
Qed.


Lemma session_new (d : Time.Duration) (ds : list Time.Duration) :
  newModel noFlags noGlobals 0 (d :: ds)
  = Ok (session (d :: ds), sessionGlobals).
Proof. reflexivity. Qed.

Lemma len_nonneg {A : Type} (s : list A) : 0 <= len s.
Proof. unfold len. lia. Qed.

Lemma last_index (n : Z) : 0 <= n <= max_int64 -> sub64 n 1 = n - 1.
Proof.
  intros Hn. unfold sub64. apply wrap64_id.
  unfold in_int64, min_int64, max_int64 in *. lia.
Qed.

(* ================================================================== *)
(** ** Strings *)

Local Open Scope string_scope.

Lemma string_app_assoc (a b c : string) :
  ((a ++ b) ++ c = a ++ (b ++ c))%string.
Proof. induction a as [|x a IH]; cbn; [reflexivity|now rewrite IH]. Qed.

Lemma all_app (p : ascii -> bool) (a b : string) :
  all p (a ++ b) = all p a && all p b.
Proof.
  induction a as [|c a IH]; cbn; [reflexivity|].
  now rewrite IH, andb_assoc.
Qed.

Lemma string_length_app (a b : string) :
  String.length (a ++ b) = (String.length a + String.length b)%nat.
Proof. induction a as [|c a IH]; cbn; [reflexivity|now rewrite IH]. Qed.

Lemma substring_none (n : nat) (s : string) : substring n 0 s = EmptyString.
Proof.
  revert n. induction s as [|c s IH]; intros [|n]; cbn; auto.
Qed.

Lemma substring_prefix (a r : string) :
  substring 0 (String.length a) (a ++ r) = a.
Proof.
  induction a as [|c a IH]; cbn; [apply substring_none|now rewrite IH].
Qed.

Lemma substring_whole (b : string) : substring 0 (String.length b) b = b.
Proof. induction b as [|c b IH]; cbn; [reflexivity|now rewrite IH]. Qed.

Lemma substring_skip (p r : string) (n : nat) :
  substring (String.length p) n (p ++ r) = substring 0 n r.
Proof. induction p as [|c p IH]; cbn; [reflexivity|exact IH]. Qed.

Local Close Scope string_scope.

(* ================================================================== *)
(** ** The loop of [ParseDuration] terminates *)

Module DurationLoop.

Import Time.

Lemma leadingInt_from_length (s : string) :
  forall x v s1,
    leadingInt_from x s = Some (v, s1) ->
    (String.length s1 <= String.length s)%nat.
Proof.
  induction s as [|c s IH]; intros x v s1 Hl;
    cbn [leadingInt_from] in Hl.
  - injection Hl as _ <-. lia.
  - destruct (negb (is_digit c)); [injection Hl as _ <-; lia|].
    destruct (x >? 2 ^ 63 / 10); [discriminate|].
    destruct (x * 10 + code c - 48 >? 2 ^ 63); [discriminate|].
    apply IH in Hl. cbn. lia.
Qed.

Lemma leadingFraction_from_length (s : string) :
  forall x scale ov f scale' s2,
    leadingFraction_from x scale ov s = (f, scale', s2) ->
    (String.length s2 <= String.length s)%nat.
Proof.
  induction s as [|c s IH]; intros x scale ov f scale' s2 Hl;
    cbn [leadingFraction_from] in Hl.
  - injection Hl as _ _ <-. lia.
  - destruct (negb (is_digit c)); [injection Hl as _ _ <-; lia|].
    destruct ov; [apply IH in Hl; cbn; lia|].
    destruct (x >? (2 ^ 63 - 1) / 10); [apply IH in Hl; cbn; lia|].
    destruct (x * 10 + code c - 48 >? 2 ^ 63); apply IH in Hl; cbn; lia.
Qed.

Lemma drop_length (n : nat) (s : string) :
  String.length (drop n s) = (String.length s - n)%nat.
Proof.
  revert s. induction n as [|n IH]; intros [|c s]; cbn; auto.
Qed.

Lemma unit_end_le (s : string) : (unit_end s <= String.length s)%nat.
Proof.
  induction s as [|c s IH]; cbn; [lia|].
  destruct (is_byte c 46 || is_digit c); lia.
Qed.

(** A round that succeeds leaves a strictly shorter string. *)
Lemma duration_round_shorter (orig : string) (d : Z) (s : string)
  (d' : Z) (s' : string) :
  duration_round orig d s = inr (d', s') ->
  (String.length s' < String.length s)%nat.
Proof.
  unfold duration_round.
  destruct s as [|c0 s0]; [discriminate|].
  destruct (negb (is_byte c0 46 || is_digit c0)); [discriminate|].
  set (s := String c0 s0).
  destruct (leadingInt s) as [[v s1]|] eqn:Hli; [|discriminate].
  pose proof (leadingInt_from_length _ _ _ _ Hli) as H1.
  set (frac := match s1 with
               | String c s1' =>
                   if is_byte c 46 then
                     let '(f, scale, s2) := leadingFraction s1' in
                     (f, scale, s2,
                      negb (String.length s1' =? String.length s2)%nat)
                   else (0, 1, s1, false)
               | EmptyString => (0, 1, s1, false)
               end).
  assert (H2 : (String.length (snd (fst frac)) <= String.length s1)%nat).
  { unfold frac. destruct s1 as [|c s1']; [cbn; lia|].
    destruct (is_byte c 46); [|cbn; lia].
    destruct (leadingFraction s1') as [[f scale] s2] eqn:Hlf.
    apply leadingFraction_from_length in Hlf. cbn. lia. }
  destruct frac as [[[f scale] s2] post]. cbn [fst snd] in H2.
  destruct (negb _ && negb post); [discriminate|].
  destruct (Nat.eqb_spec (unit_end s2) 0) as [|Hi]; [discriminate|].
  destruct (lookup _ unitMap) as [unit|]; [|discriminate].
  destruct (v >? 2 ^ 63 / unit); [discriminate|].
  destruct ((0 <? f) && _); [discriminate|].
  destruct (_ >? 2 ^ 63); [discriminate|].
  intros E. injection E as _ <-.
  rewrite drop_length. pose proof (unit_end_le s2). lia.
Qed.

(** Any fuel from the length of [s] on gives the same result: the loop
    never runs out of it. *)
Lemma duration_loop_fuel (orig : string) (n : nat) :
  forall m d s,
    (String.length s <= n)%nat -> (String.length s <= m)%nat ->
    duration_loop n orig d s = duration_loop m orig d s.
Proof.
  induction n as [|n IH]; intros m d s Hn Hm.
  - destruct s; [now destruct m|cbn in Hn; lia].
  - destruct s as [|c s]; [now destruct m|].
    destruct m as [|m]; [cbn in Hm; lia|].
    cbn [duration_loop].
    destruct (duration_round orig d (String c s)) as [e|[d' s']] eqn:Hr;
      [reflexivity|].
    apply duration_round_shorter in Hr.
    apply IH; cbn [String.length] in *; lia.
Qed.

End DurationLoop.

(* ================================================================== *)
(** ** The Timeout event *)

Section TimeoutEvent.

Context `{Spring}.

(** C1. When a Timeout event arrives in a session with n stages: on the
    last stage (index n-1) the session is marked quitting (completed
    naturally), the index does not change and the command returned is
    [tea.Quit]; on any other stage the index grows by exactly 1, elapsed
    is reset to 0, the stage start is set to now, and the countdown is
    replaced by a running one of the next stage's full duration whose
    tick interval is [timerInterval] of that duration, started by the
    command returned. *)
Theorem timeout_transition (g : Globals) (now : Z) (m : model) (ID : Z) :
  session_inv m ->
  (m.(state) = len m.(durations) - 1 ->
     exists m',
       Update g now m (TimeoutMsg ID) = Ok (m', CmdQuit, g)
       /\ delivers CmdQuit = [QuitMsg]
       /\ m'.(quitting) = true
       /\ m'.(state) = m.(state)
       /\ m' = set_quitting m true)
  /\
  (m.(state) <> len m.(durations) - 1 ->
     exists d m' g',
       index m.(durations) (m.(state) + 1) = Ok d
       /\ Update g now m (TimeoutMsg ID)
          = Ok (m', Timer.Start m'.(timer), g')
       /\ m'.(state) = m.(state) + 1
       /\ m'.(passed) = 0
       /\ m'.(start) = now
       /\ m'.(timer).(Timer.Timeout) = d
       /\ m'.(timer).(Timer.Interval) = timerInterval d
       /\ m'.(timer).(Timer.running) = true
       /\ Timer.Start m'.(timer)
          = CmdMsg (StartStopMsg m'.(timer).(Timer.id) true)
       /\ m'.(durations) = m.(durations)
       /\ m'.(quitting) = m.(quitting)
       /\ m'.(interrupting) = m.(interrupting)).
Proof.
  intros [[Hlo Hhi] Hlen].
  assert (Hlast : sub64 (len m.(durations)) 1 = len m.(durations) - 1)
    by (apply last_index; pose proof (len_nonneg m.(durations)); lia).
  split; intros Hst.
  - exists (set_quitting m true). unfold Update.
    rewrite Hlast, (proj2 (Z.eqb_eq _ _) Hst).
    repeat split; reflexivity.
  - assert (Hnext : add64 m.(state) 1 = m.(state) + 1).
    { unfold add64. apply wrap64_id.
      unfold in_int64, min_int64, max_int64 in *. lia. }
    destruct (index_in_range m.(durations) (m.(state) + 1)) as [d Hd];
      [lia|].
    unfold Update. rewrite Hlast.
    destruct (Z.eqb_spec m.(state) (len m.(durations) - 1)) as [E|_];
      [contradiction|].
    cbn [set_state set_start set_passed durations state]. rewrite Hnext, Hd.
    cbn [bind].
    eexists d, _, _. split; [reflexivity|].
    split; [reflexivity|]. cbn. repeat split; reflexivity.
Qed.

End TimeoutEvent.

Lemma timeout_transition_witness :
  session_inv (session [seconds 2; seconds 3])
  /\ exists m',
       Update (H := rigidSpring) sessionGlobals 7
         (session [seconds 2; seconds 3]) (TimeoutMsg 1)
       = Ok (m', Timer.Start m'.(timer), mkGlobals 0 2 1)
       /\ m'.(state) = 1 /\ m'.(passed) = 0 /\ m'.(start) = 7
       /\ m'.(timer).(Timer.Timeout) = seconds 3.
Proof.
  assert (Hinv : session_inv (session [seconds 2; seconds 3])).
  { unfold session_inv, max_int64. cbn. lia. }
  split; [exact Hinv|].
  destruct (timeout_transition (H := rigidSpring) sessionGlobals 7
              (session [seconds 2; seconds 3]) 1 Hinv) as [_ Hadv].
  destruct Hadv as (d & m' & g' & Hd & HU & Hs & Hp & Hst & Ht & _).
  { cbn. discriminate. }
  exists m'. cbn in Hd. injection Hd as <-.
  assert (g' = mkGlobals 0 2 1).
  { cbn in HU. injection HU as _ _ E. now rewrite <- E. }
  subst g'. repeat split; assumption.
Defined.

(** The stage transition of the specification's example, stages [2s, 3s]:
    the first Timeout moves to stage 1 with a countdown of 3s, the second
    marks the session quitting and returns [tea.Quit]. *)
Example two_stage_run :
  handle (H := rigidSpring) sessionGlobals (session [seconds 2; seconds 3])
    [(5, TimeoutMsg 1)]
  = Ok (mkModel EmptyString false EmptyString [seconds 2; seconds 3] 1 0 5
          (Timer.mkModel (seconds 3) (millis 100) 2 0 true)
          (Progress.mkModel 1 0 40 0 0 0) false false,
        mkGlobals 0 2 1)
  /\ Update (H := rigidSpring) (mkGlobals 0 2 1) 9
       (mkModel EmptyString false EmptyString [seconds 2; seconds 3] 1 0 5
          (Timer.mkModel (seconds 3) (millis 100) 2 0 true)
          (Progress.mkModel 1 0 40 0 0 0) false false)
       (TimeoutMsg 2)
     = Ok (mkModel EmptyString false EmptyString [seconds 2; seconds 3] 1 0 5
             (Timer.mkModel (seconds 3) (millis 100) 2 0 true)
             (Progress.mkModel 1 0 40 0 0 0) true false,
           CmdQuit, mkGlobals 0 2 1).
Proof. split; reflexivity. Qed.

(* ================================================================== *)
(** ** Tick cadence *)

Section Cadence.

Context `{Spring}.

Lemma timerInterval_cases (d : Time.Duration) :
  (d < Time.Minute -> timerInterval d = 100 * Time.Millisecond)
  /\ (Time.Minute <= d -> timerInterval d = Time.Second).
Proof.
  unfold timerInterval. destruct (Z.ltb_spec d Time.Minute); split;
    intros; try reflexivity; lia.
Qed.

(** C5. The tick interval requested for a stage of duration d is 100ms
    when d is strictly under one minute and 1s from one minute on (45s and
    59.999s give 100ms, 60s gives 1s); the first countdown takes it from
    the first stage's duration and every Timeout that begins a new stage
    takes it afresh from the new stage's duration. *)
Theorem tick_cadence :
  (forall d, d < Time.Minute -> timerInterval d = millis 100)
  /\ (forall d, Time.Minute <= d -> timerInterval d = seconds 1)
  /\ timerInterval (seconds 45) = millis 100
  /\ timerInterval (millis 59999) = millis 100
  /\ timerInterval (seconds 60) = seconds 1
  /\ (forall fl g now ds m g',
        newModel fl g now ds = Ok (m, g') ->
        exists d, index m.(durations) m.(state) = Ok d
                  /\ m.(timer).(Timer.Timeout) = d
                  /\ m.(timer).(Timer.Interval) = timerInterval d)
  /\ (forall g now m ID m' cmd g',
        Update g now m (TimeoutMsg ID) = Ok (m', cmd, g') ->
        m'.(state) <> m.(state) ->
        exists d, index m'.(durations) m'.(state) = Ok d
                  /\ m'.(timer).(Timer.Timeout) = d
                  /\ m'.(timer).(Timer.Interval) = timerInterval d).
Proof.
  split; [intros d Hd; now apply timerInterval_cases|].
  split; [intros d Hd; now apply timerInterval_cases|].
  do 3 (split; [reflexivity|]).
  split.
  - intros fl g now ds m g'. unfold newModel.
    destruct (index ds 0) as [d|] eqn:Hd; [|discriminate].
    cbn. intros E. injection E as <- _. cbn. eauto.
  - intros g now m ID m' cmd g'. unfold Update.
    destruct (m.(state) =? sub64 (len m.(durations)) 1).
    + intros E. injection E as <- _ _. cbn. congruence.
    + cbn [set_state set_start set_passed durations state].
      destruct (index m.(durations) (add64 m.(state) 1)) as [d|] eqn:Hd;
        [|discriminate].
      cbn. intros E _. injection E as <- _ _. cbn. eauto.
Qed.

End Cadence.

Lemma tick_cadence_witness :
  timerInterval (seconds 59) = millis 100
  /\ timerInterval (seconds 3600) = seconds 1
  /\ (exists d,
       index [seconds 90; seconds 5] 0 = Ok d
       /\ (session [seconds 90; seconds 5]).(timer).(Timer.Interval)
          = timerInterval d)
  /\ exists m' cmd g',
       Update (H := rigidSpring) sessionGlobals 7
         (session [seconds 2; seconds 90]) (TimeoutMsg 1) = Ok (m', cmd, g')
       /\ m'.(timer).(Timer.Timeout) = seconds 90
       /\ m'.(timer).(Timer.Interval) = seconds 1.
Proof.
  destruct (tick_cadence (H := rigidSpring))
    as (Hshort & Hlong & _ & _ & _ & Hnew & Hadv).
  split; [apply Hshort; reflexivity|].
  split; [apply Hlong; discriminate|].
  split.
  - destruct (Hnew noFlags noGlobals 0 [seconds 90; seconds 5] _ _
                (session_new _ _)) as (d & Hd & _ & Hi).
    exists d. split; assumption.
  - eexists _, _, _. split; [reflexivity|].
    edestruct (Hadv sessionGlobals 7 (session [seconds 2; seconds 90]) 1)
      as (d & Hd & Ht & Hi); [reflexivity|cbn; discriminate|].
    cbn in Hd. injection Hd as <-. split; [exact Ht|exact Hi].
Defined.

(* ================================================================== *)
(** ** What one [Update] can change *)

(** Case analysis on a successful [Update]: split on the tests it makes
    until the equation names the resulting model. *)
Ltac split_update H :=
  repeat
    (first
       [ discriminate H
       | match type of H with
         | context [bind ?r _] =>
             let E := fresh "E" in destruct r eqn:E; cbn [bind] in H
         | context [if ?b then _ else _] =>
             let E := fresh "E" in destruct b eqn:E
         | context [let '(_, _) := ?p in _] =>
             let E := fresh "E" in destruct p eqn:E
         end ]).

Section Frame.

Context `{Spring}.

Lemma quit_key_not_interrupt (k : string) :
  Matches k quitKeys = true -> Matches k intKeys = false.
Proof.
  unfold Matches, quitKeys, intKeys. cbn.
  destruct (String.eqb_spec k "esc") as [->|_]; [reflexivity|].
  destruct (String.eqb_spec k "q") as [->|_]; [reflexivity|].
  discriminate.
Qed.

(** One event keeps the stage list, never clears a terminal flag, and
    sets [interrupting] exactly on an interrupt key. *)
Lemma Update_flags (g : Globals) (now : Z) (m : model) (msg : Msg)
  (m' : model) (cmd : Cmd) (g' : Globals) :
  Update g now m msg = Ok (m', cmd, g') ->
  m'.(durations) = m.(durations)
  /\ (m.(quitting) = true -> m'.(quitting) = true)
  /\ m'.(interrupting) = m.(interrupting) || is_interrupt msg.
Proof.
  intros HU. unfold Update in HU.
  destruct msg; split_update HU; injection HU as <- _ _;
    cbn -[Matches];
    try rewrite (quit_key_not_interrupt _ E);
    try rewrite E0;
    rewrite ?orb_false_r, ?orb_true_r; repeat split; auto.
Qed.

End Frame.

Section Terminal.

Context `{Spring}.

(** What a handled Tick event does to the session, whatever its flags. *)
Lemma Update_tick (g : Globals) (now : Z) (m : model) (ID : Z) (to : bool)
  (mtag : Z) (m' : model) (cmd : Cmd) (g' : Globals) :
  Update g now m (TickMsg ID to mtag) = Ok (m', cmd, g') ->
  exists pct,
    percent (set_passed m (add64 m.(passed) m.(timer).(Timer.Interval)))
    = Ok pct
    /\ m' = set_timer
              (set_progress
                 (set_passed m
                    (add64 m.(passed) m.(timer).(Timer.Interval)))
                 (fst (Progress.SetPercent m.(progress) (pct # 100))))
              (fst (Timer.Update m.(timer) (TickMsg ID to mtag)))
    /\ g' = g.
Proof.
  intros HU. unfold Update in HU.
  destruct (percent _) as [pct|] eqn:Hp; [|discriminate].
  exists pct. split; [reflexivity|]. cbn [bind] in HU.
  cbn [Progress.SetPercent set_progress set_passed timer progress] in HU.
  destruct (Timer.Update _ _) as [t c] eqn:Ht.
  injection HU as <- _ <-. split; reflexivity.
Qed.

Lemma handle_flags (evs : list event) :
  forall g m m' g',
    handle g m evs = Ok (m', g') ->
    m'.(durations) = m.(durations)
    /\ (m.(quitting) = true -> m'.(quitting) = true)
    /\ m'.(interrupting)
       = m.(interrupting) || existsb (fun ev => is_interrupt (snd ev)) evs.
Proof.
  induction evs as [|[now msg] evs IH]; intros g m m' g' Hh.
  - injection Hh as <- _. cbn. rewrite orb_false_r. auto.
  - cbn [handle] in Hh.
    destruct (Update g now m msg) as [[[m1 c1] g1]|] eqn:HU;
      [|discriminate].
    cbn [bind fst snd] in Hh.
    destruct (Update_flags _ _ _ _ _ _ _ HU) as (Hd & Hq & Hi).
    destruct (IH _ _ _ _ Hh) as (Hd' & Hq' & Hi').
    cbn [existsb snd]. rewrite Hi', Hi, orb_assoc.
    repeat split; [congruence|auto].
Qed.

(** C2 (amended). A terminal flag is permanent: no sequence of events
    clears [quitting] or [interrupting] once it is set.  A Tick event
    that is handled in a terminal state is handled like any other tick:
    elapsed grows by the countdown's interval (and the progress target is
    recomputed from it), while the flags, the stage index and the stage
    list stay as they are. *)
Theorem terminal_flags_permanent :
  (forall g m evs m' g',
     handle g m evs = Ok (m', g') ->
     (m.(quitting) = true -> m'.(quitting) = true)
     /\ (m.(interrupting) = true -> m'.(interrupting) = true))
  /\ (forall g now m ID to mtag m' cmd g',
        Update g now m (TickMsg ID to mtag) = Ok (m', cmd, g') ->
        m'.(passed) = add64 m.(passed) m.(timer).(Timer.Interval)
        /\ m'.(quitting) = m.(quitting)
        /\ m'.(interrupting) = m.(interrupting)
        /\ m'.(state) = m.(state)
        /\ m'.(durations) = m.(durations)).
Proof.
  split.
  - intros g m evs m' g' Hh.
    destruct (handle_flags _ _ _ _ _ Hh) as (_ & Hq & Hi).
    split; [exact Hq|]. intros Hint. now rewrite Hi, Hint.
  - intros g now m ID to mtag m' cmd g' HU.
    destruct (Update_tick _ _ _ _ _ _ _ _ _ HU) as (pct & _ & -> & _).
    repeat split.
Qed.

End Terminal.

Lemma terminal_flags_permanent_witness :
  finished_session.(quitting) = true
  /\ exists m' g',
       handle (H := rigidSpring) sessionGlobals finished_session
         [(1, TickMsg 1 false 0); (2, KeyMsg "x"); (3, TickMsg 1 false 0)]
       = Ok (m', g')
       /\ m'.(quitting) = true
       /\ m'.(passed) = millis 200.
Proof.
  split; [reflexivity|].
  eexists _, _. split; [reflexivity|].
  split; [|reflexivity].
  refine (proj1 (proj1 (terminal_flags_permanent (H := rigidSpring))
                   sessionGlobals finished_session
                   [(1, TickMsg 1 false 0); (2, KeyMsg "x");
                    (3, TickMsg 1 false 0)] _ _ eq_refl) eq_refl).
Defined.

(** C2 as stated fails: a Tick event handled by a session that has
    completed naturally changes the session (elapsed goes from 0 to
    100ms). *)
Lemma terminal_tick_changes_state :
  ~ (forall (g : Globals) (now : Z) (m : model) (ID : Z) (to : bool)
            (mtag : Z),
       m.(quitting) = true \/ m.(interrupting) = true ->
       exists cmd g',
         Update (H := rigidSpring) g now m (TickMsg ID to mtag)
         = Ok (m, cmd, g')).
Proof.
  intros Hevery.
  destruct (Hevery sessionGlobals 1 finished_session 1 false 0
              (or_introl eq_refl)) as (cmd & g' & HU).
  cbn in HU. discriminate HU.
Qed.

(* ================================================================== *)
(** ** How a run ends *)


Section Exit.

Context `{Spring}.

(** C3. For a run of [RunE] on an accepted argument whose loop stopped
    after handling the events [evs]: if a ctrl+c key was among the events,
    the final session has [interrupting] set, [RunE] returns the error
    "interrupted" and prints nothing, and the process exits with status 1;
    otherwise (natural completion, or a plain quit by esc or q) [RunE]
    prints "<name> finished!" -- only "finished!" when the name is empty --
    returns no error and the process exits with status 0.  A plain quit key
    does to the session exactly what natural completion does: it sets
    [quitting] and returns [tea.Quit]. *)
Theorem exit_behaviour (fl : Flags) (g : Globals) (now : Z) (arg : string)
  (ds : list Time.Duration) (m0 : model) (g0 : Globals) (evs : list event)
  (mf : model) (gf : Globals) :
  parseDurations (splitTimerArgString arg) [] = inr ds ->
  newModel fl g now ds = Ok (m0, g0) ->
  handle g0 m0 evs = Ok (mf, gf) ->
  let r := RunE fl g now (fun m g' => program_result g' m evs) arg in
  (interrupted evs = true ->
     mf.(interrupting) = true
     /\ r = Ok (EmptyString, Some ErrInterrupted)
     /\ exit_status r = 1)
  /\ (interrupted evs = false ->
        mf.(interrupting) = false
        /\ r = Ok (finished_line fl, None)
        /\ exit_status r = 0
        /\ (fl.(flag_name) = EmptyString ->
              finished_line fl = ("finished!" ++ newline)%string)
        /\ (fl.(flag_name) <> EmptyString ->
              finished_line fl
              = (fl.(flag_name) ++ " finished!" ++ newline)%string))
  /\ (forall t msg,
        is_quit msg = true ->
        Update gf t mf msg = Ok (set_quitting mf true, CmdQuit, gf))
  /\ (forall t ID,
        mf.(state) = sub64 (len mf.(durations)) 1 ->
        Update gf t mf (TimeoutMsg ID)
        = Ok (set_quitting mf true, CmdQuit, gf)).
Proof.
  intros Hparse Hnew Hh r.
  assert (Hm0 : m0.(interrupting) = false).
  { unfold newModel in Hnew. destruct (index ds 0); [|discriminate].
    cbn in Hnew. now injection Hnew as <- _. }
  destruct (handle_flags _ _ _ _ _ Hh) as (_ & _ & Hi).
  rewrite Hm0 in Hi. cbn [orb] in Hi. fold (interrupted evs) in Hi.
  assert (Hr : r = Ok (finish fl (inr mf))).
  { unfold r, RunE, program_result. rewrite Hparse, Hnew. cbn [bind fst snd].
    now rewrite Hh. }
  rewrite Hr. clear Hr r. unfold finish. rewrite Hi.
  split; [|split; [|split]].
  - intros ->. repeat split.
  - intros ->. repeat split.
    + intros Hn. unfold finished_line. now rewrite Hn.
    + intros Hn. unfold finished_line.
      destruct (String.eqb_spec fl.(flag_name) EmptyString);
        [contradiction|].
      rewrite string_app_assoc. reflexivity.
  - intros t [] Hq; try discriminate Hq. cbn [is_quit] in Hq.
    unfold Update. now rewrite Hq.
  - intros t ID Hs. unfold Update.
    now rewrite (proj2 (Z.eqb_eq _ _) Hs).
Qed.

End Exit.

Lemma exit_behaviour_witness :
  RunE pomodoro noGlobals 0
    (fun m g =>
       program_result (H := rigidSpring) g m
         [(1, TickMsg 1 false 0); (2, KeyMsg "ctrl+c")]) "2s"
  = Ok (EmptyString, Some ErrInterrupted)
  /\ RunE pomodoro noGlobals 0
       (fun m g =>
          program_result (H := rigidSpring) g m
            [(1, TickMsg 1 false 0); (2, KeyMsg "q")]) "2s"
     = Ok (("pomodoro finished!" ++ newline)%string, None)
  /\ exit_status
       (RunE noFlags noGlobals 0
          (fun m g =>
             program_result (H := rigidSpring) g m
               [(1, TickMsg 1 false 0); (2, TimeoutMsg 1)]) "2")
     = 0.
Proof.
  split; [|split].
  - destruct (exit_behaviour (H := rigidSpring) pomodoro noGlobals 0 "2s"
                [seconds 2] (session_with pomodoro [seconds 2]) sessionGlobals
                [(1, TickMsg 1 false 0); (2, KeyMsg "ctrl+c")] _ _
                eq_refl eq_refl eq_refl) as (Hint & _).
    apply Hint. reflexivity.
  - destruct (exit_behaviour (H := rigidSpring) pomodoro noGlobals 0 "2s"
                [seconds 2] (session_with pomodoro [seconds 2]) sessionGlobals
                [(1, TickMsg 1 false 0); (2, KeyMsg "q")] _ _
                eq_refl eq_refl eq_refl) as (_ & Hfin & _).
    apply Hfin. reflexivity.
  - destruct (exit_behaviour (H := rigidSpring) noFlags noGlobals 0 "2"
                [seconds 2] (session [seconds 2]) sessionGlobals
                [(1, TickMsg 1 false 0); (2, TimeoutMsg 1)] _ _
                eq_refl eq_refl eq_refl) as (_ & Hfin & _).
    apply Hfin. reflexivity.
Defined.

(* ================================================================== *)
(** ** Progress *)

Lemma late_session_reached :
  handle (H := rigidSpring) sessionGlobals (session [millis 250])
    [(1, TickMsg 1 false 0); (2, TickMsg 1 false 0)]
  = Ok (late_session, sessionGlobals).
Proof. reflexivity. Qed.

Lemma Milliseconds_nonneg (d : Time.Duration) :
  0 <= d -> Time.Milliseconds d = d / 1000000 /\ 0 <= Time.Milliseconds d <= d.
Proof.
  intros Hd. unfold Time.Milliseconds.
  rewrite Z.quot_div_nonneg by lia. split; [reflexivity|].
  split; [apply Z.div_pos; lia|].
  apply Z.div_le_upper_bound; lia.
Qed.

(** The whole-percent computation, away from overflow and from stages
    shorter than a millisecond: truncating division is the floor. *)
Lemma percent_floor (m : model) (d : Time.Duration) :
  index m.(durations) m.(state) = Ok d ->
  Time.Millisecond <= d ->
  0 <= m.(passed) <= max_int64 ->
  percent m
  = Ok (Time.Milliseconds m.(passed) * 100 / Time.Milliseconds d)
  /\ 0 <= Time.Milliseconds m.(passed) * 100 / Time.Milliseconds d.
Proof.
  intros Hd Hms Hp. unfold percent. rewrite Hd. cbn [bind].
  unfold Time.Millisecond, Time.Microsecond, Time.Nanosecond in Hms.
  destruct (Milliseconds_nonneg d ltac:(lia)) as [Ed _].
  destruct (Milliseconds_nonneg m.(passed) ltac:(lia)) as [Ep [Hp0 Hp1]].
  assert (Hd1 : 1 <= Time.Milliseconds d).
  { rewrite Ed. apply Z.div_le_lower_bound; lia. }
  assert (Hp2 : Time.Milliseconds m.(passed) <= max_int64 / 1000000).
  { rewrite Ep. apply Z.div_le_mono; lia. }
  unfold max_int64 in *.
  change ((2 ^ 63 - 1) / 1000000) with 9223372036854 in Hp2.
  unfold div64, mul64.
  destruct (Z.eqb_spec (Time.Milliseconds d) 0) as [E0|_]; [lia|].
  rewrite (wrap64_id (Time.Milliseconds m.(passed) * 100))
    by (unfold in_int64, min_int64, max_int64; lia).
  rewrite Z.quot_div_nonneg by lia.
  assert (Hq : 0 <= Time.Milliseconds m.(passed) * 100
                    / Time.Milliseconds d
               <= Time.Milliseconds m.(passed) * 100).
  { split; [apply Z.div_pos; lia|].
    apply Z.div_le_upper_bound; nia. }
  rewrite wrap64_id by (unfold in_int64, min_int64, max_int64; lia).
  split; [reflexivity|lia].
Qed.

(** [math.Max(0, math.Min(1, p))] of a non-negative count of hundredths. *)
Lemma clamp_hundredths (pct : Z) :
  0 <= pct ->
  (Progress.Qmax 0 (Progress.Qmin 1 (pct # 100)) == Z.min 100 pct # 100)%Q
  /\ (0 <= Progress.Qmax 0 (Progress.Qmin 1 (pct # 100)) <= 1)%Q.
Proof.
  intros Hp. unfold Progress.Qmax, Progress.Qmin.
  destruct (Qle_bool 1 (pct # 100)) eqn:E1.
  - apply Qle_bool_iff in E1. unfold Qle in E1. cbn in E1.
    cbn. rewrite Z.min_l by lia. split; [reflexivity|].
    split; unfold Qle; cbn; lia.
  - assert (Hlt : pct < 100).
    { destruct (Z.lt_ge_cases pct 100) as [|Hge]; [assumption|].
      assert (Qle_bool 1 (pct # 100) = true)
        by (apply Qle_bool_iff; unfold Qle; cbn; lia).
      congruence. }
    assert (E0 : Qle_bool 0 (pct # 100) = true)
      by (apply Qle_bool_iff; unfold Qle; cbn; lia).
    rewrite E0, Z.min_r by lia. split; [reflexivity|].
    split; unfold Qle; cbn; lia.
Qed.

Section ProgressTarget.

Context `{Spring}.

(** C4 (amended). For a tick handled on a stage of at least one
    millisecond (elapsed and interval non-negative, their sum an int64):
    with pct = floor(elapsed_ms * 100 / stage_ms) taken after the interval
    is added to elapsed, the fraction handed to the progress bar is
    pct/100 clamped into [0,1], that is min(100, pct)/100.  It is
    exactly pct/100 as long as elapsed does not exceed the stage duration,
    and 100% once it does.  For a 10s stage with 3.27s elapsed the
    percentage is 32. *)
Theorem progress_percent (g : Globals) (now : Z) (m : model) (ID : Z)
  (to : bool) (mtag : Z) (d : Time.Duration) :
  index m.(durations) m.(state) = Ok d ->
  Time.Millisecond <= d ->
  0 <= m.(passed) ->
  0 <= m.(timer).(Timer.Interval) ->
  m.(passed) + m.(timer).(Timer.Interval) <= max_int64 ->
  exists m' cmd,
    Update g now m (TickMsg ID to mtag) = Ok (m', cmd, g)
    /\ m'.(passed) = m.(passed) + m.(timer).(Timer.Interval)
    /\ (let pct := Time.Milliseconds m'.(passed) * 100
                   / Time.Milliseconds d in
        (m'.(progress).(Progress.targetPercent) == Z.min 100 pct # 100)%Q
        /\ (0 <= m'.(progress).(Progress.targetPercent) <= 1)%Q
        /\ (m'.(passed) <= d ->
              pct <= 100
              /\ (m'.(progress).(Progress.targetPercent) == pct # 100)%Q)
        /\ (d < m'.(passed) ->
              (m'.(progress).(Progress.targetPercent) == 1)%Q))
    /\ percent ten_second_stage = Ok 32.
Proof.
  intros Hd Hms Hp Hi Hsum.
  set (p' := m.(passed) + m.(timer).(Timer.Interval)).
  assert (Hadd : add64 m.(passed) m.(timer).(Timer.Interval) = p').
  { unfold add64. apply wrap64_id.
    unfold in_int64, min_int64, max_int64 in *. unfold p'. lia. }
  destruct (percent_floor (set_passed m p') d Hd Hms) as [Hpct Hpct0].
  { cbn [passed set_passed]. unfold p', max_int64 in *. lia. }
  cbn [passed set_passed] in Hpct, Hpct0.
  set (pct := Time.Milliseconds p' * 100 / Time.Milliseconds d) in *.
  destruct (clamp_hundredths pct Hpct0) as [Hclamp Hrange].
  unfold Update. rewrite Hadd, Hpct. cbn [bind].
  cbn [Progress.SetPercent set_progress set_passed timer progress].
  destruct (Timer.Update _ _) as [t c] eqn:Ht.
  eexists _, _. split; [reflexivity|].
  cbn [passed set_timer set_progress set_passed progress
       Progress.targetPercent].
  split; [reflexivity|]. split; [|reflexivity].
  fold pct. split; [exact Hclamp|]. split; [exact Hrange|].
  unfold Time.Millisecond, Time.Microsecond, Time.Nanosecond in Hms.
  assert (Hp'0 : 0 <= p') by (unfold p'; lia).
  destruct (Milliseconds_nonneg d ltac:(lia)) as [Ed _].
  destruct (Milliseconds_nonneg p' Hp'0) as [Ep _].
  assert (Hd1 : 1 <= Time.Milliseconds d).
  { rewrite Ed. apply Z.div_le_lower_bound; lia. }
  split.
  - intros Hle.
    assert (Hms' : Time.Milliseconds p' <= Time.Milliseconds d).
    { rewrite Ep, Ed. apply Z.div_le_mono; lia. }
    assert (Hle100 : pct <= 100).
    { unfold pct. apply Z.div_le_upper_bound; lia. }
    split; [exact Hle100|].
    rewrite Hclamp, Z.min_r by lia. reflexivity.
  - intros Hgt.
    assert (Hms' : Time.Milliseconds d <= Time.Milliseconds p').
    { rewrite Ep, Ed. apply Z.div_le_mono; lia. }
    assert (Hge100 : 100 <= pct).
    { unfold pct. apply Z.div_le_lower_bound; lia. }
    rewrite Hclamp, Z.min_l by lia. reflexivity.
Qed.

End ProgressTarget.

Lemma progress_percent_witness :
  exists m' cmd,
    Update (H := rigidSpring) sessionGlobals 3 late_session (TickMsg 1 false 0)
    = Ok (m', cmd, sessionGlobals)
    /\ m'.(passed) = millis 300
    /\ (m'.(progress).(Progress.targetPercent) == 1)%Q.
Proof.
  destruct (progress_percent (H := rigidSpring) sessionGlobals 3 late_session
              1 false 0 (millis 250))
    as (m' & cmd & HU & Hp & (_ & _ & _ & Hover) & _).
  - reflexivity.
  - discriminate.
  - discriminate.
  - discriminate.
  - discriminate.
  - exists m', cmd. split; [exact HU|]. split; [exact Hp|].
    apply Hover. rewrite Hp. reflexivity.
Defined.

(** C4 as stated fails: on the third tick of a 250ms stage the session is
    still running, floor(300 * 100 / 250) is 120, and the progress bar is
    handed 1 (100%), not 120/100. *)
Lemma progress_percent_counterexample :
  ~ (forall (g : Globals) (now : Z) (m : model) (ID : Z) (to : bool)
            (mtag : Z) (m' : model) (cmd : Cmd) (g' : Globals)
            (d : Time.Duration),
       m.(quitting) = false -> m.(interrupting) = false ->
       Update (H := rigidSpring) g now m (TickMsg ID to mtag)
       = Ok (m', cmd, g') ->
       index m'.(durations) m'.(state) = Ok d ->
       (m'.(progress).(Progress.targetPercent)
        == Time.Milliseconds m'.(passed) * 100 / Time.Milliseconds d # 100)%Q).
Proof.
  intros Hevery.
  specialize (Hevery sessionGlobals 3 late_session 1 false 0 _ _ _
                (millis 250) eq_refl eq_refl eq_refl eq_refl).
  cbn in Hevery. discriminate Hevery.
Qed.

(* ================================================================== *)
(** ** Stages shorter than a millisecond *)

Section ShortStage.

Context `{Spring}.

(** A tick on a stage whose duration is under one millisecond in absolute
    value divides by zero, whatever else the session holds. *)
Lemma short_stage_tick_panics (g : Globals) (now : Z) (m : model) (ID : Z)
  (to : bool) (mtag : Z) (d : Time.Duration) :
  index m.(durations) m.(state) = Ok d ->
  - Time.Millisecond < d < Time.Millisecond ->
  Update g now m (TickMsg ID to mtag) = Panic IntegerDivideByZero.
Proof.
  intros Hd Hsmall. unfold Update, percent.
  cbn [set_passed durations state]. rewrite Hd. cbn [bind].
  assert (E : Time.Milliseconds d = 0).
  { unfold Time.Milliseconds.
    unfold Time.Millisecond, Time.Microsecond, Time.Nanosecond in Hsmall.
    apply Z.quot_small_iff; [lia|]. apply Z.abs_lt. lia. }
  unfold div64. rewrite E. reflexivity.
Qed.

End ShortStage.

(** C9. The argument "0" is accepted and parsed to the one-stage list [0];
    the session built for it starts with a tick command, and handling that
    tick panics with an integer division by zero.  The loop then stops with
    an error and the process exits with status 1. *)
Theorem zero_stage_tick_panics :
  parseDurations (splitTimerArgString "0") [] = inr [0]
  /\ newModel noFlags noGlobals 0 [0] = Ok (session [0], sessionGlobals)
  /\ delivers (Init (session [0])) = [TickMsg 1 true 0]
  /\ Update (H := rigidSpring) sessionGlobals 1 (session [0])
       (TickMsg 1 true 0)
     = Panic IntegerDivideByZero
  /\ exit_status
       (RunE noFlags noGlobals 0
          (fun m g =>
             program_result (H := rigidSpring) g m [(1, TickMsg 1 true 0)])
          "0")
     = 1.
Proof. repeat split; vm_compute; reflexivity. Qed.

(* ================================================================== *)
(** ** Elapsed time and the countdown *)

Lemma timerInterval_bounds (d : Time.Duration) :
  0 < timerInterval d <= Time.Second.
Proof.
  unfold timerInterval. destruct (d <? Time.Minute); cbn; lia.
Qed.


Lemma index_In {A : Type} (s : list A) (i : Z) (a : A) :
  index s i = Ok a -> In a s.
Proof.
  unfold index. destruct (i <? 0); [discriminate|].
  destruct (nth_error s (Z.to_nat i)) eqn:N; [|discriminate].
  intros E. injection E as <-. eapply nth_error_In; eassumption.
Qed.

(** A counted tick takes one interval off the countdown. *)
Lemma counted_tick (t : Timer.Model) (ID : Z) (to : bool) (mtag : Z) :
  counted t (TickMsg ID to mtag) = true ->
  0 < t.(Timer.Timeout)
  /\ fst (Timer.Update t (TickMsg ID to mtag))
     = Timer.mkModel (sub64 t.(Timer.Timeout) t.(Timer.Interval))
         t.(Timer.Interval) t.(Timer.id) t.(Timer.tag) t.(Timer.running).
Proof.
  unfold counted. intros Hc.
  apply andb_prop in Hc as [Hc Htag]. apply andb_prop in Hc as [Hrun Hid].
  split.
  - unfold Timer.Running, Timer.Timedout in Hrun.
    destruct (Z.leb_spec t.(Timer.Timeout) 0); [discriminate|lia].
  - unfold Timer.Update. rewrite Hrun.
    apply negb_true_iff in Hid, Htag. rewrite Hid, Htag. reflexivity.
Qed.

Section Elapsed.

Context `{Spring}.




End Elapsed.





(* ================================================================== *)
(** ** Bare numbers and unit suffixes *)


Module FloatSyntax.

Import Strconv.

Lemma cpl_le (s p : string) :
  (commonPrefixLenIgnoreCase s p <= String.length s)%nat.
Proof.
  revert p. induction s as [|c s IH]; intros [|q p]; cbn; try lia.
  destruct (_ =? code q); [|lia]. specialize (IH p). lia.
Qed.

(** A byte that matches, ignoring case, a letter of "infinity" or "nan"
    is a float byte. *)
Lemma fold_case_float_byte (c q : ascii) :
  word_letter q = true ->
  ((if between 65 c 90 then code c + 32 else code c) =? code q) = true ->
  float_byte c = true.
Proof.
  destruct c as [b0 b1 b2 b3 b4 b5 b6 b7].
  unfold word_letter, is_byte. intros Hq Hm.
  apply Z.eqb_eq in Hm.
  repeat (apply orb_prop in Hq as [Hq|Hq]);
    apply Z.eqb_eq in Hq; rewrite Hq in Hm; clear Hq;
    destruct b0, b1, b2, b3, b4, b5, b6, b7; try discriminate Hm;
    reflexivity.
Qed.

Lemma cpl_whole (s p : string) :
  all word_letter p = true ->
  commonPrefixLenIgnoreCase s p = String.length s ->
  all float_byte s = true.
Proof.
  revert p. induction s as [|c s IH]; intros p Hp Hn; [reflexivity|].
  destruct p as [|q p]; [discriminate Hn|].
  cbn in Hp, Hn. apply andb_prop in Hp as [Hq Hp].
  destruct (_ =? code q) eqn:E; [|discriminate Hn].
  injection Hn as Hn. cbn.
  rewrite (fold_case_float_byte c q Hq E), (IH p Hp Hn). reflexivity.
Qed.

Lemma infinity_prefix_whole (s : string) (nsign : nat) (n : nat) :
  infinity_prefix s nsign = Some n ->
  n = (nsign + String.length s)%nat ->
  all float_byte s = true.
Proof.
  unfold infinity_prefix. intros Hs Hn.
  pose proof (cpl_le s "infinity") as Hle.
  apply (cpl_whole s "infinity"); [reflexivity|].
  destruct ((3 <? _)%nat && (_ <? 8)%nat) eqn:Hmid.
  - cbn in Hs. injection Hs as <-.
    apply andb_prop in Hmid as [H3 _]. apply Nat.ltb_lt in H3. lia.
  - destruct ((_ =? 3)%nat || (_ =? 8)%nat); [|discriminate Hs].
    injection Hs as <-. lia.
Qed.

Lemma special_whole (s : string) (n : nat) :
  special s = Some n -> n = String.length s -> all float_byte s = true.
Proof.
  destruct s as [|c s]; [discriminate|]. unfold special.
  destruct (is_byte c 43 || is_byte c 45) eqn:Hsign.
  - intros Hs Hn. cbn [all].
    assert (Hc : float_byte c = true).
    { unfold float_byte. apply orb_prop in Hsign as [-> | ->];
        cbn; rewrite ?orb_true_r; reflexivity. }
    rewrite Hc. cbn [andb].
    apply (infinity_prefix_whole s 1 n Hs). cbn in Hn. lia.
  - destruct (is_byte c 105 || is_byte c 73).
    + intros Hs Hn. apply (infinity_prefix_whole _ 0 n Hs). cbn in *. lia.
    + destruct (is_byte c 110 || is_byte c 78); [|discriminate].
      destruct (_ =? 3)%nat eqn:E; [|discriminate].
      intros Hs Hn. injection Hs as <-. apply Nat.eqb_eq in E.
      apply (cpl_whole _ "nan"); [reflexivity|]. congruence.
Qed.

Lemma digit_float_byte (c : ascii) : is_digit c = true -> float_byte c = true.
Proof.
  intros Hd. unfold float_byte. rewrite Hd, ?orb_true_r. reflexivity.
Qed.

Lemma hexdigit_float_byte (c : ascii) :
  (97 <=? lower c) && (lower c <=? 102) = true -> float_byte c = true.
Proof.
  intros Hd. unfold float_byte. rewrite Hd, ?orb_true_r. reflexivity.
Qed.

Lemma is_byte_float_byte (c : ascii) (k : Z) :
  is_byte c k = true -> In k [43; 45; 46; 95] -> float_byte c = true.
Proof.
  intros Hc Hk. unfold float_byte. cbn in Hk.
  destruct Hk as [<-|[<-|[<-|[<-|[]]]]]; rewrite Hc, ?orb_true_r;
    reflexivity.
Qed.

(** Every byte the digit loop consumes is a float byte. *)
Lemma digits_bytes (hx : bool) (s : string) :
  forall st st' rest,
    digits hx st s = (st', rest) ->
    all float_byte s = all float_byte rest.
Proof.
  induction s as [|c s IH]; intros st st' rest Hd.
  - cbn in Hd. now injection Hd as _ <-.
  - cbn [digits] in Hd. cbn [all].
    destruct (is_byte c 95) eqn:E95.
    { rewrite (is_byte_float_byte c 95 E95) by (cbn; auto).
      eapply IH; eassumption. }
    destruct (is_byte c 46) eqn:E46.
    { destruct st.(sawdot).
      - now injection Hd as _ <-.
      - rewrite (is_byte_float_byte c 46 E46) by (cbn; auto).
        eapply IH; eassumption. }
    destruct (is_digit c) eqn:Edig.
    { rewrite (digit_float_byte c Edig). cbn [andb].
      destruct (is_byte c 48 && (st.(nd) =? 0));
        [|destruct (st.(ndMant) <? _)]; eapply IH; eassumption. }
    destruct (hx && (97 <=? lower c) && (lower c <=? 102)) eqn:Ehex.
    { rewrite <- andb_assoc in Ehex. apply andb_prop in Ehex as [_ Ehex].
      rewrite (hexdigit_float_byte c Ehex). cbn [andb].
      destruct (st.(ndMant) <? _); eapply IH; eassumption. }
    now injection Hd as _ <-.
Qed.

Lemma exp_digits_bytes (s : string) :
  forall e us e' us' rest,
    exp_digits e us s = (e', us', rest) ->
    all float_byte s = all float_byte rest.
Proof.
  induction s as [|c s IH]; intros e us e' us' rest Hd.
  - cbn in Hd. now injection Hd as _ _ <-.
  - cbn [exp_digits] in Hd. cbn [all].
    destruct (is_byte c 95) eqn:E95.
    { rewrite (is_byte_float_byte c 95 E95) by (cbn; auto).
      eapply IH; eassumption. }
    destruct (is_digit c) eqn:Edig.
    { rewrite (digit_float_byte c Edig). eapply IH; eassumption. }
    now injection Hd as _ _ <-.
Qed.

Lemma lower_float_byte (c : ascii) (k : Z) :
  (lower c =? k) = true -> In k [120; 112; 101] -> float_byte c = true.
Proof.
  intros Hc Hk. apply Z.eqb_eq in Hc. unfold float_byte. rewrite Hc.
  cbn in Hk. destruct Hk as [<-|[<-|[<-|[]]]]; cbn;
    rewrite ?orb_true_r; reflexivity.
Qed.

Lemma readFloat_bytes (s : string) (r : number) :
  readFloat s = Some r -> all float_byte s = all float_byte r.(rest).
Proof.
  destruct s as [|c s1]; [discriminate|]. unfold readFloat.
  set (s := String c s1).
  set (body := if is_byte c 43 || is_byte c 45 then s1 else s).
  assert (Hbody : all float_byte s = all float_byte body).
  { unfold body, s. destruct (is_byte c 43 || is_byte c 45) eqn:Hs;
      [|reflexivity].
    cbn [all]. apply orb_prop in Hs as [Hs|Hs];
      [rewrite (is_byte_float_byte c 43 Hs) by (cbn; auto)
      |rewrite (is_byte_float_byte c 45 Hs) by (cbn; auto)]; reflexivity. }
  rewrite Hbody. clearbody body. clear Hbody.
  set (pre := match body with
              | String c0 (String c1 (String c2 t)) =>
                  if is_byte c0 48 && (lower c1 =? 120)
                  then (true, String c2 t) else (false, body)
              | _ => (false, body)
              end).
  assert (Hpre : all float_byte body = all float_byte (snd pre)).
  { unfold pre. destruct body as [|c0 [|c1 [|c2 t]]]; try reflexivity.
    destruct (is_byte c0 48 && (lower c1 =? 120)) eqn:Hx; [|reflexivity].
    apply andb_prop in Hx as [H0 Hx]. cbn [snd all].
    assert (Hd0 : is_digit c0 = true).
    { unfold is_byte in H0. apply Z.eqb_eq in H0.
      unfold is_digit, between. rewrite H0. reflexivity. }
    rewrite (digit_float_byte c0 Hd0).
    rewrite (lower_float_byte c1 120 Hx) by (cbn; auto). reflexivity. }
  rewrite Hpre. destruct pre as [hx body']. cbn [snd]. clear Hpre.
  destruct (digits hx scan0 body') as [st s2] eqn:Hdig.
  rewrite (digits_bytes _ _ _ _ _ Hdig).
  destruct (negb st.(sawdigits)); [discriminate|].
  destruct s2 as [|ce s3].
  - destruct hx; [discriminate|].
    destruct (_ && _); [discriminate|].
    intros E. injection E as <-. reflexivity.
  - destruct (lower ce =? (if hx then 112 else 101)) eqn:Hexp.
    + assert (Hce : float_byte ce = true).
      { destruct hx; [apply (lower_float_byte ce 112 Hexp)
                     |apply (lower_float_byte ce 101 Hexp)]; cbn; auto. }
      cbn [all]. rewrite Hce. cbn [andb].
      destruct s3 as [|cs s4]; [discriminate|].
      set (sg := if is_byte cs 43 then (1, s4)
                 else if is_byte cs 45 then (-1, s4)
                 else (1, String cs s4)).
      assert (Hsg : all float_byte (String cs s4)
                    = all float_byte (snd sg)).
      { unfold sg. destruct (is_byte cs 43) eqn:Hp.
        - cbn [all snd].
          now rewrite (is_byte_float_byte cs 43 Hp) by (cbn; auto).
        - destruct (is_byte cs 45) eqn:Hm; [|reflexivity].
          cbn [all snd].
          now rewrite (is_byte_float_byte cs 45 Hm) by (cbn; auto). }
      rewrite Hsg. destruct sg as [esign s5]. cbn [snd].
      destruct s5 as [|cd s5']; [discriminate|].
      destruct (negb (is_digit cd)); [discriminate|].
      destruct (exp_digits 0 st.(underscores) (String cd s5'))
        as [[e us] s6] eqn:Hed.
      rewrite (exp_digits_bytes _ _ _ _ _ _ Hed).
      destruct (_ && _); [discriminate|].
      intros E. injection E as <-. reflexivity.
    + destruct hx; [discriminate|].
      destruct (_ && _); [discriminate|].
      intros E. injection E as <-. reflexivity.
Qed.

(** A string [ParseFloat] accepts is made of float bytes only. *)
Lemma ParseFloat_ok_bytes (s : string) :
  ParseFloat_ok s = true -> all float_byte s = true.
Proof.
  unfold ParseFloat_ok.
  destruct (special s) as [n|] eqn:Hsp.
  - intros Hn. apply Nat.eqb_eq in Hn. eapply special_whole; eassumption.
  - destruct (readFloat s) as [r|] eqn:Hr; [|discriminate].
    intros Hok. apply andb_prop in Hok as [Hrest _].
    apply Nat.eqb_eq in Hrest.
    rewrite (readFloat_bytes _ _ Hr).
    destruct r.(rest); [reflexivity|discriminate Hrest].
Qed.

End FloatSyntax.

Module PlainNumbers.

Import Strconv.

(** A digit or the point is none of the other bytes the parsers test. *)
Lemma plain_byte (c : ascii) :
  is_digit c || is_byte c 46 = true ->
  is_byte c 95 = false /\ is_byte c 43 = false /\ is_byte c 45 = false
  /\ is_byte c 105 = false /\ is_byte c 73 = false
  /\ is_byte c 110 = false /\ is_byte c 78 = false
  /\ (lower c =? 120) = false.
Proof.
  destruct c as [b0 b1 b2 b3 b4 b5 b6 b7].
  destruct b0, b1, b2, b3, b4, b5, b6, b7; intros Hc;
    try discriminate Hc; repeat split; reflexivity.
Qed.

Lemma digit_not_point (c : ascii) : is_digit c = true -> is_byte c 46 = false.
Proof.
  unfold is_digit, between, is_byte. intros Hc.
  apply andb_prop in Hc as [Hlo _]. apply Z.leb_le in Hlo.
  apply Z.eqb_neq. lia.
Qed.

Lemma plain_head (seen_dot seen_digit : bool) (c : ascii) (s : string) :
  plain_number_from seen_dot seen_digit (String c s) = true ->
  is_digit c || is_byte c 46 = true.
Proof.
  cbn. destruct (is_digit c); [reflexivity|].
  destruct (is_byte c 46); [reflexivity|discriminate].
Qed.

Lemma plain_tail (seen_dot seen_digit : bool) (c : ascii) (s : string) :
  plain_number_from seen_dot seen_digit (String c s) = true ->
  exists sd sg, plain_number_from sd sg s = true.
Proof.
  change (plain_number_from seen_dot seen_digit (String c s))
    with (if is_digit c then plain_number_from seen_dot true s
          else if is_byte c 46 && negb seen_dot
               then plain_number_from true seen_digit s else false).
  destruct (is_digit c); [eauto|].
  destruct (is_byte c 46 && negb seen_dot); [eauto|discriminate].
Qed.

(** The digit loop of [readFloat] reads a plain number to its end. *)
Lemma digits_plain (s : string) :
  forall st,
    plain_number_from st.(sawdot) st.(sawdigits) s = true ->
    exists st',
      digits false st s = (st', EmptyString)
      /\ st'.(sawdigits) = true /\ st'.(underscores) = st.(underscores).
Proof.
  induction s as [|c s IH]; intros st Hp.
  - cbn in Hp. exists st. cbn. auto.
  - destruct (plain_byte c (plain_head _ _ _ _ Hp)) as (H95 & _).
    cbn [plain_number_from] in Hp. cbn [digits]. rewrite H95.
    destruct (is_digit c) eqn:Hd.
    + rewrite (digit_not_point c Hd).
      destruct (is_byte c 48 && (st.(nd) =? 0));
        [|destruct (st.(ndMant) <? 19)];
        (edestruct IH as (st' & E & Hs & Hu); [|exists st'; eauto]);
        exact Hp.
    + destruct (is_byte c 46) eqn:H46; [|discriminate Hp].
      destruct st.(sawdot) eqn:Hdot; [discriminate Hp|].
      cbn [andb negb] in Hp.
      edestruct IH as (st' & E & Hs & Hu); [|exists st'; eauto].
      exact Hp.
Qed.

Lemma digit_value (c : ascii) : is_digit c = true -> 0 <= code c - 48 <= 9.
Proof.
  unfold is_digit, between. intros Hc. apply andb_prop in Hc as [Hlo Hhi].
  apply Z.leb_le in Hlo, Hhi. lia.
Qed.

(** [d.set] reads a plain number of at most 300 bytes to its end. *)
Lemma set_digits_plain (s : string) :
  forall b k,
    plain_number_from b.(dsawdot) b.(dsawdigits) s = true ->
    dec_ok b k ->
    k + Z.of_nat (String.length s) <= 300 ->
    exists b',
      set_digits b s = (b', EmptyString)
      /\ b'.(dsawdigits) = true
      /\ dec_ok b' (k + Z.of_nat (String.length s)).
Proof.
  induction s as [|c s IH]; intros b k Hp (Hnd & Hdd & Hdp) Hlen.
  - cbn in Hp. exists b. cbn. rewrite Z.add_0_r.
    repeat split; try assumption; lia.
  - destruct (plain_byte c (plain_head _ _ _ _ Hp)) as (H95 & _).
    cbn [plain_number_from] in Hp. cbn [set_digits]. rewrite H95.
    cbn [String.length] in Hlen |- *.
    replace (k + Z.of_nat (S (String.length s)))
      with (k + 1 + Z.of_nat (String.length s)) in * by lia.
    destruct (is_digit c) eqn:Hd.
    + rewrite (digit_not_point c Hd).
      pose proof (digit_value c Hd) as Hv.
      destruct (is_byte c 48 && (b.(dnd) =? 0)).
      * apply IH; [exact Hp| |lia].
        unfold dec_ok. cbn. repeat split; lia.
      * destruct (Z.ltb_spec b.(dnd) 800) as [_|Hbig]; [|lia].
        apply IH; [exact Hp| |lia].
        unfold dec_ok. cbn.
        assert (Hpow : 10 ^ (b.(dnd) + 1) = 10 * 10 ^ b.(dnd))
          by (rewrite Z.pow_add_r by lia; lia).
        rewrite Hpow. repeat split; lia.
    + destruct (is_byte c 46) eqn:H46; [|discriminate Hp].
      destruct b.(dsawdot) eqn:Hdot; [discriminate Hp|].
      cbn [andb negb] in Hp.
      apply IH; [exact Hp| |lia].
      unfold dec_ok. cbn. repeat split; lia.
Qed.

Lemma float64_above_10_300 : 10 ^ 300 < 2 ^ 1024 - 2 ^ 970.
Proof. apply Z.ltb_lt. vm_compute. reflexivity. Qed.

(** A decimal of at most 300 digits with its point at most 300 places
    away is in the range of [float64]. *)
Lemma decimal_in_range (b : decimal) (k : Z) :
  dec_ok b k -> k <= 300 -> decimal_overflows b = false.
Proof.
  intros (Hnd & Hdd & Hdp) Hk. unfold decimal_overflows.
  destruct (b.(dnd) =? 0); [reflexivity|].
  destruct (Z.ltb_spec 310 b.(ddp)); [lia|].
  destruct (Z.ltb_spec b.(ddp) (-330)); [lia|].
  pose proof float64_above_10_300 as Ht.
  set (t := 2 ^ 1024 - 2 ^ 970) in *.
  assert (Hpow : 10 ^ b.(dnd) <= 10 ^ 300)
    by (apply Z.pow_le_mono_r; lia).
  destruct (Z.leb_spec 0 (b.(ddp) - b.(dnd))) as [He|He].
  - replace (b.(ddp) - b.(dnd)) with 0 by lia.
    apply Z.leb_gt. rewrite Z.pow_0_r. lia.
  - apply Z.leb_gt.
    set (e := - (b.(ddp) - b.(dnd))). assert (0 < e) by (unfold e; lia).
    assert (Hbound : 10 ^ b.(dnd) <= t * 10 ^ e).
    { destruct (Z.le_gt_cases b.(ddp) 0) as [Hneg|Hposi].
      - assert (10 ^ b.(dnd) <= 10 ^ e)
          by (apply Z.pow_le_mono_r; unfold e; lia).
        assert (0 < 10 ^ e) by (apply Z.pow_pos_nonneg; lia).
        nia.
      - replace b.(dnd) with (b.(ddp) + e) at 1 by (unfold e; lia).
        rewrite Z.pow_add_r by lia.
        assert (10 ^ b.(ddp) <= 10 ^ 300)
          by (apply Z.pow_le_mono_r; lia).
        assert (0 < 10 ^ e) by (apply Z.pow_pos_nonneg; lia).
        nia. }
    lia.
Qed.

(** [ParseFloat] accepts every plain integer or decimal of at most 300
    bytes. *)
Lemma plain_number_no_prefix (s : string) :
  plain_number s = true ->
  match s with
  | String c0 (String c1 (String c2 t)) =>
      if is_byte c0 48 && (lower c1 =? 120)
      then (true, String c2 t) else (false, s)
  | _ => (false, s)
  end = (false, s).
Proof.
  intros Hp. destruct s as [|c [|c1 [|c2 t]]]; try reflexivity.
  assert (Hc1 : is_digit c1 || is_byte c1 46 = true).
  { destruct (plain_tail _ _ _ _ Hp) as (sd & sg & Ht).
    exact (plain_head _ _ _ _ Ht). }
  destruct (plain_byte c1 Hc1) as (_ & _ & _ & _ & _ & _ & _ & Hx).
  now rewrite Hx, andb_false_r.
Qed.

Lemma readFloat_plain (s : string) :
  plain_number s = true ->
  exists r,
    readFloat s = Some r /\ r.(rest) = EmptyString /\ r.(hex) = false
    /\ r.(consumed) = s.
Proof.
  intros Hp. destruct s as [|c s1]; [discriminate Hp|].
  destruct (plain_byte c (plain_head _ _ _ _ Hp)) as (_ & H43 & H45 & _).
  pose proof (plain_number_no_prefix _ Hp) as Hpre.
  destruct (digits_plain _ scan0 Hp) as (st & Hd & Hs & Hu).
  unfold readFloat. rewrite H43, H45. cbn [orb]. rewrite Hpre, Hd, Hs.
  cbn [negb]. cbn in Hu. rewrite Hu. cbn [andb].
  eexists. split; [reflexivity|]. cbn [rest hex consumed].
  repeat split.
  change (String.length EmptyString) with O. rewrite Nat.sub_0_r.
  apply substring_whole.
Qed.

Lemma decimal_set_plain (s : string) :
  plain_number s = true -> (String.length s <= 300)%nat ->
  exists b, decimal_set s = Some b /\ dec_ok b 300.
Proof.
  intros Hp Hlen. destruct s as [|c s1]; [discriminate Hp|].
  destruct (plain_byte c (plain_head _ _ _ _ Hp)) as (_ & H43 & H45 & _).
  destruct (set_digits_plain _ (mkDecimal 0 0 0 false false) 0 Hp)
    as (b & Hb & Hsd & Hok).
  { unfold dec_ok. cbn. lia. }
  { lia. }
  assert (Hok' : dec_ok b 300).
  { destruct Hok as (Ha & Hb' & Hc). unfold dec_ok. repeat split; lia. }
  unfold decimal_set. rewrite H43, H45. cbn [orb]. rewrite Hb, Hsd.
  cbn [negb].
  destruct b.(dsawdot) eqn:Hdot.
  - exists b. split; [reflexivity|exact Hok'].
  - eexists. split; [reflexivity|].
    destruct Hok' as (Ha & Hb' & Hc). unfold dec_ok. cbn.
    repeat split; lia.
Qed.

(** [ParseFloat] accepts every plain integer or decimal of at most 300
    bytes. *)
Lemma plain_number_accepted (s : string) :
  plain_number s = true -> (String.length s <= 300)%nat ->
  ParseFloat_ok s = true.
Proof.
  intros Hp Hlen.
  assert (Hsp : special s = None).
  { destruct s as [|c s1]; [reflexivity|].
    destruct (plain_byte c (plain_head _ _ _ _ Hp))
      as (_ & H43 & H45 & H105 & H73 & H110 & H78 & _).
    unfold special. now rewrite H43, H45, H105, H73, H110, H78. }
  destruct (readFloat_plain s Hp) as (r & Hr & Hrest & Hhex & Hcons).
  destruct (decimal_set_plain s Hp Hlen) as (b & Hb & Hok).
  unfold ParseFloat_ok. rewrite Hsp, Hr, Hrest.
  unfold atof64_fails. rewrite Hhex, Hcons, Hb.
  now rewrite (decimal_in_range b 300 Hok).
Qed.

End PlainNumbers.

(** No unit name is made of float bytes only: each ends in s, m or h. *)
Lemma unit_not_float (u : string) :
  In u unit_names -> all float_byte u = false.
Proof.
  unfold unit_names. cbn.
  intros [<-|[<-|[<-|[<-|[<-|[<-|[<-|[<-|[]]]]]]]]]; reflexivity.
Qed.

(** C8. A token that [ParseFloat] accepts -- a bare number -- gets the
    default unit "s" appended before it is parsed as a duration; every
    plain integer or decimal (digits with at most one point, up to 300
    bytes) is such a token, so "5" (like "1.5" or ".5") is parsed as the
    same duration as its spelling with "s".  A token that ends in one of
    the units of the duration grammar (ns, us, the two spellings of
    microseconds, ms, s, m, h) is never accepted by [ParseFloat] and is
    passed through unchanged. *)
Theorem bare_number_gets_seconds :
  (forall tok,
     Strconv.ParseFloat_ok tok = true ->
     addSuffixIfArgIsNumber tok "s" = (tok ++ "s")%string)
  /\ (forall tok,
        plain_number tok = true -> (String.length tok <= 300)%nat ->
        addSuffixIfArgIsNumber tok "s" = (tok ++ "s")%string)
  /\ (forall tok,
        Strconv.ParseFloat_ok tok = false ->
        addSuffixIfArgIsNumber tok "s" = tok)
  /\ (forall pre u,
        In u unit_names ->
        Strconv.ParseFloat_ok (pre ++ u) = false
        /\ addSuffixIfArgIsNumber (pre ++ u) "s" = (pre ++ u)%string)
  /\ Strconv.ParseFloat_ok "5" = true
  /\ Time.ParseDuration (addSuffixIfArgIsNumber "5" "s") = inr (seconds 5)
  /\ Time.ParseDuration (addSuffixIfArgIsNumber "5s" "s") = inr (seconds 5)
  /\ parseDurations ["5"%string] [] = parseDurations ["5s"%string] []
  /\ map (fun tok => addSuffixIfArgIsNumber tok "s")
       ["10"; "1.5"; ".5"; "5m"; "1h30m"; "250ms"; "abc"]%string
     = ["10s"; "1.5s"; ".5s"; "5m"; "1h30m"; "250ms"; "abc"]%string.
Proof.
  split; [intros tok Hok; unfold addSuffixIfArgIsNumber; now rewrite Hok|].
  split.
  { intros tok Hp Hlen. unfold addSuffixIfArgIsNumber.
    now rewrite (PlainNumbers.plain_number_accepted tok Hp Hlen). }
  split; [intros tok Hok; unfold addSuffixIfArgIsNumber; now rewrite Hok|].
  split; [|repeat split; vm_compute; reflexivity].
  intros pre u Hu.
  assert (Hno : Strconv.ParseFloat_ok (pre ++ u) = false).
  { destruct (Strconv.ParseFloat_ok (pre ++ u)) eqn:Hok; [|reflexivity].
    apply FloatSyntax.ParseFloat_ok_bytes in Hok.
    rewrite all_app, (unit_not_float u Hu), andb_false_r in Hok.
    discriminate Hok. }
  split; [exact Hno|]. unfold addSuffixIfArgIsNumber. now rewrite Hno.
Qed.

Lemma bare_number_gets_seconds_witness :
  addSuffixIfArgIsNumber "90" "s" = "90s"%string
  /\ addSuffixIfArgIsNumber "2.5" "s" = "2.5s"%string
  /\ addSuffixIfArgIsNumber "x" "s" = "x"%string
  /\ addSuffixIfArgIsNumber "25m" "s" = "25m"%string.
Proof.
  destruct bare_number_gets_seconds as (Happ & Hplain & Hkeep & Hunit & _).
  split; [apply (Happ "90"%string); reflexivity|].
  split; [apply (Hplain "2.5"%string); [reflexivity|cbn; lia]|].
  split; [apply (Hkeep "x"%string); reflexivity|].
  apply (Hunit "25"%string "m"%string). unfold unit_names. cbn. tauto.
Defined.

(* ================================================================== *)
(** ** Tokens *)

Module Tokens.

Import Regexp.
Local Open Scope string_scope.

Lemma not_sep_nonspace (c : ascii) : not_sep c = true -> perl_space c = false.
Proof.
  unfold not_sep, sep_class. intros Hc. apply negb_true_iff in Hc.
  apply orb_false_iff in Hc as [Hc _]. now apply orb_false_iff in Hc.
Qed.

Lemma punct_sep (c : ascii) :
  punct c = true -> sep_class c = true /\ perl_space c = false.
Proof.
  unfold punct, sep_class, perl_space, is_byte.
  intros Hc. apply orb_prop in Hc as [Hc|Hc]; apply Z.eqb_eq in Hc;
    rewrite Hc; split; reflexivity.
Qed.

Lemma all_starts_token (b : string) :
  all not_sep b = true -> starts_token b = true.
Proof.
  destruct b as [|c b]; cbn; [reflexivity|].
  intros Hb. now apply andb_prop in Hb.
Qed.

Lemma starts_token_nonspace (b : string) :
  starts_token b = true -> starts_nonspace b = true.
Proof.
  destruct b as [|c b]; cbn; [reflexivity|].
  intros Hc. now rewrite (not_sep_nonspace c Hc).
Qed.

(** The separator pattern matches nothing at a byte of a token. *)
Lemma no_match_in_token (s : string) :
  s <> EmptyString -> starts_token s = true -> match_here TIMER_ARG_SEP s = None.
Proof.
  destruct s as [|c s]; [congruence|]. intros _ Hc. cbn in Hc.
  cbn. rewrite (not_sep_nonspace c Hc).
  unfold not_sep in Hc. apply negb_true_iff in Hc. now rewrite Hc.
Qed.

(** A greedy [\s*] in front of white space [w] that ends at a byte which
    is no white space takes all of [w] when the rest of the pattern then
    matches. *)
Lemma star_takes_all (k : string -> option nat) (w rest : string) (n : nat) :
  all perl_space w = true ->
  starts_nonspace rest = true ->
  k rest = Some n ->
  star perl_space k (w ++ rest) = Some (String.length w + n)%nat.
Proof.
  intros Hw Hrest Hk. induction w as [|x w IH].
  - cbn. destruct rest as [|c rest]; cbn; [exact Hk|].
    cbn in Hrest. apply negb_true_iff in Hrest. now rewrite Hrest.
  - cbn in Hw. apply andb_prop in Hw as [Hx Hw].
    cbn. rewrite Hx, (IH Hw). reflexivity.
Qed.

(** White space, one comma or hyphen, white space. *)
Lemma match_punct (w1 w2 b : string) (c : ascii) :
  all perl_space w1 = true -> punct c = true ->
  all perl_space w2 = true -> starts_nonspace b = true ->
  match_here TIMER_ARG_SEP (w1 ++ String c (w2 ++ b))
  = Some (String.length w1 + S (String.length w2))%nat.
Proof.
  intros Hw1 Hc Hw2 Hb. destruct (punct_sep c Hc) as [Hsep Hns].
  cbn [match_here TIMER_ARG_SEP].
  apply star_takes_all; [exact Hw1|cbn; now rewrite Hns|].
  rewrite Hsep.
  rewrite (star_takes_all _ w2 b 0 Hw2 Hb eq_refl).
  cbn. now rewrite Nat.add_0_r.
Qed.

(** White space only: the class takes the last byte of the run. *)
Lemma match_spaces (w b : string) (x : ascii) :
  all perl_space w = true -> perl_space x = true ->
  starts_token b = true ->
  match_here TIMER_ARG_SEP (w ++ String x b)
  = Some (String.length w + 1)%nat.
Proof.
  intros Hw Hx Hb. cbn [match_here TIMER_ARG_SEP].
  assert (Hxs : sep_class x = true) by (unfold sep_class; now rewrite Hx).
  assert (Hnone : star perl_space
                    (fun s => match s with
                              | String c s' =>
                                  if sep_class c
                                  then option_map S
                                         (star perl_space (fun _ => Some O) s')
                                  else None
                              | EmptyString => None
                              end) b = None).
  { destruct b as [|c b]; [reflexivity|]. cbn in Hb. cbn.
    rewrite (not_sep_nonspace c Hb).
    unfold not_sep in Hb. apply negb_true_iff in Hb. now rewrite Hb. }
  induction w as [|y w IH].
  - cbn. rewrite Hx, Hnone, Hxs.
    pose proof (star_takes_all (fun _ => Some O) EmptyString b 0 eq_refl
                  (starts_token_nonspace b Hb) eq_refl) as Hs.
    cbn [append] in Hs. rewrite Hs. reflexivity.
  - cbn in Hw. apply andb_prop in Hw as [Hy Hw].
    cbn. rewrite Hy. cbn in IH. rewrite (IH Hw). reflexivity.
Qed.

Lemma last_byte (c : ascii) (s : string) :
  exists w x, String c s = w ++ String x EmptyString.
Proof.
  revert c. induction s as [|d s IH]; intros c.
  - exists EmptyString, c. reflexivity.
  - destruct (IH d) as (w & x & E). exists (String c w), x.
    cbn. now rewrite E.
Qed.

Lemma match_space_run (sep b : string) :
  sep <> EmptyString -> all perl_space sep = true -> starts_token b = true ->
  match_here TIMER_ARG_SEP (sep ++ b) = Some (String.length sep).
Proof.
  intros Hne Hall Hb. destruct sep as [|y sep]; [congruence|].
  destruct (last_byte y sep) as (w & x & E). rewrite E in *.
  rewrite all_app in Hall. apply andb_prop in Hall as [Hw Hx].
  cbn in Hx. rewrite andb_true_r in Hx.
  rewrite string_app_assoc, string_length_app.
  change (String x EmptyString ++ b) with (String x b).
  exact (match_spaces w b x Hw Hx Hb).
Qed.

(** One separator: white space around at most one comma or hyphen. *)
Lemma match_separator (w1 w2 b : string) (c : ascii) :
  all perl_space w1 = true -> sep_class c = true ->
  all perl_space w2 = true -> starts_token b = true ->
  match_here TIMER_ARG_SEP ((w1 ++ String c w2) ++ b)
  = Some (String.length (w1 ++ String c w2)).
Proof.
  intros Hw1 Hc Hw2 Hb.
  destruct (perl_space c) eqn:Hsp.
  - apply match_space_run; [now destruct w1| |exact Hb].
    rewrite all_app. cbn [all]. now rewrite Hw1, Hsp, Hw2.
  - assert (Hp : punct c = true).
    { unfold sep_class in Hc. rewrite Hsp in Hc. exact Hc. }
    rewrite string_app_assoc. cbn [append].
    rewrite (match_punct w1 w2 b c Hw1 Hp Hw2
               (starts_token_nonspace b Hb)), string_length_app.
    reflexivity.
Qed.

Lemma find_all_token (a rest : string) :
  all not_sep a = true ->
  forall pos,
    find_all TIMER_ARG_SEP (a ++ rest) pos 0
    = find_all TIMER_ARG_SEP rest (pos + String.length a) 0.
Proof.
  intros Ha. induction a as [|c a IH]; intros pos.
  - cbn. now rewrite Nat.add_0_r.
  - cbn in Ha. apply andb_prop in Ha as [Hc Ha].
    cbn [append find_all String.length].
    rewrite (no_match_in_token (String c (a ++ rest)))
      by (cbn; congruence || exact Hc).
    rewrite (IH Ha). f_equal. lia.
Qed.

Lemma find_all_end (b : string) :
  all not_sep b = true ->
  forall pos, find_all TIMER_ARG_SEP b pos 0 = [].
Proof.
  intros Hb. induction b as [|c b IH]; intros pos; [reflexivity|].
  cbn in Hb. apply andb_prop in Hb as [Hc Hb].
  cbn [find_all].
  rewrite (no_match_in_token (String c b))
    by (cbn; congruence || exact Hc).
  exact (IH Hb _).
Qed.

Lemma find_all_skip (re : list piece) (x rest : string) :
  forall pos,
    find_all re (x ++ rest) pos (String.length x)
    = find_all re rest (pos + String.length x) 0.
Proof.
  induction x as [|c x IH]; intros pos.
  - cbn. now rewrite Nat.add_0_r.
  - cbn [append find_all String.length]. rewrite IH. f_equal. lia.
Qed.

Lemma find_all_separator (sep b : string) (pos : nat) :
  sep <> EmptyString ->
  match_here TIMER_ARG_SEP (sep ++ b) = Some (String.length sep) ->
  find_all TIMER_ARG_SEP (sep ++ b) pos 0
  = (pos, (pos + String.length sep)%nat)
      :: find_all TIMER_ARG_SEP b (pos + String.length sep) 0.
Proof.
  intros Hne Hm. destruct sep as [|y sep]; [congruence|].
  cbn [append String.length] in *. cbn [find_all]. rewrite Hm.
  rewrite find_all_skip. do 2 f_equal. lia.
Qed.

Lemma substring_suffix (p b : string) (n m : nat) :
  n = String.length p ->
  m = (String.length (p ++ b) - n)%nat ->
  substring n m (p ++ b) = b.
Proof.
  intros -> ->. rewrite substring_skip, string_length_app.
  replace (String.length p + String.length b - String.length p)%nat
    with (String.length b) by lia.
  apply substring_whole.
Qed.

Lemma substring_head (a r : string) (n : nat) :
  n = String.length a -> substring 0 n (a ++ r) = a.
Proof. intros ->. apply substring_prefix. Qed.

(** Two tokens around one separator. *)
Lemma split_one (a sep b : string) :
  all not_sep a = true -> all not_sep b = true -> sep <> EmptyString ->
  match_here TIMER_ARG_SEP (sep ++ b) = Some (String.length sep) ->
  splitTimerArgString (a ++ sep ++ b) = [a; b].
Proof.
  intros Ha Hb Hne Hm.
  assert (Hlen : (0 < String.length sep)%nat)
    by (destruct sep; [congruence|cbn; lia]).
  unfold splitTimerArgString, Split, FindAllStringIndex.
  rewrite (find_all_token a (sep ++ b) Ha),
    (find_all_separator sep b _ Hne Hm), (find_all_end b Hb).
  set (s := a ++ sep ++ b).
  assert (Hs : String.length s
               = (String.length a + String.length sep + String.length b)%nat)
    by (unfold s; rewrite !string_length_app; lia).
  cbn [split_matches].
  rewrite (proj2 (Nat.eqb_neq (String.length s) 0)) by lia.
  rewrite (proj2 (Nat.eqb_neq (0 + String.length a + String.length sep) 0))
    by lia.
  rewrite (proj2 (Nat.eqb_neq (0 + String.length a) (String.length s)))
    by lia.
  cbn [app]. f_equal; [|f_equal].
  - unfold s. apply substring_head. lia.
  - unfold s. rewrite <- string_app_assoc.
    apply substring_suffix; rewrite ?string_length_app; lia.
Qed.

(** Three tokens, the middle one empty, around two adjacent commas or
    hyphens. *)
Lemma split_two (a b : string) (c1 c2 : ascii) :
  all not_sep a = true -> all not_sep b = true ->
  punct c1 = true -> punct c2 = true ->
  splitTimerArgString (a ++ String c1 (String c2 b)) = [a; EmptyString; b].
Proof.
  intros Ha Hb H1 H2.
  pose proof (starts_token_nonspace b (all_starts_token b Hb)) as Hbs.
  assert (Hm1 : match_here TIMER_ARG_SEP (String c1 EmptyString ++ String c2 b)
                = Some (String.length (String c1 EmptyString))).
  { apply (match_punct EmptyString EmptyString (String c2 b) c1 eq_refl H1 eq_refl).
    cbn. now rewrite (proj2 (punct_sep c2 H2)). }
  assert (Hm2 : match_here TIMER_ARG_SEP (String c2 EmptyString ++ b)
                = Some (String.length (String c2 EmptyString))).
  { exact (match_punct EmptyString EmptyString b c2 eq_refl H2 eq_refl Hbs). }
  unfold splitTimerArgString, Split, FindAllStringIndex.
  set (s := a ++ String c1 (String c2 b)).
  assert (Hs : String.length s = (String.length a + 2 + String.length b)%nat)
    by (unfold s; rewrite string_length_app; cbn; lia).
  assert (Hall : find_all TIMER_ARG_SEP s 0 0
                 = [(String.length a, String.length a + 1);
                    (String.length a + 1, String.length a + 2)]%nat).
  { unfold s.
    change (String c1 (String c2 b)) with (String c1 EmptyString ++ String c2 b).
    rewrite (find_all_token a _ Ha),
      (find_all_separator (String c1 EmptyString) (String c2 b) _
         ltac:(congruence) Hm1).
    change (String c2 b) with (String c2 EmptyString ++ b).
    rewrite (find_all_separator (String c2 EmptyString) b _ ltac:(congruence) Hm2),
      (find_all_end b Hb).
    cbn [String.length Nat.add].
    apply f_equal2; [apply f_equal2; lia|].
    apply f_equal2; [apply f_equal2; lia|reflexivity]. }
  rewrite Hall. cbn [split_matches].
  rewrite (proj2 (Nat.eqb_neq (String.length s) 0)) by lia.
  rewrite (proj2 (Nat.eqb_neq (String.length a + 1) 0)) by lia.
  rewrite (proj2 (Nat.eqb_neq (String.length a + 2) 0)) by lia.
  rewrite (proj2 (Nat.eqb_neq (String.length a + 1) (String.length s)))
    by lia.
  cbn [app]. f_equal; [|f_equal; [|f_equal]].
  - unfold s. apply substring_head. lia.
  - rewrite Nat.sub_diag. apply substring_none.
  - unfold s.
    change (String c1 (String c2 b)) with (String c1 (String c2 EmptyString) ++ b).
    rewrite <- string_app_assoc.
    apply substring_suffix; rewrite ?string_length_app; cbn [String.length]; lia.
Qed.

(** The tokenizer never returns an empty list. *)
Lemma find_all_ends_positive (re : list piece) (s : string) :
  forall pos skip m0 m1,
    In (m0, m1) (find_all re s pos skip) -> (0 < m1)%nat.
Proof.
  induction s as [|c s IH]; intros pos skip m0 m1 Hin; [destruct Hin|].
  cbn [find_all] in Hin. destruct skip as [|k]; [|eauto].
  destruct (match_here re (String c s)) as [[|k]|]; eauto.
  destruct Hin as [E|Hin]; [|eauto]. injection E as _ <-. lia.
Qed.

Lemma split_nonempty (s : string) : splitTimerArgString s <> [].
Proof.
  unfold splitTimerArgString, Split.
  destruct (Nat.eqb_spec (String.length s) 0) as [|Hne]; [discriminate|].
  unfold FindAllStringIndex.
  pose proof (find_all_ends_positive TIMER_ARG_SEP s 0 0) as Hpos.
  destruct (find_all TIMER_ARG_SEP s 0 0) as [|[m0 m1] ms].
  - cbn [split_matches].
    destruct (Nat.eqb_spec 0 (String.length s)); [lia|congruence].
  - cbn [split_matches].
    specialize (Hpos m0 m1 (or_introl eq_refl)).
    destruct (Nat.eqb_spec m1 0); [lia|cbn [app]; congruence].
Qed.

End Tokens.

(** C6 (amended). The tokenizer splits at every match of one separator:
    one separator byte with the white space around it.  So two tokens
    apart by a run of white space that holds at most one comma or hyphen
    come out as exactly those two tokens, in order; but every comma or
    hyphen is a separator of its own, and two of them next to each other
    leave an empty token between them.  "5m, 10m", "5m 10m" and "5m-10m"
    give the stages [5m, 10m]; "5m,,10m" gives the tokens "5m", the empty
    string and "10m", and is rejected by the duration parser. *)
Theorem tokenize_separators :
  (forall a w1 c w2 b,
     all not_sep a = true -> all Regexp.perl_space w1 = true ->
     sep_class c = true -> all Regexp.perl_space w2 = true ->
     all not_sep b = true ->
     splitTimerArgString (a ++ (w1 ++ String c w2) ++ b) = [a; b])
  /\ (forall a c1 c2 b,
        all not_sep a = true -> punct c1 = true -> punct c2 = true ->
        all not_sep b = true ->
        splitTimerArgString (a ++ String c1 (String c2 b))
        = [a; EmptyString; b])
  /\ parseDurations (splitTimerArgString "5m, 10m") []
     = inr [minutes 5; minutes 10]
  /\ parseDurations (splitTimerArgString "5m 10m") []
     = inr [minutes 5; minutes 10]
  /\ parseDurations (splitTimerArgString "5m-10m") []
     = inr [minutes 5; minutes 10]
  /\ splitTimerArgString "5m,,10m" = ["5m"; EmptyString; "10m"]%string
  /\ parseDurations (splitTimerArgString "5m,,10m") []
     = inl (ErrInvalidDuration EmptyString).
Proof.
  split.
  { intros a w1 c w2 b Ha Hw1 Hc Hw2 Hb.
    apply Tokens.split_one; [exact Ha|exact Hb|now destruct w1|].
    apply Tokens.match_separator; try assumption.
    now apply Tokens.all_starts_token. }
  split.
  { intros a c1 c2 b Ha H1 H2 Hb. now apply Tokens.split_two. }
  repeat split; vm_compute; reflexivity.
Qed.

Lemma tokenize_separators_witness :
  splitTimerArgString "25m  ,  5m" = ["25m"; "5m"]%string
  /\ splitTimerArgString "25m-,5m" = ["25m"; EmptyString; "5m"]%string.
Proof.
  destruct tokenize_separators as (Hone & Htwo & _).
  split.
  - apply (Hone "25m" "  " ","%char "  " "5m")%string; reflexivity.
  - apply (Htwo "25m" "-"%char ","%char "5m")%string; reflexivity.
Defined.

(** C6 as stated fails: the two commas of "5m,,10m" are two separators,
    the token between them is empty, and the argument does not yield the
    stages [5m, 10m]. *)
Lemma double_separator_counterexample :
  In EmptyString (splitTimerArgString "5m,,10m")
  /\ parseDurations (splitTimerArgString "5m,,10m") []
     <> inr [minutes 5; minutes 10].
Proof.
  split; [vm_compute; tauto|]. vm_compute. discriminate.
Qed.

(* ================================================================== *)
(** ** Rejected arguments *)

Lemma RunE_parse_error (fl : Flags) (g : Globals) (now : Z)
  (program : model -> Globals -> error + model) (arg : string) (err : error) :
  parseDurations (splitTimerArgString arg) [] = inl err ->
  RunE fl g now program arg = Ok (EmptyString, Some err).
Proof. intros Hp. unfold RunE. now rewrite Hp. Qed.

Lemma parseDurations_length (items : list string) :
  forall acc ds,
    parseDurations items acc = inr ds ->
    List.length ds = (List.length acc + List.length items)%nat.
Proof.
  induction items as [|item items IH]; intros acc ds Hp; cbn in Hp.
  - injection Hp as <-. cbn. lia.
  - destruct (Time.ParseDuration _) as [e|d]; [discriminate|].
    apply IH in Hp. rewrite Hp, length_app. cbn. lia.
Qed.

(** [RunE] never panics: an accepted argument has at least one stage, so
    [durations[0]] is in range. *)
Lemma RunE_total (fl : Flags) (g : Globals) (now : Z)
  (program : model -> Globals -> error + model) (arg : string) :
  exists out, RunE fl g now program arg = Ok out.
Proof.
  unfold RunE.
  destruct (parseDurations (splitTimerArgString arg) []) as [e|ds] eqn:Hp;
    [eauto|].
  apply parseDurations_length in Hp.
  pose proof (Tokens.split_nonempty arg) as Hne.
  destruct ds as [|d ds].
  - destruct (splitTimerArgString arg); [congruence|cbn in Hp; lia].
  - cbn. eauto.
Qed.

(** C7 (amended). The empty argument tokenizes to one empty token, not to
    none (no argument tokenizes to none), and is rejected by the duration
    parser with the same "invalid duration" error as "abc": there is no
    separate error for an empty specification.  Whenever a token fails to
    parse, [RunE] returns that error without printing anything, whatever
    running the program would do -- no session is built, no UI shown --
    and the process exits with status 1. *)
Theorem spec_rejection (fl : Flags) (g : Globals) (now : Z)
  (program : model -> Globals -> error + model) :
  splitTimerArgString EmptyString = [EmptyString]
  /\ (forall arg, splitTimerArgString arg <> [])
  /\ RunE fl g now program EmptyString = Ok (EmptyString, Some (ErrInvalidDuration EmptyString))
  /\ RunE fl g now program "abc"
     = Ok (EmptyString, Some (ErrInvalidDuration "abc"))
  /\ (forall arg err,
        parseDurations (splitTimerArgString arg) [] = inl err ->
        RunE fl g now program arg = Ok (EmptyString, Some err)
        /\ exit_status (RunE fl g now program arg) = 1).
Proof.
  split; [reflexivity|].
  split; [exact Tokens.split_nonempty|].
  split; [now apply RunE_parse_error|].
  split; [now apply RunE_parse_error|].
  intros arg err Hp. rewrite (RunE_parse_error _ _ _ _ _ _ Hp).
  split; reflexivity.
Qed.

Lemma spec_rejection_witness :
  RunE pomodoro noGlobals 0 (fun m _ => inr m) "5m,,10m"
  = Ok (EmptyString, Some (ErrInvalidDuration EmptyString))
  /\ exit_status (RunE pomodoro noGlobals 0 (fun m _ => inr m) "5m,,10m") = 1.
Proof.
  destruct (spec_rejection pomodoro noGlobals 0 (fun m _ => inr m))
    as (_ & _ & _ & _ & Hrej).
  apply Hrej. vm_compute. reflexivity.
Defined.

(** C7 as stated fails: the empty argument does not tokenize to zero
    tokens, and the error it is rejected with is the duration parser's
    "invalid duration", the very error "abc" is rejected with. *)
Lemma empty_spec_counterexample :
  splitTimerArgString EmptyString <> []
  /\ parseDurations (splitTimerArgString EmptyString) []
     = inl (ErrInvalidDuration EmptyString)
  /\ parseDurations (splitTimerArgString "abc") []
     = inl (ErrInvalidDuration "abc").
Proof.
  split; [discriminate|]. split; vm_compute; reflexivity.
Qed.
(* ================================================================== *)
(** ** Stages and Timeout events *)

(** The session [RunE] starts from. *)
Lemma newModel_start (fl : Flags) (g : Globals) (now : Z)
  (ds : list Time.Duration) (m0 : model) (g0 : Globals) :
  len ds <= max_int64 ->
  newModel fl g now ds = Ok (m0, g0) ->
  m0.(durations) = ds /\ m0.(state) = 0 /\ m0.(quitting) = false
  /\ m0.(interrupting) = false /\ session_inv m0.
Proof.
  intros Hlen Hnew. unfold newModel in Hnew.
  destruct (index ds 0) as [d|] eqn:Hd; [|discriminate].
  apply index_Ok_range in Hd. cbn in Hnew. injection Hnew as <- _.
  unfold session_inv. cbn [durations state quitting interrupting].
  repeat split; lia.
Qed.

Section Stages.

Context `{Spring}.

(** One event moves the stage index by at most one, on a Timeout, and
    never past the last stage. *)
Lemma Update_stage (g : Globals) (now : Z) (m : model) (msg : Msg)
  (m' : model) (cmd : Cmd) (g' : Globals) :
  session_inv m ->
  Update g now m msg = Ok (m', cmd, g') ->
  m'.(durations) = m.(durations)
  /\ m'.(state)
     = Z.min (m.(state) + (if is_timeout msg then 1 else 0))
         (len m.(durations) - 1)
  /\ m'.(quitting)
     = m.(quitting) || is_quit msg
       || (is_timeout msg && (len m.(durations) - m.(state) <=? 1)).
Proof.
  intros [[Hlo Hhi] Hlen] HU.
  destruct (Update_flags _ _ _ _ _ _ _ HU) as (Hd & _ & _).
  split; [exact Hd|].
  assert (Hmin : Z.min (m.(state) + 0) (len m.(durations) - 1) = m.(state))
    by lia.
  destruct msg; cbn [is_timeout is_quit andb]; rewrite ?orb_false_r, ?Hmin.
  - destruct (Update_tick _ _ _ _ _ _ _ _ _ HU) as (pct & _ & -> & _).
    split; reflexivity.
  - unfold Update in HU.
    rewrite last_index in HU by (pose proof (len_nonneg m.(durations)); lia).
    destruct (Z.eqb_spec m.(state) (len m.(durations) - 1)) as [E|E].
    + injection HU as <- _ _. cbn [state quitting set_quitting].
      split; [lia|].
      destruct (Z.leb_spec (len m.(durations) - m.(state)) 1); [|lia].
      now rewrite orb_true_r.
    + cbn [set_state set_start set_passed durations state] in HU.
      destruct (index _ _) as [d|]; [|discriminate HU].
      cbn in HU. injection HU as <- _ _. cbn.
      unfold add64. rewrite wrap64_id
        by (unfold in_int64, min_int64, max_int64 in *; lia).
      split; [lia|].
      destruct (Z.leb_spec (len m.(durations) - m.(state)) 1); [lia|].
      now rewrite orb_false_r.
  - unfold Update in HU. split_update HU. injection HU as <- _ _.
    split; reflexivity.
  - unfold Update in HU. split_update HU; injection HU as <- _ _;
      split; reflexivity.
  - unfold Update in HU. split_update HU. injection HU as <- _ _.
    split; reflexivity.
  - unfold Update in HU.
    destruct (Matches keystroke quitKeys) eqn:Hq.
    + injection HU as <- _ _. cbn. now rewrite orb_true_r.
    + rewrite orb_false_r.
      destruct (Matches keystroke intKeys); injection HU as <- _ _;
        split; reflexivity.
  - injection HU as <- _ _. split; reflexivity.
  - injection HU as <- _ _. split; reflexivity.
Qed.

Lemma timeouts_nonneg (evs : list event) : 0 <= timeouts evs.
Proof.
  induction evs as [|[now msg] evs IH]; cbn; [lia|].
  destruct (is_timeout msg); lia.
Qed.

Lemma Update_session_inv (g : Globals) (now : Z) (m : model) (msg : Msg)
  (m' : model) (cmd : Cmd) (g' : Globals) :
  session_inv m ->
  Update g now m msg = Ok (m', cmd, g') ->
  session_inv m'.
Proof.
  intros Hinv HU.
  destruct (Update_stage _ _ _ _ _ _ _ Hinv HU) as (Hd & Hs & _).
  destruct Hinv as [[Hlo Hhi] Hlen]. unfold session_inv.
  rewrite Hd, Hs. destruct (is_timeout msg); lia.
Qed.

Lemma handle_stage (evs : list event) :
  forall g m mf gf,
    session_inv m ->
    handle g m evs = Ok (mf, gf) ->
    mf.(durations) = m.(durations)
    /\ session_inv mf
    /\ mf.(state)
       = Z.min (m.(state) + timeouts evs) (len m.(durations) - 1)
    /\ mf.(quitting)
       = m.(quitting) || quit_pressed evs
         || (len m.(durations) - m.(state) <=? timeouts evs).
Proof.
  induction evs as [|[now msg] evs IH]; intros g m mf gf Hinv Hh.
  - injection Hh as <- _. destruct Hinv as [[Hlo Hhi] Hlen] eqn:E.
    cbn [timeouts quit_pressed existsb]. rewrite orb_false_r.
    split; [reflexivity|]. split; [unfold session_inv; lia|].
    split; [lia|].
    destruct (Z.leb_spec (len m.(durations) - m.(state)) 0); [lia|].
    now rewrite orb_false_r.
  - cbn [handle] in Hh.
    destruct (Update g now m msg) as [[[m1 c1] g1]|] eqn:HU; [|discriminate].
    cbn [bind fst snd] in Hh.
    pose proof (Update_session_inv _ _ _ _ _ _ _ Hinv HU) as Hinv1.
    destruct (Update_stage _ _ _ _ _ _ _ Hinv HU) as (Hd1 & Hs1 & Hq1).
    destruct (IH _ _ _ _ Hinv1 Hh) as (Hd & Hinvf & Hs & Hq).
    pose proof (timeouts_nonneg evs) as Ht.
    destruct Hinv as [[Hlo Hhi] Hlen].
    rewrite Hd1 in *. split; [exact Hd|]. split; [exact Hinvf|].
    cbn [timeouts quit_pressed existsb snd]. fold (quit_pressed evs).
    rewrite Hs, Hq, Hq1, Hs1.
    destruct (is_timeout msg) eqn:Htm.
    + assert (Hnq : is_quit msg = false) by (destruct msg; easy).
      rewrite Hnq. cbn [andb orb]. rewrite orb_false_r.
      split; [lia|].
      destruct (Z.leb_spec (len m.(durations) - m.(state)) 1).
      * rewrite orb_true_r. cbn [orb].
        destruct (Z.leb_spec (len m.(durations) - m.(state))
                    (1 + timeouts evs)); [|lia].
        now rewrite orb_true_r.
      * rewrite orb_false_r, Z.min_l by lia.
        f_equal.
        destruct (Z.leb_spec (len m.(durations) - (m.(state) + 1))
                    (timeouts evs));
          destruct (Z.leb_spec (len m.(durations) - m.(state))
                      (1 + timeouts evs)); lia || reflexivity.
    + cbn [andb]. rewrite orb_false_r, Z.add_0_r, Z.add_0_l.
      rewrite (Z.min_l m.(state)) by lia.
      split; [reflexivity|]. now rewrite <- !orb_assoc.
Qed.

(** X1. From the session [RunE] builds for [ds], after any events the
    stage list is still [ds], the stage index is the number of Timeout
    events handled, capped at the last stage, and [quitting] is set exactly
    when a quit key was handled or as many Timeout events as there are
    stages were handled. *)
Theorem stage_progress (fl : Flags) (g : Globals) (now : Z)
  (ds : list Time.Duration) (m0 : model) (g0 : Globals) (evs : list event)
  (mf : model) (gf : Globals) :
  len ds <= max_int64 ->
  newModel fl g now ds = Ok (m0, g0) ->
  handle g0 m0 evs = Ok (mf, gf) ->
  mf.(durations) = ds
  /\ 0 <= mf.(state) < len ds
  /\ mf.(state) = Z.min (timeouts evs) (len ds - 1)
  /\ mf.(quitting) = quit_pressed evs || (len ds <=? timeouts evs).
Proof.
  intros Hlen Hnew Hh.
  assert (Hm0 : m0.(durations) = ds /\ m0.(state) = 0
                /\ m0.(quitting) = false /\ 0 < len ds).
  { unfold newModel in Hnew. destruct (index ds 0) as [d|] eqn:Hd;
      [|discriminate].
    apply index_Ok_range in Hd. cbn in Hnew. injection Hnew as <- _.
    cbn. repeat split; lia. }
  destruct Hm0 as (Hd0 & Hs0 & Hq0 & Hpos).
  assert (Hinv : session_inv m0).
  { unfold session_inv. rewrite Hd0, Hs0. lia. }
  destruct (handle_stage evs _ _ _ _ Hinv Hh) as (Hd & Hinvf & Hs & Hq).
  rewrite Hd0, Hs0, Hq0 in *. rewrite Z.add_0_l in Hs.
  rewrite Z.sub_0_r in Hq. cbn [orb] in Hq.
  destruct Hinvf as [Hr _]. rewrite Hd in Hr.
  repeat split; try assumption; lia.
Qed.

End Stages.

(* ================================================================== *)
(** ** Panics *)

Section Panics.

Context `{Spring}.

(** The only panic of [Update] on a session whose stage index is in range
    is the division of the tick handler, on a stage under a millisecond. *)
Lemma Update_panic (g : Globals) (now : Z) (m : model) (msg : Msg)
  (p : panic) :
  session_inv m ->
  Update g now m msg = Panic p ->
  p = IntegerDivideByZero
  /\ is_tick msg = true
  /\ exists d, index m.(durations) m.(state) = Ok d
               /\ Time.Milliseconds d = 0.
Proof.
  intros [[Hlo Hhi] Hlen] HU.
  destruct (index_in_range m.(durations) m.(state) ltac:(lia)) as [d Hd].
  destruct msg; unfold Update in HU.
  - unfold percent in HU. cbn [set_passed durations state] in HU.
    rewrite Hd in HU. cbn [bind] in HU. unfold div64 in HU.
    destruct (Z.eqb_spec (Time.Milliseconds d) 0) as [E|E].
    + cbn in HU. injection HU as <-. repeat split. eauto.
    + cbn [bind Progress.SetPercent set_progress set_passed timer progress]
        in HU.
      destruct (Timer.Update m.(timer) _). discriminate HU.
  - rewrite last_index in HU by (pose proof (len_nonneg m.(durations)); lia).
    destruct (Z.eqb_spec m.(state) (len m.(durations) - 1)) as [E|E];
      [discriminate HU|].
    cbn [set_state set_start set_passed durations state] in HU.
    unfold add64 in HU. rewrite wrap64_id in HU
      by (unfold in_int64, min_int64, max_int64 in *; lia).
    destruct (index_in_range m.(durations) (m.(state) + 1) ltac:(lia))
      as [d' Hd'].
    rewrite Hd' in HU. discriminate HU.
  - destruct (Timer.Update _ _). discriminate HU.
  - discriminate HU.
  - destruct (Progress.Update _ _). discriminate HU.
  - destruct (Matches _ quitKeys); [discriminate HU|].
    destruct (Matches _ intKeys); discriminate HU.
  - discriminate HU.
  - discriminate HU.
Qed.

Lemma Milliseconds_positive (d : Time.Duration) :
  Time.Millisecond <= d -> Time.Milliseconds d <> 0.
Proof.
  unfold Time.Millisecond, Time.Microsecond, Time.Nanosecond. intros Hd.
  destruct (Milliseconds_nonneg d ltac:(lia)) as [E _]. rewrite E.
  assert (1 <= d / 1000000) by (apply Z.div_le_lower_bound; lia). lia.
Qed.

(** X2. From the session [RunE] builds, no sequence of events makes a
    handler index the stage list out of range: the one panic possible is
    the integer division by zero of the tick handler.  When every stage
    lasts at least one millisecond no handler panics at all. *)
Theorem handlers_safe (fl : Flags) (g : Globals) (now : Z)
  (ds : list Time.Duration) (m0 : model) (g0 : Globals) (evs : list event) :
  len ds <= max_int64 ->
  newModel fl g now ds = Ok (m0, g0) ->
  (forall p, handle g0 m0 evs = Panic p -> p = IntegerDivideByZero)
  /\ (Forall (fun d => Time.Millisecond <= d) ds ->
      exists mf gf, handle g0 m0 evs = Ok (mf, gf)).
Proof.
  intros Hlen Hnew.
  assert (Hm0 : m0.(durations) = ds /\ session_inv m0).
  { unfold newModel in Hnew. destruct (index ds 0) as [d|] eqn:Hd;
      [|discriminate].
    apply index_Ok_range in Hd. cbn in Hnew. injection Hnew as <- _.
    unfold session_inv. cbn [state durations]. split; [reflexivity|lia]. }
  destruct Hm0 as [Hd0 Hinv]. subst ds. clear Hnew Hlen.
  revert g0 m0 Hinv.
  induction evs as [|[t msg] evs IH]; intros g0 m0 Hinv.
  - split; [discriminate|intros _; cbn; eauto].
  - cbn [handle].
    destruct (Update g0 t m0 msg) as [[[m1 c1] g1]|p0] eqn:HU.
    + cbn [bind fst snd].
      destruct (Update_flags _ _ _ _ _ _ _ HU) as (Hd1 & _).
      pose proof (Update_session_inv _ _ _ _ _ _ _ Hinv HU) as Hinv1.
      destruct (IH g1 m1 Hinv1) as [Hp Hok].
      rewrite Hd1 in Hok. split; assumption.
    + cbn [bind].
      destruct (Update_panic _ _ _ _ _ Hinv HU) as (-> & _ & d & Hd & Hz).
      split; [intros p E; now injection E as <-|].
      intros Hall. rewrite Forall_forall in Hall.
      pose proof (Milliseconds_positive d (Hall _ (index_In _ _ _ Hd))).
      contradiction.
Qed.

End Panics.

(* ================================================================== *)
(** ** Asking the loop to stop *)

Lemma delivers_Batch (cs : list Cmd) :
  delivers (Batch cs) = flat_map delivers cs.
Proof.
  unfold Batch.
  assert (Hf : flat_map delivers cs
               = flat_map delivers (filter (fun c => negb (is_nil c)) cs)).
  { induction cs as [|c cs IH]; [reflexivity|].
    cbn [flat_map filter]. destruct c; cbn [is_nil negb flat_map delivers];
      rewrite IH; reflexivity. }
  rewrite Hf.
  destruct (filter _ cs) as [|c [|c' l]]; cbn [flat_map delivers];
    [reflexivity|now rewrite app_nil_r|reflexivity].
Qed.

(** The countdown only ever sends its own ticks and its Timeout. *)
Lemma timer_Update_delivers (t : Timer.Model) (msg msg' : Msg) :
  In msg' (delivers (snd (Timer.Update t msg))) ->
  is_tick msg' = true \/ is_timeout msg' = true.
Proof.
  unfold Timer.Update.
  destruct msg; cbn [snd delivers]; try (intros []).
  - destruct (negb (Timer.Running t) || _); [intros []|].
    destruct ((0 <? tag) && _); [intros []|].
    cbn [snd]. rewrite delivers_Batch. cbn [flat_map].
    unfold Timer.tick, Timer.timedout.
    destruct (negb (Timer.Timedout _)); cbn; intuition (subst; auto).
  - destruct (negb (ID =? 0) && _); cbn [snd delivers]; [intros []|].
    unfold Timer.tick. cbn. intuition (subst; auto).
Qed.

Section Stopping.

Context `{Spring}.

(** The progress bar only ever sends its own frames. *)
Lemma progress_Update_delivers (p : Progress.Model) (msg msg' : Msg) :
  In msg' (delivers (snd (Progress.Update p msg))) -> is_frame msg' = true.
Proof.
  unfold Progress.Update.
  destruct msg; cbn [snd delivers]; try (intros []).
  destruct (negb (id =? _) || _); [intros []|].
  destruct (negb (Progress.IsAnimating p)); [intros []|].
  destruct (springUpdate _ _ _) as [shown vel]. cbn.
  intros [<-|[]]. reflexivity.
Qed.

(** X3. [Update] returns a command that delivers the quit message exactly
    on a quit key, an interrupt key, or a Timeout on the last stage; and
    whenever it does, the session it returns has [quitting] or
    [interrupting] set. *)
Theorem quit_requested (g : Globals) (now : Z) (m : model) (msg : Msg)
  (m' : model) (cmd : Cmd) (g' : Globals) :
  session_inv m ->
  Update g now m msg = Ok (m', cmd, g') ->
  (In QuitMsg (delivers cmd) <->
     is_quit msg = true \/ is_interrupt msg = true
     \/ (is_timeout msg = true /\ m.(state) = len m.(durations) - 1))
  /\ (In QuitMsg (delivers cmd) ->
        m'.(quitting) = true \/ m'.(interrupting) = true).
Proof.
  intros [[Hlo Hhi] Hlen] HU. destruct msg; unfold Update in HU.
  - destruct (percent _) as [pct|]; [|discriminate HU].
    cbn [bind Progress.SetPercent set_progress set_passed timer progress]
      in HU.
    destruct (Timer.Update m.(timer) _) as [t c] eqn:Ht.
    injection HU as _ <- _.
    assert (Hno : ~ In QuitMsg (delivers (Batch [Progress.nextFrame
              (Progress.mkModel m.(progress).(Progress.id)
                 (add64 m.(progress).(Progress.tag) 1)
                 m.(progress).(Progress.width)
                 (Progress.Qmax 0 (Progress.Qmin 1 (pct # 100)))
                 m.(progress).(Progress.percentShown)
                 m.(progress).(Progress.velocity)); c]))).
    { rewrite delivers_Batch. cbn [flat_map delivers Progress.nextFrame].
      rewrite app_nil_r. intros [E|Hin]; [discriminate E|].
      pose proof (timer_Update_delivers m.(timer) (TickMsg ID Timeout tag)
                    QuitMsg) as Hd.
      rewrite Ht in Hd. destruct (Hd Hin) as [E|E]; discriminate E. }
    cbn [is_quit is_interrupt is_timeout].
    split; [split; [intros Hin; contradiction|]|intros Hin; contradiction].
    intros [E|[E|[E _]]]; discriminate E.
  - rewrite last_index in HU by (pose proof (len_nonneg m.(durations)); lia).
    cbn [is_quit is_interrupt is_timeout].
    destruct (Z.eqb_spec m.(state) (len m.(durations) - 1)) as [E|E].
    + injection HU as <- <- _. cbn. split; [|auto].
      split; [intros _; right; right; split; [reflexivity|exact E]|auto].
    + cbn [set_state set_start set_passed durations state] in HU.
      destruct (index _ _) as [d|]; [|discriminate HU].
      cbn in HU. injection HU as _ <- _. cbn.
      split; [split|]; try (intros [E'|[]]; discriminate E').
      intros [E'|[E'|[_ E']]]; try discriminate E'. contradiction.
  - destruct (Timer.Update m.(timer) _) as [t c] eqn:Ht.
    injection HU as _ <- _. cbn [is_quit is_interrupt is_timeout].
    assert (Hno : ~ In QuitMsg (delivers c)).
    { intros Hin.
      pose proof (timer_Update_delivers m.(timer)
                    (StartStopMsg ID running) QuitMsg) as Hd.
      rewrite Ht in Hd. destruct (Hd Hin) as [E|E]; discriminate E. }
    split; [split; [intros Hin; contradiction|]|intros Hin; contradiction].
    intros [E|[E|[E _]]]; discriminate E.
  - cbn in HU.
    assert (cmd = CmdNil)
      by (destruct (negb m.(altscreen) && _); now injection HU as _ <- _).
    subst cmd. cbn.
    split; [split; [intros []|]|intros []].
    intros [E|[E|[E _]]]; discriminate E.
  - destruct (Progress.Update m.(progress) _) as [p c] eqn:Hp.
    injection HU as _ <- _. cbn [is_quit is_interrupt is_timeout].
    assert (Hno : ~ In QuitMsg (delivers c)).
    { intros Hin.
      pose proof (progress_Update_delivers m.(progress) (FrameMsg id tag)
                    QuitMsg) as Hd.
      rewrite Hp in Hd. discriminate (Hd Hin). }
    split; [split; [intros Hin; contradiction|]|intros Hin; contradiction].
    intros [E|[E|[E _]]]; discriminate E.
  - cbn [is_quit is_interrupt is_timeout].
    destruct (Matches keystroke quitKeys) eqn:Hq.
    + injection HU as <- <- _. cbn. split; [|auto]. split; auto.
    + destruct (Matches keystroke intKeys) eqn:Hi.
      * injection HU as <- <- _. cbn. split; [|auto]. split; auto.
      * injection HU as _ <- _. cbn.
        split; [split; [intros []|]|intros []].
        intros [E|[E|[E _]]]; discriminate E.
  - injection HU as _ <- _. cbn.
    split; [split; [intros []|]|intros []].
    intros [E|[E|[E _]]]; discriminate E.
  - injection HU as _ <- _. cbn.
    split; [split; [intros []|]|intros []].
    intros [E|[E|[E _]]]; discriminate E.
Qed.

End Stopping.

(* ================================================================== *)
(** ** The view *)

Section ViewOfRuns.

Context `{Spring} `{Screen}.

(** X4. In every session reached from the one [RunE] builds, [View] does
    not panic (its index into the stage list is in range), and it is the
    empty string once a quit key or an interrupt key was handled or as many
    Timeout events as there are stages were handled. *)
Theorem view_of_runs (fl : Flags) (g : Globals) (now : Z)
  (ds : list Time.Duration) (m0 : model) (g0 : Globals) (evs : list event)
  (mf : model) (gf : Globals) :
  len ds <= max_int64 ->
  newModel fl g now ds = Ok (m0, g0) ->
  handle g0 m0 evs = Ok (mf, gf) ->
  (exists text, View gf mf = Ok text)
  /\ (quit_pressed evs = true \/ interrupted evs = true
      \/ len ds <= timeouts evs ->
      View gf mf = Ok EmptyString).
Proof.
  intros Hlen Hnew Hh.
  destruct (newModel_start _ _ _ _ _ _ Hlen Hnew)
    as (Hd0 & Hs0 & Hq0 & Hi0 & Hinv).
  destruct (handle_stage evs _ _ _ _ Hinv Hh) as (Hd & Hinvf & _ & Hq).
  rewrite Hd0, Hs0, Hq0 in *. rewrite Z.sub_0_r in Hq. cbn [orb] in Hq.
  assert (Hr : 0 <= mf.(state) < len ds)
    by (destruct Hinvf as [Hr _]; now rewrite Hd in Hr).
  assert (Hi : mf.(interrupting) = interrupted evs).
  { destruct (handle_flags _ _ _ _ _ Hh) as (_ & _ & Hi).
    now rewrite Hi0 in Hi. }
  split.
  - unfold View. destruct (mf.(quitting) || mf.(interrupting)); [eauto|].
    destruct (index_in_range mf.(durations) mf.(state)) as [d Hdx];
      [rewrite Hd; exact Hr|].
    rewrite Hdx. cbn [bind]. destruct mf.(altscreen); eauto.
  - intros Hstop. unfold View. rewrite Hq, Hi.
    destruct Hstop as [-> | [-> | Hn]];
      [reflexivity|now rewrite orb_true_r|].
    apply Z.leb_le in Hn. rewrite Hn. now rewrite orb_true_r.
Qed.

End ViewOfRuns.

(* ================================================================== *)
(** ** Ticks of the countdown *)

Section CountdownTicks.

Context `{Spring}.

(** X5. Resizing touches nothing but the bar's width and [winHeight]:
    the width becomes the window width less 8, capped at 80 unless the
    layout is full-screen (and not raised when it is negative); the command
    is nil. *)
Theorem resize_width (g : Globals) (now : Z) (m : model) (W Ht : Z) :
  min_int64 + 8 <= W <= max_int64 ->
  exists w,
    Update g now m (WindowSizeMsg W Ht)
    = Ok (set_progress m (Progress.SetWidth m.(progress) w), CmdNil,
          mkGlobals Ht g.(timerLastID) g.(progressLastID))
    /\ w = (if m.(altscreen) then W - 8 else Z.min (W - 8) maxWidth)
    /\ (m.(altscreen) = false -> w <= 80).
Proof.
  intros HW. unfold Update.
  assert (Hw : sub64 (sub64 W (mul64 padding 2)) 4 = W - 8).
  { unfold sub64, mul64, padding. rewrite (wrap64_id (2 * 2))
      by (unfold in_int64, min_int64, max_int64; lia).
    unfold min_int64, max_int64 in HW.
    rewrite (wrap64_id (W - 2 * 2))
      by (unfold in_int64, min_int64, max_int64; lia).
    rewrite wrap64_id by (unfold in_int64, min_int64, max_int64; lia).
    lia. }
  rewrite Hw. cbn [altscreen set_progress progress Progress.Width
                   Progress.SetWidth Progress.width].
  destruct m.(altscreen) eqn:Ha; cbn [negb andb].
  - eexists. split; [reflexivity|]. split; [reflexivity|discriminate].
  - unfold maxWidth. destruct (Z.ltb_spec 80 (W - 8)).
    + exists 80. split; [reflexivity|]. split; [lia|lia].
    + exists (W - 8). split; [reflexivity|]. split; [lia|lia].
Qed.

(** The effect of a tick that the countdown counts. *)
Lemma tick_effect (ds : list Time.Duration) (g : Globals) (now : Z)
  (m : model) (ID : Z) (to : bool) (mtag : Z) (D : Time.Duration) :
  countdown_inv ds m ->
  index ds m.(state) = Ok D ->
  Time.Millisecond <= D <= max_int64 - Time.Second ->
  counted m.(timer) (TickMsg ID to mtag) = true ->
  exists m' cmd,
    Update g now m (TickMsg ID to mtag) = Ok (m', cmd, g)
    /\ countdown_inv ds m'
    /\ m'.(passed) = m.(passed) + m.(timer).(Timer.Interval)
    /\ m'.(timer).(Timer.Timeout)
       = m.(timer).(Timer.Timeout) - m.(timer).(Timer.Interval)
    /\ m'.(timer).(Timer.Interval) = m.(timer).(Timer.Interval)
    /\ m'.(timer).(Timer.running) = m.(timer).(Timer.running)
    /\ m'.(timer).(Timer.id) = m.(timer).(Timer.id)
    /\ m'.(timer).(Timer.tag) = m.(timer).(Timer.tag)
    /\ m'.(state) = m.(state)
    /\ In (TickMsg m.(timer).(Timer.id)
             (m'.(timer).(Timer.Timeout) <=? 0) m.(timer).(Timer.tag))
          (delivers cmd)
    /\ (In (TimeoutMsg m.(timer).(Timer.id)) (delivers cmd)
        <-> m.(timer).(Timer.Timeout) <= m.(timer).(Timer.Interval))
    /\ (m.(timer).(Timer.Timeout) <= m.(timer).(Timer.Interval) ->
        (m'.(progress).(Progress.targetPercent) == 1)%Q).
Proof.
  intros (Hdur & D' & HD' & HI & HT & HP) HD [Hms Hmax] Hc.
  rewrite HD in HD'. injection HD' as <-.
  destruct (counted_tick _ _ _ _ Hc) as [Hpos Htick].
  pose proof (timerInterval_bounds D) as HIb. rewrite <- HI in HIb.
  assert (Hms' : 1000000 <= D)
    by (unfold Time.Millisecond, Time.Microsecond, Time.Nanosecond in Hms;
        lia).
  unfold max_int64, Time.Second, Time.Millisecond, Time.Microsecond,
    Time.Nanosecond in Hmax, HIb.
  set (T := m.(timer).(Timer.Timeout)) in *.
  set (I := m.(timer).(Timer.Interval)) in *.
  assert (HPv : m.(passed) = D - T).
  { rewrite HP. apply wrap64_id.
    unfold in_int64, min_int64, max_int64. lia. }
  assert (Hadd : add64 m.(passed) I = m.(passed) + I).
  { unfold add64. apply wrap64_id.
    unfold in_int64, min_int64, max_int64. lia. }
  assert (Hsub : sub64 T I = T - I).
  { unfold sub64. apply wrap64_id.
    unfold in_int64, min_int64, max_int64. lia. }
  destruct (percent_floor (set_passed m (m.(passed) + I)) D) as [Hpct Hpct0].
  { cbn [durations state set_passed]. now rewrite Hdur. }
  { exact Hms. }
  { cbn [passed set_passed]. unfold max_int64. lia. }
  cbn [passed set_passed] in Hpct, Hpct0.
  set (pct := Time.Milliseconds (m.(passed) + I) * 100 / Time.Milliseconds D)
    in *.
  destruct (clamp_hundredths pct Hpct0) as [Hclamp _].
  unfold Update. fold I. rewrite Hadd, Hpct. cbn [bind].
  cbn [Progress.SetPercent set_progress set_passed timer progress].
  assert (Hupd : Timer.Update m.(timer) (TickMsg ID to mtag)
                 = (Timer.mkModel (T - I) I m.(timer).(Timer.id)
                      m.(timer).(Timer.tag) m.(timer).(Timer.running),
                    Batch [Timer.tick
                             (Timer.mkModel (T - I) I m.(timer).(Timer.id)
                                m.(timer).(Timer.tag)
                                m.(timer).(Timer.running));
                           Timer.timedout
                             (Timer.mkModel (T - I) I m.(timer).(Timer.id)
                                m.(timer).(Timer.tag)
                                m.(timer).(Timer.running))])).
  { unfold Timer.Update.
    unfold counted in Hc. apply andb_prop in Hc as [Hc Htag].
    apply andb_prop in Hc as [Hrun Hid].
    apply negb_true_iff in Hid, Htag. rewrite Hrun, Hid, Htag.
    cbn [negb orb]. fold T I. rewrite Hsub. reflexivity. }
  rewrite Hupd. eexists _, _. split; [reflexivity|].
  cbn [passed state durations timer progress set_timer set_progress
       set_passed Timer.Timeout Timer.Interval Timer.running Timer.id
       Timer.tag Progress.targetPercent].
  split.
  { split; [exact Hdur|]. exists D.
    cbn [passed state durations timer set_timer set_progress set_passed
         Timer.Timeout Timer.Interval].
    repeat split; try assumption; try lia.
    rewrite HPv. symmetry.
    rewrite wrap64_id by (unfold in_int64, min_int64, max_int64; lia).
    lia. }
  do 7 (split; [reflexivity|]).
  rewrite !delivers_Batch.
  unfold Timer.tick, Timer.timedout, Timer.Timedout, Progress.nextFrame.
  cbn [flat_map delivers Timer.Timeout Timer.Interval Timer.id Timer.tag].
  rewrite delivers_Batch.
  cbn [flat_map delivers app].
  split; [destruct (negb (T - I <=? 0)); cbn; auto|].
  split.
  - destruct (Z.leb_spec (T - I) 0) as [Hle|Hgt]; cbn [negb delivers app].
    + split; [intros _; lia|intros _; cbn; intuition].
    + split; [|intros ?; lia].
      cbn. intros [E|[E|[]]]; discriminate E.
  - intros Hle. rewrite Hclamp.
    assert (Hge : 100 <= pct).
    { unfold pct. rewrite HPv.
      destruct (Milliseconds_nonneg D ltac:(lia)) as [Ed _].
      destruct (Milliseconds_nonneg (D - T + I) ltac:(lia)) as [Ep _].
      apply Z.div_le_lower_bound.
      - rewrite Ed. assert (1 <= D / 1000000)
          by (apply Z.div_le_lower_bound; lia). lia.
      - rewrite Ep, Ed.
        assert (D / 1000000 <= (D - T + I) / 1000000)
          by (apply Z.div_le_mono; lia). lia. }
    rewrite Z.min_l by lia. reflexivity.
Qed.

(** X6. A tick that the countdown counts, on a stage of at least one
    millisecond: elapsed grows by the interval, the countdown shrinks by
    it, and the next tick is scheduled; the Timeout event is sent by
    exactly the tick that brings the countdown to zero or below, and that
    tick fills the progress bar. *)
Theorem counted_tick_step (ds : list Time.Duration) (g : Globals) (now : Z)
  (m : model) (ID : Z) (to : bool) (mtag : Z) (D : Time.Duration) :
  countdown_inv ds m ->
  index ds m.(state) = Ok D ->
  Time.Millisecond <= D <= max_int64 - Time.Second ->
  counted m.(timer) (TickMsg ID to mtag) = true ->
  exists m' cmd,
    Update g now m (TickMsg ID to mtag) = Ok (m', cmd, g)
    /\ countdown_inv ds m'
    /\ m'.(passed) = m.(passed) + m.(timer).(Timer.Interval)
    /\ m'.(timer).(Timer.Timeout)
       = m.(timer).(Timer.Timeout) - m.(timer).(Timer.Interval)
    /\ m'.(timer).(Timer.Interval) = m.(timer).(Timer.Interval)
    /\ m'.(timer).(Timer.running) = m.(timer).(Timer.running)
    /\ m'.(timer).(Timer.id) = m.(timer).(Timer.id)
    /\ m'.(timer).(Timer.tag) = m.(timer).(Timer.tag)
    /\ m'.(state) = m.(state)
    /\ In (TickMsg m.(timer).(Timer.id)
             (m'.(timer).(Timer.Timeout) <=? 0) m.(timer).(Timer.tag))
          (delivers cmd)
    /\ (In (TimeoutMsg m.(timer).(Timer.id)) (delivers cmd)
        <-> m.(timer).(Timer.Timeout) <= m.(timer).(Timer.Interval))
    /\ (m.(timer).(Timer.Timeout) <= m.(timer).(Timer.Interval) ->
        (m'.(progress).(Progress.targetPercent) == 1)%Q).
Proof. apply tick_effect. Qed.




(** X8. A tick that the countdown does not count (another timer's id, or
    the countdown stopped or expired) still adds one interval to elapsed,
    while the countdown stays as it is and no further tick is scheduled:
    the command only carries the progress bar's frame. *)
Theorem uncounted_tick (g : Globals) (now : Z) (m : model) (ID : Z)
  (to : bool) (mtag : Z) (m' : model) (cmd : Cmd) (g' : Globals) :
  counted m.(timer) (TickMsg ID to mtag) = false ->
  Update g now m (TickMsg ID to mtag) = Ok (m', cmd, g') ->
  m'.(passed) = add64 m.(passed) m.(timer).(Timer.Interval)
  /\ m'.(timer) = m.(timer)
  /\ m'.(state) = m.(state)
  /\ Forall (fun msg => is_frame msg = true) (delivers cmd).
Proof.
  intros Hc HU.
  assert (Hupd : Timer.Update m.(timer) (TickMsg ID to mtag)
                 = (m.(timer), CmdNil)).
  { unfold Timer.Update. unfold counted in Hc.
    destruct (Timer.Running m.(timer)); [|reflexivity].
    cbn [negb orb andb] in *.
    destruct (negb (ID =? 0) && negb (ID =? m.(timer).(Timer.id)));
      [reflexivity|].
    cbn [negb andb] in Hc. apply negb_false_iff in Hc. now rewrite Hc. }
  unfold Update in HU.
  destruct (percent _) as [pct|]; [|discriminate HU].
  cbn [bind Progress.SetPercent set_progress set_passed timer progress]
    in HU.
  rewrite Hupd in HU. injection HU as <- <- _.
  cbn [passed timer state set_timer set_progress set_passed].
  split; [reflexivity|]. split; [reflexivity|]. split; [reflexivity|].
  rewrite delivers_Batch. cbn. repeat constructor.
Qed.


End CountdownTicks.

(* ================================================================== *)
(** ** [Split] as one scan *)

Module Scan.

Import Regexp.
Local Open Scope string_scope.

Lemma star_le (cls : ascii -> bool) (k : string -> option nat) (s : string) :
  (forall t n, k t = Some n -> (n <= String.length t)%nat) ->
  forall n, star cls k s = Some n -> (n <= String.length s)%nat.
Proof.
  intros Hk. induction s as [|c s IH]; intros n Hs; cbn in Hs.
  - apply Hk in Hs. exact Hs.
  - destruct (cls c).
    + destruct (star cls k s) as [n'|] eqn:E.
      * injection Hs as <-. specialize (IH _ eq_refl). cbn. lia.
      * apply Hk in Hs. exact Hs.
    + apply Hk in Hs. exact Hs.
Qed.

(** A match is no longer than the text. *)
Lemma match_here_le (re : list piece) :
  forall s n, match_here re s = Some n -> (n <= String.length s)%nat.
Proof.
  induction re as [|[cls|cls] re IH]; intros s n Hm; cbn in Hm.
  - injection Hm as <-. lia.
  - destruct s as [|c s]; [discriminate|].
    destruct (cls c); [|discriminate].
    destruct (match_here re s) as [n'|] eqn:E; [|discriminate].
    injection Hm as <-. apply IH in E. cbn. lia.
  - eapply star_le; eassumption.
Qed.

Lemma split_scan_nonempty (re : list piece) (s : string) :
  forall skip, split_scan re s skip <> [].
Proof.
  induction s as [|c s IH]; intros skip; cbn; [discriminate|].
  destruct skip; [|apply IH].
  destruct (match_here re (String c s)) as [[|k]|]; try discriminate;
    destruct (split_scan re s 0); discriminate.
Qed.

Lemma prepend_empty (l : list string) : l <> [] -> prepend "" l = l.
Proof. destruct l; [congruence|reflexivity]. Qed.

Lemma prepend_prepend (a b : string) (l : list string) :
  l <> [] -> prepend a (prepend b l) = prepend (a ++ b) l.
Proof.
  destruct l; [congruence|]. intros _. cbn.
  now rewrite string_app_assoc.
Qed.

Lemma drop_all (s : string) : drop (String.length s) s = "".
Proof. induction s; cbn; auto. Qed.

Lemma drop_app (n : nat) (a b : string) :
  (n <= String.length a)%nat -> drop n (a ++ b) = drop n a ++ b.
Proof.
  revert a. induction n as [|n IH]; intros a Hn; [reflexivity|].
  destruct a as [|c a]; [cbn in Hn; lia|]. cbn in *. apply IH. lia.
Qed.

Lemma substring_drop (n : nat) (a b : string) :
  (n <= String.length a)%nat ->
  substring n (String.length a - n) (a ++ b) = drop n a.
Proof.
  revert a. induction n as [|n IH]; intros a Hn.
  - rewrite Nat.sub_0_r. apply substring_prefix.
  - destruct a as [|c a]; [cbn in Hn; lia|]. cbn in *. apply IH. lia.
Qed.

Lemma app_empty_r (s : string) : s ++ "" = s.
Proof. induction s as [|c s IH]; cbn; [reflexivity|now rewrite IH]. Qed.

(** The loop of [Split] over the matches found from an offset on, against
    the scan: in a token that began at [beg], or [skip] bytes before the
    end of a separator. *)
Lemma split_matches_scan (re : list piece) (s : string) :
  forall pre beg e skip,
    (e < String.length (pre ++ s))%nat ->
    (skip <= String.length s)%nat ->
    (if (skip =? 0)%nat then (beg <= String.length pre)%nat
     else beg = (String.length pre + skip)%nat) ->
    split_matches (pre ++ s) (find_all re s (String.length pre) skip) beg e
    = (if (skip =? 0)%nat
       then prepend (drop beg pre) (split_scan re s 0)
       else split_scan re s skip).
Proof.
  induction s as [|c s IH]; intros pre beg e skip He Hskip Hbeg.
  - destruct skip; [|cbn in Hskip; lia]. cbn [Nat.eqb] in *.
    cbn [find_all split_matches split_scan prepend].
    rewrite app_empty_r in *.
    destruct (Nat.eqb_spec e (String.length pre)); [lia|].
    rewrite app_empty_r. f_equal.
    rewrite <- (app_empty_r pre) at 2. now apply substring_drop.
  - assert (Hw : pre ++ String c s = (pre ++ String c "") ++ s)
      by now rewrite string_app_assoc.
    assert (Hl : String.length (pre ++ String c "")
                 = S (String.length pre))
      by (rewrite string_length_app; cbn; lia).
    destruct skip as [|k].
    + cbn [Nat.eqb] in *. cbn [find_all split_scan].
      destruct (match_here re (String c s)) as [[|k]|] eqn:Hm.
      * rewrite Hw, <- Hl.
        rewrite (IH (pre ++ String c "") beg e 0%nat);
          [|rewrite <- Hw; exact He|lia|cbn [Nat.eqb]; lia].
        cbn [Nat.eqb]. rewrite drop_app by lia.
        rewrite prepend_prepend by apply split_scan_nonempty.
        reflexivity.
      * apply match_here_le in Hm. cbn [String.length] in Hm.
        cbn [split_matches].
        destruct (Nat.eqb_spec (String.length pre + S k) 0); [lia|].
        cbn [prepend app]. rewrite app_empty_r. f_equal.
        { now apply substring_drop. }
        rewrite Hw, <- Hl.
        rewrite (IH (pre ++ String c "") (String.length pre + S k)%nat
                   (String.length pre) k);
          [| rewrite <- Hw, string_length_app; cbn; lia | lia
           | destruct k; cbn [Nat.eqb]; lia].
        destruct k; cbn [Nat.eqb]; [|reflexivity].
        replace (String.length pre + 1)%nat
          with (String.length (pre ++ String c "")) by lia.
        rewrite drop_all. apply prepend_empty, split_scan_nonempty.
      * rewrite Hw, <- Hl.
        rewrite (IH (pre ++ String c "") beg e 0%nat);
          [|rewrite <- Hw; exact He|lia|cbn [Nat.eqb]; lia].
        cbn [Nat.eqb]. rewrite drop_app by lia.
        rewrite prepend_prepend by apply split_scan_nonempty.
        reflexivity.
    + cbn [Nat.eqb] in *. cbn [find_all split_scan].
      cbn [String.length] in Hskip.
      rewrite Hw, <- Hl.
      rewrite (IH (pre ++ String c "") beg e k);
        [| rewrite <- Hw; exact He | lia
         | destruct k; cbn [Nat.eqb]; lia].
      destruct k; cbn [Nat.eqb]; [|reflexivity].
      replace beg with (String.length (pre ++ String c "")) by lia.
      rewrite drop_all. apply prepend_empty, split_scan_nonempty.
Qed.

(** [Split] computes the scan. *)
Lemma Split_scan (re : list piece) (s : string) :
  Split re s = split_scan re s 0.
Proof.
  unfold Split, FindAllStringIndex.
  destruct s as [|c s]; [reflexivity|]. cbn [String.length Nat.eqb].
  pose proof (split_matches_scan re (String c s) "" 0 0 0) as Hs.
  cbn [append String.length Nat.eqb drop] in Hs.
  rewrite Hs by lia.
  apply prepend_empty, split_scan_nonempty.
Qed.

End Scan.

(* ================================================================== *)
(** ** What the tokenizer keeps and what it drops *)

Module TokenBytes.

Import Regexp Scan Tokens.
Local Open Scope string_scope.

Lemma star_bytes (cls P : ascii -> bool) (k : string -> option nat) :
  (forall c, cls c = true -> P c = true) ->
  (forall t m, k t = Some m -> all P (substring 0 m t) = true) ->
  forall s n, star cls k s = Some n -> all P (substring 0 n s) = true.
Proof.
  intros Hcls Hk. induction s as [|c s IH]; intros n Hs; cbn [star] in Hs.
  - now apply Hk.
  - destruct (cls c) eqn:Hc; [|now apply Hk].
    destruct (star cls k s) as [n'|] eqn:E; [|now apply Hk].
    injection Hs as <-. cbn. rewrite (Hcls c Hc). cbn. now apply IH.
Qed.

(** The bytes of a match belong to the classes of the pattern. *)
Lemma match_bytes (P : ascii -> bool) (re : list piece) :
  Forall (fun p => forall c, piece_class p c = true -> P c = true) re ->
  forall s n, match_here re s = Some n -> all P (substring 0 n s) = true.
Proof.
  induction 1 as [|p re Hp Hre IH]; intros s n Hm; cbn [match_here] in Hm.
  - injection Hm as <-. now destruct s.
  - destruct p as [cls|cls]; cbn [piece_class] in Hp.
    + destruct s as [|c s]; [discriminate|].
      destruct (cls c) eqn:Hc; [|discriminate].
      destruct (match_here re s) as [n'|] eqn:E; [|discriminate].
      injection Hm as <-. cbn. rewrite (Hp c Hc). cbn. now apply IH.
    + eapply star_bytes; eassumption.
Qed.

Lemma space_sep (c : ascii) : perl_space c = true -> sep_class c = true.
Proof. unfold sep_class. now intros ->. Qed.

Lemma separator_bytes (s : string) (n : nat) :
  match_here TIMER_ARG_SEP s = Some n ->
  all sep_class (substring 0 n s) = true.
Proof.
  apply match_bytes. unfold TIMER_ARG_SEP.
  repeat constructor; cbn [piece_class]; auto using space_sep.
Qed.

Lemma star_total (cls : ascii -> bool) (k : string -> option nat) :
  (forall t, exists n, k t = Some n) ->
  forall s, exists n, star cls k s = Some n.
Proof.
  intros Hk. induction s as [|c s [n IH]]; cbn [star]; [apply Hk|].
  destruct (cls c); [|apply Hk]. rewrite IH. eauto.
Qed.

(** A separator byte outside a match starts one. *)
Lemma sep_byte_matches (c : ascii) (s : string) :
  sep_class c = true ->
  exists k, match_here TIMER_ARG_SEP (String c s) = Some (S k).
Proof.
  intros Hc. unfold TIMER_ARG_SEP.
  set (K := match_here [One sep_class; Star perl_space]).
  assert (HK : exists k, K (String c s) = Some (S k)).
  { unfold K. cbn [match_here]. rewrite Hc.
    destruct (star_total perl_space (fun _ => Some O)
                (fun _ => ex_intro _ O eq_refl) s) as [n Hn].
    rewrite Hn. cbn. eauto. }
  change (match_here (Star perl_space :: [One sep_class; Star perl_space])
            (String c s))
    with (star perl_space K (String c s)).
  cbn [star]. destruct (perl_space c); [|exact HK].
  destruct (star perl_space K s); eauto.
Qed.

Lemma token_byte (c : ascii) (s : string) :
  match match_here TIMER_ARG_SEP (String c s) with
  | Some (S _) => False
  | _ => True
  end ->
  not_sep c = true.
Proof.
  unfold not_sep. destruct (sep_class c) eqn:Hc; [|reflexivity].
  destruct (sep_byte_matches c s Hc) as [k ->]. tauto.
Qed.

Lemma concat_prepend (a : string) (l : list string) :
  l <> [] ->
  String.concat "" (prepend a l) = a ++ String.concat "" l.
Proof.
  destruct l as [|t ts]; [congruence|]. intros _. cbn.
  destruct ts; [reflexivity|]. cbn. now rewrite string_app_assoc.
Qed.

Lemma scan_sep_free (s : string) :
  forall skip,
    Forall (fun t => all not_sep t = true) (split_scan TIMER_ARG_SEP s skip).
Proof.
  induction s as [|c s IH]; intros skip; cbn [split_scan].
  - repeat constructor.
  - destruct skip as [|k]; [|apply IH].
    pose proof (token_byte c s) as Hc.
    destruct (match_here TIMER_ARG_SEP (String c s)) as [[|k]|].
    2: { constructor; [reflexivity|apply IH]. }
    all: specialize (Hc I); specialize (IH O);
      destruct (split_scan TIMER_ARG_SEP s 0) as [|t ts];
      cbn [prepend]; constructor; auto;
      try (cbn; rewrite Hc; cbn; now inversion IH);
      now inversion IH.
Qed.

Lemma scan_keeps (s : string) :
  forall skip,
    all sep_class (substring 0 skip s) = true ->
    String.concat "" (split_scan TIMER_ARG_SEP s skip) = keep not_sep s.
Proof.
  induction s as [|c s IH]; intros skip Hskip; cbn [split_scan keep].
  - reflexivity.
  - destruct skip as [|k].
    + pose proof (token_byte c s) as Hc.
      pose proof (separator_bytes (String c s)) as Hb.
      destruct (match_here TIMER_ARG_SEP (String c s)) as [[|k]|].
      2: { specialize (Hb _ eq_refl). cbn in Hb.
           apply andb_prop in Hb as [Hsep Hb].
           replace (not_sep c) with false by (unfold not_sep; now rewrite Hsep).
           rewrite <- (IH k Hb). cbn.
           pose proof (split_scan_nonempty TIMER_ARG_SEP s k).
           destruct (split_scan TIMER_ARG_SEP s k); [congruence|reflexivity]. }
      all: rewrite (Hc I), concat_prepend by apply split_scan_nonempty;
        rewrite (IH O) by (now destruct s); reflexivity.
    + cbn in Hskip. apply andb_prop in Hskip as [Hsep Hb].
      replace (not_sep c) with false by (unfold not_sep; now rewrite Hsep). now apply IH.
Qed.

Lemma scan_token (a r : string) :
  all not_sep a = true ->
  split_scan TIMER_ARG_SEP (a ++ r) 0
  = prepend a (split_scan TIMER_ARG_SEP r 0).
Proof.
  intros Ha. induction a as [|c a IH].
  - cbn. symmetry. apply prepend_empty, split_scan_nonempty.
  - cbn in Ha. apply andb_prop in Ha as [Hc Ha].
    cbn [append split_scan].
    rewrite (no_match_in_token (String c (a ++ r)))
      by (cbn; congruence || exact Hc).
    rewrite (IH Ha), prepend_prepend by apply split_scan_nonempty.
    reflexivity.
Qed.

Lemma scan_skip (re : list piece) (x r : string) :
  split_scan re (x ++ r) (String.length x) = split_scan re r 0.
Proof.
  induction x as [|c x IH]; [|exact IH].
  cbn. now destruct r.
Qed.

Lemma scan_separator (sep b : string) :
  sep <> "" ->
  match_here TIMER_ARG_SEP (sep ++ b) = Some (String.length sep) ->
  split_scan TIMER_ARG_SEP (sep ++ b) 0
  = "" :: split_scan TIMER_ARG_SEP b 0.
Proof.
  intros Hne Hm. destruct sep as [|y sep]; [congruence|].
  cbn [append String.length] in *. cbn [split_scan]. rewrite Hm.
  now rewrite scan_skip.
Qed.

Lemma glue_starts_token (a : string)
  (rest : list (string * ascii * string * string)) :
  a <> "" -> all not_sep a = true -> starts_token (glue a rest) = true.
Proof.
  intros Hne Ha. destruct a as [|c a]; [congruence|].
  cbn in Ha. apply andb_prop in Ha as [Hc _].
  destruct rest as [|[[[w1 x] w2] t] rest]; exact Hc.
Qed.

Lemma scan_glue (rest : list (string * ascii * string * string)) :
  forall a,
    all not_sep a = true -> forallb piece_ok rest = true ->
    split_scan TIMER_ARG_SEP (glue a rest) 0 = a :: map snd rest.
Proof.
  induction rest as [|[[[w1 c] w2] t] rest IH]; intros a Ha Hrest.
  - cbn [glue map]. rewrite <- (app_empty_r a) at 1.
    rewrite (scan_token a "" Ha). cbn. now rewrite app_empty_r.
  - cbn [forallb piece_ok] in Hrest.
    apply andb_prop in Hrest as [Hp Hrest].
    apply andb_prop in Hp as [Hp Ht]. apply andb_prop in Hp as [Hp Hne].
    apply andb_prop in Hp as [Hp Hw2]. apply andb_prop in Hp as [Hw1 Hc].
    apply negb_true_iff, String.eqb_neq in Hne.
    cbn [glue map snd].
    rewrite (scan_token a _ Ha), scan_separator.
    + rewrite IH by assumption. cbn. now rewrite app_empty_r.
    + now destruct w1.
    + apply match_separator; auto using glue_starts_token.
Qed.

End TokenBytes.

(** X9. The tokenizer drops separator bytes and nothing else: no token
    holds a white-space byte, a comma or a hyphen, and the tokens put
    together are the argument without its separator bytes, in order. *)
Theorem tokens_bytes (arg : string) :
  Forall (fun t => all not_sep t = true) (splitTimerArgString arg)
  /\ String.concat EmptyString (splitTimerArgString arg) = keep not_sep arg.
Proof.
  unfold splitTimerArgString. rewrite Scan.Split_scan. split.
  - apply TokenBytes.scan_sep_free.
  - apply TokenBytes.scan_keeps. now destruct arg.
Qed.

(** X10. Tokens written one after the other, each behind a separator of
    its own (white space around one separator byte), are what the
    tokenizer gives back, in order, if no token holds a separator byte and
    none after the first is empty. *)
Theorem split_glue (a : string)
  (rest : list (string * ascii * string * string)) :
  all not_sep a = true -> forallb piece_ok rest = true ->
  splitTimerArgString (glue a rest) = a :: map snd rest.
Proof.
  intros Ha Hrest. unfold splitTimerArgString. rewrite Scan.Split_scan.
  now apply TokenBytes.scan_glue.
Qed.

Lemma split_glue_witness :
  splitTimerArgString "25m, 5m -25m   15m"
  = ["25m"; "5m"; "25m"; "15m"]%string.
Proof.
  apply (split_glue "25m"
           [(EmptyString, ","%char, " ", "5m");
            (" ", "-"%char, EmptyString, "25m");
            ("  ", " "%char, EmptyString, "15m")]%string); reflexivity.
Defined.

(* ================================================================== *)
(** ** What a round of [ParseDuration] consumes *)

Module DurationShape.

Import Time DurationLoop.
Local Open Scope string_scope.

Lemma leadingInt_from_suffix (s : string) :
  forall x v s1,
    leadingInt_from x s = Some (v, s1) -> exists pre, s = pre ++ s1.
Proof.
  induction s as [|c s IH]; intros x v s1 Hl; cbn [leadingInt_from] in Hl.
  - injection Hl as _ <-. now exists "".
  - destruct (negb (is_digit c)); [injection Hl as _ <-; now exists ""|].
    destruct (x >? 2 ^ 63 / 10); [discriminate|].
    destruct (x * 10 + code c - 48 >? 2 ^ 63); [discriminate|].
    apply IH in Hl as [pre ->]. now exists (String c pre).
Qed.

Lemma leadingFraction_from_suffix (s : string) :
  forall x scale ov f scale' s2,
    leadingFraction_from x scale ov s = (f, scale', s2) ->
    exists pre, s = pre ++ s2.
Proof.
  induction s as [|c s IH]; intros x scale ov f scale' s2 Hl;
    cbn [leadingFraction_from] in Hl.
  - injection Hl as _ _ <-. now exists "".
  - destruct (negb (is_digit c)); [injection Hl as _ _ <-; now exists ""|].
    assert (Hall : forall x scale ov,
               leadingFraction_from x scale ov s = (f, scale', s2) ->
               exists pre, String c s = pre ++ s2).
    { intros x' sc' ov' H'. apply IH in H' as [pre ->].
      now exists (String c pre). }
    destruct ov; [eauto|].
    destruct (x >? (2 ^ 63 - 1) / 10); [eauto|].
    destruct (x * 10 + code c - 48 >? 2 ^ 63); eauto.
Qed.

Lemma substring_drop_whole (n : nat) (s : string) :
  s = substring 0 n s ++ drop n s.
Proof.
  revert s. induction n as [|n IH]; intros [|c s]; cbn; auto.
  now rewrite <- IH.
Qed.

Lemma lookup_unit (u : string) (unit : Z) :
  lookup u unitMap = Some unit -> In u unit_names.
Proof.
  unfold unit_names. induction unitMap as [|[k v] m IH]; [discriminate|].
  cbn [lookup map fst].
  destruct (String.eqb_spec u k) as [->|_]; [left; reflexivity|].
  intros Hl. right. now apply IH.
Qed.

(** A round that succeeds has read a number and the name of a unit, and
    leaves a sum that fits 63 bits. *)
Lemma duration_round_inv (orig : string) (d : Z) (s : string)
  (d' : Z) (s' : string) :
  duration_round orig d s = inr (d', s') ->
  (exists pre u, s = pre ++ u ++ s' /\ In u unit_names)
  /\ 0 <= d' <= 2 ^ 63.
Proof.
  unfold duration_round.
  destruct s as [|c0 s0]; [discriminate|].
  destruct (negb (is_byte c0 46 || is_digit c0)); [discriminate|].
  set (s := String c0 s0).
  destruct (leadingInt s) as [[v s1]|] eqn:Hli; [|discriminate].
  destruct (leadingInt_from_suffix _ _ _ _ Hli) as [p1 H1].
  set (frac := match s1 with
               | String c s1' =>
                   if is_byte c 46 then
                     let '(f, scale, s2) := leadingFraction s1' in
                     (f, scale, s2,
                      negb (String.length s1' =? String.length s2)%nat)
                   else (0, 1, s1, false)
               | EmptyString => (0, 1, s1, false)
               end).
  assert (H2 : exists p2, s1 = p2 ++ snd (fst frac)).
  { unfold frac. destruct s1 as [|c s1']; [now exists ""|].
    destruct (is_byte c 46); [|now exists ""].
    destruct (leadingFraction s1') as [[f scale] s2] eqn:Hlf.
    apply leadingFraction_from_suffix in Hlf as [p2 ->].
    now exists (String c p2). }
  destruct frac as [[[f scale] s2] post]. cbn [fst snd] in H2.
  destruct H2 as [p2 H2].
  destruct (negb _ && negb post); [discriminate|].
  destruct (Nat.eqb_spec (unit_end s2) 0) as [|Hi]; [discriminate|].
  destruct (lookup _ unitMap) as [unit|] eqn:Hu; [|discriminate].
  destruct (v >? 2 ^ 63 / unit); [discriminate|].
  destruct ((0 <? f)%Z && _); [discriminate|].
  match goal with
  | |- context [?x mod 2 ^ 64 >? 2 ^ 63] =>
      destruct (Z.gtb_spec (x mod 2 ^ 64) (2 ^ 63)) as [|Hle];
      [discriminate|];
      pose proof (Z.mod_pos_bound x (2 ^ 64) ltac:(lia)) as Hm
  end.
  intros E. injection E as <- <-. split; [|lia].
  exists (p1 ++ p2), (substring 0 (unit_end s2) s2).
  split; [|eapply lookup_unit; eassumption].
  rewrite H1, H2, !string_app_assoc. do 2 f_equal.
  apply substring_drop_whole.
Qed.

Lemma duration_loop_nonneg (n : nat) (orig : string) :
  forall d s d',
    0 <= d -> duration_loop n orig d s = inr d' -> 0 <= d'.
Proof.
  induction n as [|n IH]; intros d s d' Hd Hl.
  - destruct s; cbn in Hl; [|discriminate]. injection Hl as <-. exact Hd.
  - destruct s as [|c s]; [cbn in Hl; injection Hl as <-; exact Hd|].
    cbn [duration_loop] in Hl.
    destruct (duration_round orig d (String c s)) as [e|[d1 s1]] eqn:Hr;
      [discriminate|].
    apply duration_round_inv in Hr as [_ Hr]. eapply IH; [|eassumption]. lia.
Qed.

(** A duration with no minus sign in front is not negative. *)
Lemma ParseDuration_nonneg (s : string) (d : Duration) :
  starts_minus s = false -> ParseDuration s = inr d ->
  0 <= d <= max_int64.
Proof.
  unfold ParseDuration, starts_minus, max_int64. intros Hs.
  set (p := match s with
            | String c s' =>
                if is_byte c 45 || is_byte c 43 then (is_byte c 45, s')
                else (false, s)
            | EmptyString => (false, s)
            end).
  assert (Hneg : fst p = false).
  { unfold p. destruct s as [|c s']; [reflexivity|].
    destruct (is_byte c 45 || is_byte c 43); [exact Hs|reflexivity]. }
  destruct p as [neg s0]. cbn [fst] in Hneg. subst neg.
  destruct (String.eqb s0 "0"); [intros E; injection E as <-; lia|].
  destruct (String.eqb s0 ""); [discriminate|].
  destruct (duration_loop _ s 0 s0) as [e|d0] eqn:Hl; [discriminate|].
  apply duration_loop_nonneg in Hl; [|lia].
  destruct (Z.gtb_spec d0 (2 ^ 63 - 1)); [discriminate|].
  intros E. injection E as <-. lia.
Qed.

(** A string of which the loop reads a duration holds the name of a unit,
    and so a byte no float is written with. *)
Lemma duration_loop_unit (orig : string) (c : ascii) (s : string) (n : nat)
  (d d' : Z) :
  duration_loop n orig d (String c s) = inr d' ->
  all float_byte (String c s) = false.
Proof.
  destruct n as [|n]; [discriminate|]. cbn [duration_loop].
  destruct (duration_round orig d (String c s)) as [e|[d1 s1]] eqn:Hr;
    [discriminate|].
  intros _. apply duration_round_inv in Hr as [(pre & u & -> & Hu) _].
  rewrite !all_app, (unit_not_float u Hu).
  now rewrite andb_false_r.
Qed.

(** Apart from the three spellings of zero, no string is both a float and
    a duration. *)
Lemma duration_not_float (s : string) (d : Duration) :
  ParseDuration s = inr d ->
  Strconv.ParseFloat_ok s = false \/ s = "0" \/ s = "+0" \/ s = "-0".
Proof.
  intros Hp.
  destruct (Strconv.ParseFloat_ok s) eqn:Hf; [right|now left].
  apply FloatSyntax.ParseFloat_ok_bytes in Hf.
  unfold ParseDuration in Hp.
  destruct s as [|c s']; [discriminate|].
  destruct (is_byte c 45 || is_byte c 43) eqn:Hsign.
  - destruct (String.eqb_spec s' "0") as [->|_].
    + unfold is_byte in Hsign. apply orb_prop in Hsign as [E|E];
        apply Z.eqb_eq in E; unfold code in E;
        apply (f_equal Z.to_N) in E; rewrite N2Z.id in E;
        apply (f_equal ascii_of_N) in E; rewrite ascii_N_embedding in E;
        subst c; auto.
    + destruct s' as [|c' s'']; [discriminate|]. cbn [String.eqb] in Hp.
      destruct (duration_loop _ _ 0 (String c' s'')) as [e|d0] eqn:Hl;
        [discriminate|].
      apply duration_loop_unit in Hl.
      change (float_byte c && all float_byte (String c' s'') = true) in Hf.
      apply andb_prop in Hf as [_ Hf]. congruence.
  - destruct (String.eqb_spec (String c s') "0") as [->|_]; [auto|].
    cbn [String.eqb] in Hp.
    destruct (duration_loop _ _ 0 (String c s')) as [e|d0] eqn:Hl;
      [discriminate|].
    apply duration_loop_unit in Hl. congruence.
Qed.

End DurationShape.

(** X11. A token that already is a duration means the same with or
    without the normalisation: it is left as it is, unless it is one of
    the three spellings of zero, which with the default unit is still
    zero. *)
Theorem valid_duration_kept (tok : string) (d : Time.Duration) :
  Time.ParseDuration tok = inr d ->
  reads_as tok d
  /\ (tok <> "0"%string -> tok <> "+0"%string -> tok <> "-0"%string ->
      addSuffixIfArgIsNumber tok "s" = tok).
Proof.
  intros Hp. unfold reads_as, addSuffixIfArgIsNumber.
  destruct (DurationShape.duration_not_float tok d Hp)
    as [Hf | [-> | [-> | ->]]].
  - rewrite Hf. split; [exact Hp|reflexivity].
  - split; [|congruence]. vm_compute in Hp. injection Hp as <-.
    vm_compute. reflexivity.
  - split; [|congruence]. vm_compute in Hp. injection Hp as <-.
    vm_compute. reflexivity.
  - split; [|congruence]. vm_compute in Hp. injection Hp as <-.
    vm_compute. reflexivity.
Qed.

Lemma valid_duration_kept_witness :
  reads_as "1h30m" (90 * Time.Minute)
  /\ addSuffixIfArgIsNumber "1h30m" "s" = "1h30m"%string.
Proof.
  destruct (valid_duration_kept "1h30m" (90 * Time.Minute)) as [Hr Hk];
    [vm_compute; reflexivity|].
  split; [exact Hr|]. apply Hk; discriminate.
Defined.

(* ================================================================== *)
(** ** The stages of an argument *)

Module Stages.

Import Time.
Local Open Scope string_scope.

Lemma parseDurations_reads (items : list string) :
  forall acc ds,
    parseDurations items acc = inr ds ->
    exists ds', ds = (acc ++ ds')%list /\ Forall2 reads_as items ds'.
Proof.
  induction items as [|item items IH]; intros acc ds Hp;
    cbn [parseDurations] in Hp.
  - injection Hp as <-. exists []. rewrite app_nil_r. split; constructor.
  - destruct (ParseDuration _) as [e|d] eqn:Hd; [discriminate|].
    apply IH in Hp as (ds' & -> & Hall). exists (d :: ds').
    rewrite <- app_assoc. split; [reflexivity|]. now constructor.
Qed.

Lemma reads_parseDurations (items : list string) (ds : list Duration) :
  Forall2 reads_as items ds ->
  forall acc, parseDurations items acc = inr (acc ++ ds)%list.
Proof.
  induction 1 as [|item d items ds Hd Hall IH]; intros acc;
    cbn [parseDurations].
  - now rewrite app_nil_r.
  - unfold reads_as in Hd. rewrite Hd, IH, <- app_assoc. reflexivity.
Qed.

Lemma parseDurations_first_error (pre : list string) (ds : list Duration) :
  Forall2 reads_as pre ds ->
  forall tok err post acc,
    ParseDuration (addSuffixIfArgIsNumber tok "s") = inl err ->
    parseDurations (pre ++ tok :: post) acc = inl err.
Proof.
  induction 1 as [|item d items ds Hd Hall IH]; intros tok err post acc He;
    cbn [parseDurations app].
  - now rewrite He.
  - unfold reads_as in Hd. rewrite Hd. now apply IH.
Qed.

Lemma parseDurations_error (items : list string) :
  forall acc err,
    parseDurations items acc = inl err ->
    exists pre ds tok post,
      items = (pre ++ tok :: post)%list /\ Forall2 reads_as pre ds
      /\ ParseDuration (addSuffixIfArgIsNumber tok "s") = inl err.
Proof.
  induction items as [|item items IH]; intros acc err Hp;
    cbn [parseDurations] in Hp; [discriminate|].
  destruct (ParseDuration _) as [e|d] eqn:Hd.
  - injection Hp as <-. exists [], [], item, items.
    split; [reflexivity|]. split; [constructor|exact Hd].
  - apply IH in Hp as (pre & ds & tok & post & -> & Hall & He).
    exists (item :: pre), (d :: ds), tok, post.
    split; [reflexivity|]. split; [now constructor|exact He].
Qed.

(** No hyphen in front of a token, none in front of what is parsed. *)
Lemma token_no_minus (tok : string) :
  all not_sep tok = true ->
  starts_minus (addSuffixIfArgIsNumber tok "s") = false.
Proof.
  unfold addSuffixIfArgIsNumber. destruct tok as [|c r]; [reflexivity|].
  cbn [all]. intros Hc. apply andb_prop in Hc as [Hc _].
  assert (H45 : is_byte c 45 = false).
  { unfold not_sep, sep_class in Hc. apply negb_true_iff in Hc.
    now apply orb_false_iff in Hc. }
  now destruct (Strconv.ParseFloat_ok (String c r)).
Qed.

Lemma tokens_nonneg (toks : list string) (ds : list Duration) :
  Forall2 reads_as toks ds ->
  Forall (fun t => all not_sep t = true) toks ->
  Forall (fun d => 0 <= d <= max_int64)%Z ds.
Proof.
  induction 1 as [|tok d toks ds Hd Hall IH]; intros Hfree; [constructor|].
  inversion Hfree as [|? ? Htok Hfree']; subst.
  constructor; [|now apply IH].
  eapply DurationShape.ParseDuration_nonneg; [|exact Hd].
  now apply token_no_minus.
Qed.

End Stages.

(** X12. The stages are the tokens' durations in the order of the tokens,
    and the first token that is no duration decides the error: the tokens
    after it are not looked at. *)
Theorem stages_in_order :
  (forall items ds,
     parseDurations items [] = inr ds <-> Forall2 reads_as items ds)
  /\ (forall pre ds tok err post,
        Forall2 reads_as pre ds ->
        Time.ParseDuration (addSuffixIfArgIsNumber tok "s") = inl err ->
        parseDurations (pre ++ tok :: post) [] = inl err)
  /\ (forall items err,
        parseDurations items [] = inl err ->
        exists pre ds tok post,
          items = pre ++ tok :: post /\ Forall2 reads_as pre ds
          /\ Time.ParseDuration (addSuffixIfArgIsNumber tok "s") = inl err).
Proof.
  split; [|split].
  - intros items ds. split.
    + intros Hp. apply Stages.parseDurations_reads in Hp as (ds' & -> & H).
      exact H.
    + intros Hall. now rewrite (Stages.reads_parseDurations _ _ Hall []).
  - intros pre ds tok err post Hall He.
    eapply Stages.parseDurations_first_error; eassumption.
  - intros items err. apply Stages.parseDurations_error.
Qed.

Lemma stages_in_order_witness :
  Forall2 reads_as ["5m"; "10"]%string [minutes 5; seconds 10]
  /\ parseDurations ["5m"; "x"; "y"]%string []
     = inl (ErrInvalidDuration "x").
Proof.
  destruct stages_in_order as (Hok & Herr & _). split.
  - apply Hok. vm_compute. reflexivity.
  - apply (Herr ["5m"%string] [minutes 5] "x"%string _ ["y"%string]).
    + repeat constructor.
    + vm_compute. reflexivity.
Defined.

(** X13. Every stage of an accepted argument is a duration from zero to
    the largest [int64]: the hyphen separates tokens, so no token reaches
    the duration parser with a minus sign.  There is a stage for every
    token, and at least one. *)
Theorem stages_nonnegative (arg : string) (ds : list Time.Duration) :
  parseDurations (splitTimerArgString arg) [] = inr ds ->
  ds <> []
  /\ List.length ds = List.length (splitTimerArgString arg)
  /\ Forall (fun d => 0 <= d <= max_int64) ds.
Proof.
  intros Hp. pose proof (parseDurations_length _ _ _ Hp) as Hlen.
  cbn [List.length Nat.add] in Hlen.
  pose proof (Tokens.split_nonempty arg) as Hne.
  split; [|split; [exact Hlen|]].
  - destruct ds; [|discriminate].
    destruct (splitTimerArgString arg); [congruence|discriminate].
  - apply Stages.parseDurations_reads in Hp as (ds' & -> & Hall).
    cbn [app]. apply (Stages.tokens_nonneg _ _ Hall).
    unfold splitTimerArgString. rewrite Scan.Split_scan.
    apply TokenBytes.scan_sep_free.
Qed.

Lemma stages_nonnegative_witness :
  Forall (fun d => 0 <= d <= max_int64) [minutes 25; minutes 5].
Proof.
  apply (stages_nonnegative "25m-5m" [minutes 25; minutes 5]).
  vm_compute. reflexivity.
Defined.

(* ================================================================== *)
(** ** Bare integers *)

Module BareIntegers.

Import Time.
Local Open Scope string_scope.

Lemma digit_range (c : ascii) : is_digit c = true -> (48 <= code c <= 57)%Z.
Proof.
  unfold is_digit, between. intros Hc. apply andb_prop in Hc as [H1 H2].
  apply Z.leb_le in H1, H2. lia.
Qed.

Lemma value_mono (s : string) :
  forall x, all is_digit s = true -> (0 <= x)%Z ->
            (x <= digits_value_from x s)%Z.
Proof.
  induction s as [|c s IH]; intros x Hs Hx; cbn [digits_value_from];
    [lia|].
  cbn [all] in Hs. apply andb_prop in Hs as [Hc Hs].
  apply digit_range in Hc.
  specialize (IH (x * 10 + code c - 48)%Z Hs ltac:(lia)). lia.
Qed.

Lemma leadingInt_digits (tok : string) :
  forall x,
    all is_digit tok = true -> (0 <= x)%Z ->
    (digits_value_from x tok <= 9223372036)%Z ->
    leadingInt_from x (tok ++ "s") = Some (digits_value_from x tok, "s").
Proof.
  induction tok as [|c tok IH]; intros x Hs Hx Hv; [reflexivity|].
  cbn [all] in Hs. apply andb_prop in Hs as [Hc Hs].
  cbn [append leadingInt_from digits_value_from] in *. rewrite Hc.
  cbn [negb]. pose proof (digit_range c Hc) as Hr.
  pose proof (value_mono tok (x * 10 + code c - 48)%Z Hs ltac:(lia)) as Hm.
  change (2 ^ 63 / 10)%Z with 922337203685477580%Z.
  change (2 ^ 63)%Z with 9223372036854775808%Z.
  destruct (Z.gtb_spec x 922337203685477580); [lia|].
  destruct (Z.gtb_spec (x * 10 + code c - 48) 9223372036854775808); [lia|].
  apply IH; [assumption|lia|assumption].
Qed.

Lemma leadingInt_digits_any (tok : string) :
  forall x,
    all is_digit tok = true ->
    leadingInt_from x (tok ++ "s") = None
    \/ leadingInt_from x (tok ++ "s") = Some (digits_value_from x tok, "s").
Proof.
  induction tok as [|c tok IH]; intros x Hs; [right; reflexivity|].
  cbn [all] in Hs. apply andb_prop in Hs as [Hc Hs].
  cbn [append leadingInt_from digits_value_from]. rewrite Hc. cbn [negb].
  destruct (x >? 2 ^ 63 / 10)%Z; [now left|].
  destruct (x * 10 + code c - 48 >? 2 ^ 63)%Z; [now left|].
  now apply IH.
Qed.

Lemma digits_plain_from (s : string) :
  forall seen_dot,
    all is_digit s = true -> plain_number_from seen_dot true s = true.
Proof.
  induction s as [|c s IH]; intros sd Hs; [reflexivity|].
  cbn [all] in Hs. apply andb_prop in Hs as [Hc Hs].
  cbn [plain_number_from]. rewrite Hc. now apply IH.
Qed.

Lemma digits_plain_number (s : string) :
  s <> "" -> all is_digit s = true -> plain_number s = true.
Proof.
  destruct s as [|c s]; [congruence|]. intros _ Hs.
  cbn [all] in Hs. apply andb_prop in Hs as [Hc Hs].
  unfold plain_number. cbn [plain_number_from]. rewrite Hc.
  now apply digits_plain_from.
Qed.

(** The one round of the loop on digits and the unit "s". *)
Lemma round_seconds (orig : string) (c : ascii) (r : string) :
  is_digit c = true ->
  duration_round orig 0 (String c r ++ "s")
  = match leadingInt (String c r ++ "s") with
    | None => inl (ErrInvalidDuration orig)
    | Some (v, s1) =>
        if String.eqb s1 "s" then
          if (v >? 9223372036)%Z then inl (ErrInvalidDuration orig)
          else
            let d := ((v * Second) mod 2 ^ 64)%Z in
            if (d >? 2 ^ 63)%Z then inl (ErrInvalidDuration orig)
            else inr (d, "")
        else duration_round orig 0 (String c r ++ "s")
    end.
Proof.
  intros Hc. destruct (leadingInt (String c r ++ "s")) as [[v s1]|] eqn:Hl.
  2: { unfold duration_round. cbn [append]. rewrite Hc, orb_true_r.
       cbn [negb]. cbn [append] in Hl. now rewrite Hl. }
  destruct (String.eqb_spec s1 "s") as [->|_]; [|reflexivity].
  unfold duration_round. cbn [append] in *. rewrite Hc, orb_true_r.
  cbn [negb]. rewrite Hl.
  assert (Hlen : (String.length (String c (r ++ "s")) =? String.length "s")%nat
                 = false).
  { apply Nat.eqb_neq. cbn [String.length]. rewrite string_length_app.
    cbn. lia. }
  rewrite Hlen. reflexivity.
Qed.

End BareIntegers.

(** X14. A token of decimal digits only (at most 300 of them) is read as
    that many seconds, up to 9223372036 seconds; a larger number of
    seconds is rejected as an invalid duration. *)
Theorem bare_integer_stage (tok : string) :
  tok <> EmptyString -> all is_digit tok = true ->
  (String.length tok <= 300)%nat ->
  (digits_value tok <= 9223372036 ->
   reads_as tok (seconds (digits_value tok)))
  /\ (9223372036 < digits_value tok ->
      Time.ParseDuration (addSuffixIfArgIsNumber tok "s")
      = inl (ErrInvalidDuration (tok ++ "s"))).
Proof.
  intros Hne Hd Hlen.
  assert (Hs : addSuffixIfArgIsNumber tok "s" = (tok ++ "s")%string).
  { unfold addSuffixIfArgIsNumber.
    rewrite PlainNumbers.plain_number_accepted;
      auto using BareIntegers.digits_plain_number. }
  unfold reads_as. rewrite Hs.
  destruct tok as [|c r]; [congruence|].
  pose proof Hd as Hd'. cbn [all] in Hd'.
  apply andb_prop in Hd' as [Hc _].
  pose proof (BareIntegers.digit_range c Hc) as Hr.
  pose proof (BareIntegers.round_seconds (String c r ++ "s") c r Hc) as Hround.
  assert (Hparse : Time.ParseDuration (String c r ++ "s")
                   = match Time.duration_round (String c r ++ "s") 0
                             (String c r ++ "s") with
                     | inl e => inl e
                     | inr (d, s') =>
                         match Time.duration_loop (String.length r + 1)
                                 (String c r ++ "s") d s' with
                         | inl e => inl e
                         | inr d =>
                             if d >? 2 ^ 63 - 1
                             then inl (ErrInvalidDuration (String c r ++ "s"))
                             else inr d
                         end
                     end).
  { unfold Time.ParseDuration. cbn [append].
    assert (H45 : is_byte c 45 = false) by (apply Z.eqb_neq; lia).
    assert (H43 : is_byte c 43 = false) by (apply Z.eqb_neq; lia).
    rewrite H45, H43. cbn [orb].
    assert (H0 : String.eqb (String c (r ++ "s")) "0" = false).
    { apply String.eqb_neq. intros E. apply (f_equal String.length) in E.
      cbn in E. rewrite string_length_app in E. cbn in E. lia. }
    rewrite H0. cbn [String.eqb String.length Time.duration_loop].
    rewrite string_length_app. cbn [String.length].
    destruct (Time.duration_round _ 0 _) as [e|[d s']]; reflexivity. }
  rewrite Hparse, Hround, Nat.add_1_r. clear Hparse Hround.
  destruct (BareIntegers.leadingInt_digits_any (String c r) 0 Hd) as [Hl|Hl];
    unfold Time.leadingInt; rewrite Hl.
  - split; [|reflexivity]. intros Hv.
    rewrite (BareIntegers.leadingInt_digits (String c r) 0 Hd) in Hl
      by (assumption || lia).
    discriminate.
  - fold (digits_value (String c r)).
    change (String.eqb "s" "s") with true. cbv iota.
    pose proof (BareIntegers.value_mono (String c r) 0 Hd ltac:(lia)) as Hpos.
    fold (digits_value (String c r)) in Hpos.
    set (v := digits_value (String c r)) in *.
    destruct (Z.gtb_spec v 9223372036) as [Hbig|Hsmall].
    + split; [lia|reflexivity].
    + split; [|lia]. intros _. unfold Time.Second, Time.Millisecond,
        Time.Microsecond, Time.Nanosecond, seconds.
      rewrite Z.mod_small by lia.
      destruct (Z.gtb_spec (v * (1000 * (1000 * (1000 * 1)))) (2 ^ 63));
        [lia|].
      cbn [Time.duration_loop].
      destruct (Z.gtb_spec (v * (1000 * (1000 * (1000 * 1)))) (2 ^ 63 - 1));
        [lia|reflexivity].
Qed.

Lemma bare_integer_stage_witness :
  reads_as "90" (seconds 90)
  /\ Time.ParseDuration (addSuffixIfArgIsNumber "9223372037" "s")
     = inl (ErrInvalidDuration "9223372037s").
Proof.
  split.
  - apply (bare_integer_stage "90"); [discriminate|reflexivity|cbn; lia|].
    vm_compute. discriminate.
  - apply (bare_integer_stage "9223372037");
      [discriminate|reflexivity|cbn; lia|]. vm_compute. reflexivity.
Defined.

(* ================================================================== *)
(** ** One countdown per stage *)

Section Identity.

Context `{Spring}.

Lemma timer_Update_identity (t : Timer.Model) (msg : Msg) :
  (fst (Timer.Update t msg)).(Timer.id) = t.(Timer.id)
  /\ (fst (Timer.Update t msg)).(Timer.tag) = t.(Timer.tag)
  /\ (fst (Timer.Update t msg)).(Timer.Interval) = t.(Timer.Interval).
Proof.
  unfold Timer.Update. destruct msg; try (repeat split; reflexivity).
  - destruct (negb (Timer.Running t) || _); [repeat split; reflexivity|].
    destruct ((0 <? tag) && _); repeat split; reflexivity.
  - destruct (negb (ID =? 0) && _); repeat split; reflexivity.
Qed.

Lemma Update_identity (base : Z) (g : Globals) (now : Z) (m : model)
  (msg : Msg) (m' : model) (cmd : Cmd) (g' : Globals) :
  session_inv m -> 0 <= base ->
  base + len m.(durations) <= max_int64 ->
  identity_inv base m g ->
  Update g now m msg = Ok (m', cmd, g') ->
  identity_inv base m' g'.
Proof.
  intros [[Hlo Hhi] Hlen] Hbase Hmax (Hid & Hg & Htag & D & HD & HI) HU.
  unfold identity_inv.
  destruct msg.
  - destruct (Update_tick _ _ _ _ _ _ _ _ _ HU) as (pct & _ & -> & ->).
    destruct (timer_Update_identity m.(timer) (TickMsg ID Timeout tag))
      as (Ei & Et & Ev).
    cbn [timer state durations set_timer set_progress set_passed].
    rewrite Ei, Et, Ev. eauto 8.
  - unfold Update in HU.
    rewrite last_index in HU by (pose proof (len_nonneg m.(durations)); lia).
    destruct (Z.eqb_spec m.(state) (len m.(durations) - 1)) as [E|E].
    + injection HU as <- _ <-. cbn. eauto 8.
    + cbn [set_state set_start set_passed durations state] in HU.
      assert (Hnext : add64 m.(state) 1 = m.(state) + 1).
      { unfold add64. apply wrap64_id.
        unfold in_int64, min_int64, max_int64 in *. lia. }
      rewrite Hnext in HU.
      destruct (index m.(durations) (m.(state) + 1)) as [d|] eqn:Hd;
        [|discriminate HU].
      cbn in HU. injection HU as <- _ <-. cbn.
      assert (Hnew : add64 g.(timerLastID) 1 = base + 1 + (m.(state) + 1)).
      { unfold add64. rewrite wrap64_id
          by (unfold in_int64, min_int64, max_int64 in *; lia). lia. }
      rewrite Hnew. repeat split. exists d. split; [exact Hd|reflexivity].
  - unfold Update in HU.
    destruct (timer_Update_identity m.(timer) (StartStopMsg ID running))
      as (Ei & Et & Ev).
    destruct (Timer.Update m.(timer) _) as [t c]. cbn [fst] in *.
    injection HU as <- _ <-. cbn. rewrite Ei, Et, Ev. eauto 8.
  - unfold Update in HU. split_update HU; injection HU as <- _ <-; cbn;
      eauto 8.
  - unfold Update in HU. split_update HU. injection HU as <- _ <-. cbn.
    eauto 8.
  - unfold Update in HU. split_update HU; injection HU as <- _ <-; cbn;
      eauto 8.
  - injection HU as <- _ <-. eauto 8.
  - injection HU as <- _ <-. eauto 8.
Qed.

Lemma handle_identity (base : Z) (evs : list event) :
  forall g m mf gf,
    session_inv m -> 0 <= base ->
    base + len m.(durations) <= max_int64 ->
    identity_inv base m g ->
    handle g m evs = Ok (mf, gf) ->
    identity_inv base mf gf.
Proof.
  induction evs as [|[now msg] evs IH];
    intros g m mf gf Hinv Hbase Hmax Hid Hh.
  - injection Hh as <- <-. exact Hid.
  - cbn [handle] in Hh.
    destruct (Update g now m msg) as [[[m1 c1] g1]|] eqn:HU; [|discriminate].
    cbn [bind fst snd] in Hh.
    pose proof (Update_session_inv _ _ _ _ _ _ _ Hinv HU) as Hinv1.
    destruct (Update_flags _ _ _ _ _ _ _ HU) as (Hd & _ & _).
    eapply (IH g1 m1); try eassumption.
    + now rewrite Hd.
    + exact (Update_identity base g now m msg m1 c1 g1 Hinv Hbase Hmax
               Hid HU).
Qed.

(** X15. Every stage has a countdown of its own.  In a session reached
    from the one [RunE] builds, the countdown's id is the id counter's
    value before the session plus one plus the stage index, it is the
    newest timer, its tag is zero and its interval is the tick interval of
    the current stage; and a tick that carries the id of an earlier
    stage's countdown is not counted. *)
Theorem countdown_identity (fl : Flags) (g : Globals) (now : Z)
  (ds : list Time.Duration) (m0 : model) (g0 : Globals) (evs : list event)
  (mf : model) (gf : Globals) :
  0 <= g.(timerLastID) ->
  g.(timerLastID) + len ds <= max_int64 ->
  newModel fl g now ds = Ok (m0, g0) ->
  handle g0 m0 evs = Ok (mf, gf) ->
  mf.(timer).(Timer.id) = g.(timerLastID) + 1 + mf.(state)
  /\ gf.(timerLastID) = mf.(timer).(Timer.id)
  /\ mf.(timer).(Timer.tag) = 0
  /\ (exists D, index ds mf.(state) = Ok D
                /\ mf.(timer).(Timer.Interval) = timerInterval D)
  /\ (forall stage to tag,
        0 <= stage < mf.(state) ->
        counted mf.(timer) (TickMsg (g.(timerLastID) + 1 + stage) to tag)
        = false).
Proof.
  intros Hbase Hmax Hnew Hh.
  assert (Hlen : len ds <= max_int64) by lia.
  destruct (newModel_start _ _ _ _ _ _ Hlen Hnew)
    as (Hd0 & Hs0 & _ & _ & Hinv).
  assert (Hid0 : identity_inv g.(timerLastID) m0 g0).
  { unfold newModel in Hnew. destruct (index ds 0) as [d|] eqn:Hd;
      [|discriminate].
    pose proof (index_Ok_range _ _ _ Hd) as Hpos.
    cbn in Hnew. injection Hnew as <- <-. unfold identity_inv.
    cbn [timer state durations timerLastID Timer.id Timer.tag
         Timer.Interval].
    assert (Hfirst : add64 g.(timerLastID) 1 = g.(timerLastID) + 1).
    { unfold add64. apply wrap64_id.
      unfold in_int64, min_int64, max_int64 in *. lia. }
    rewrite Hfirst. repeat split; try lia.
    exists d. split; [exact Hd|reflexivity]. }
  destruct (handle_stage evs _ _ _ _ Hinv Hh) as (Hd & _ & _ & _).
  rewrite <- Hd0 in Hmax.
  destruct (handle_identity _ evs _ _ _ _ Hinv Hbase Hmax Hid0 Hh)
    as (Hid & Hg & Htag & D & HD & HI).
  rewrite Hd, Hd0 in HD.
  split; [exact Hid|]. split; [exact Hg|]. split; [exact Htag|].
  split; [eauto|].
  intros stage to tag Hst. unfold counted. rewrite Hid.
  destruct (Z.eqb_spec (g.(timerLastID) + 1 + stage) 0) as [|_]; [lia|].
  destruct (Z.eqb_spec (g.(timerLastID) + 1 + stage)
              (g.(timerLastID) + 1 + mf.(state))) as [|_]; [lia|].
  cbn [negb andb]. now rewrite andb_false_r.
Qed.

End Identity.

(* ================================================================== *)
(** ** The theorems on sample sessions *)

Lemma stage_progress_witness :
  exists mf gf,
    handle (H := rigidSpring) sessionGlobals (session [seconds 2; seconds 3])
      [(1, TimeoutMsg 1); (2, KeyMsg "x")] = Ok (mf, gf)
    /\ mf.(state) = 1 /\ mf.(quitting) = false.
Proof.
  eexists _, _. split; [reflexivity|].
  edestruct (stage_progress (H := rigidSpring) noFlags noGlobals 0
               [seconds 2; seconds 3] (session [seconds 2; seconds 3])
               sessionGlobals
               [(1, TimeoutMsg 1); (2, KeyMsg "x")])
    as (_ & _ & Hs & Hq);
    [vm_compute; discriminate|apply session_new|reflexivity|].
  split; [exact Hs|exact Hq].
Defined.

Lemma handlers_safe_witness :
  exists mf gf,
    handle (H := rigidSpring) sessionGlobals (session [millis 250])
      [(1, TickMsg 1 false 0); (2, WindowSizeMsg 100 30)] = Ok (mf, gf).
Proof.
  edestruct (handlers_safe (H := rigidSpring) noFlags noGlobals 0
               [millis 250] (session [millis 250]) sessionGlobals
               [(1, TickMsg 1 false 0); (2, WindowSizeMsg 100 30)])
    as [_ Hok];
    [vm_compute; discriminate|apply session_new|].
  apply Hok. repeat constructor. vm_compute. discriminate.
Defined.

Lemma quit_requested_witness :
  exists m' cmd g',
    Update (H := rigidSpring) sessionGlobals 5 (session [seconds 2])
      (TimeoutMsg 1) = Ok (m', cmd, g')
    /\ In QuitMsg (delivers cmd)
    /\ (m'.(quitting) = true \/ m'.(interrupting) = true).
Proof.
  eexists _, _, _. split; [reflexivity|].
  edestruct (quit_requested (H := rigidSpring) sessionGlobals 5
               (session [seconds 2]) (TimeoutMsg 1)) as [Hiff Hflag];
    [unfold session_inv; vm_compute; repeat split; discriminate
    |reflexivity|].
  assert (Hq : In QuitMsg (delivers CmdQuit)) by (left; reflexivity).
  split; [exact Hq|exact (Hflag Hq)].
Defined.

Lemma view_of_runs_witness :
  exists mf gf,
    handle (H := rigidSpring) sessionGlobals (session [seconds 2])
      [(1, KeyMsg "q")] = Ok (mf, gf)
    /\ View (H := plainScreen) gf mf = Ok EmptyString.
Proof.
  eexists _, _. split; [reflexivity|].
  edestruct (view_of_runs (H := rigidSpring) (H0 := plainScreen)
               noFlags noGlobals 0 [seconds 2] (session [seconds 2])
               sessionGlobals [(1, KeyMsg "q")])
    as [_ Hv];
    [vm_compute; discriminate|apply session_new|reflexivity|].
  apply Hv. left. reflexivity.
Defined.

Lemma resize_width_witness :
  exists w,
    Update (H := rigidSpring) sessionGlobals 0 (session [seconds 2])
      (WindowSizeMsg 120 40)
    = Ok (set_progress (session [seconds 2])
            (Progress.SetWidth (session [seconds 2]).(progress) w),
          CmdNil, mkGlobals 40 1 1)
    /\ w = 80.
Proof.
  destruct (resize_width (H := rigidSpring) sessionGlobals 0
              (session [seconds 2]) 120 40) as (w & HU & Hw & _);
    [vm_compute; split; discriminate|].
  exists w. split; [exact HU|exact Hw].
Defined.

Lemma counted_tick_step_witness :
  exists m' cmd,
    Update (H := rigidSpring) sessionGlobals 3 late_session
      (TickMsg 1 false 0) = Ok (m', cmd, sessionGlobals)
    /\ m'.(passed) = millis 300
    /\ In (TimeoutMsg 1) (delivers cmd).
Proof.
  destruct (counted_tick_step (H := rigidSpring) [millis 250] sessionGlobals
              3 late_session 1 false 0 (millis 250))
    as (m' & cmd & HU & _ & Hp & _ & _ & _ & _ & _ & _ & _ & Hto & _).
  - split; [reflexivity|]. exists (millis 250).
    split; [reflexivity|]. split; [reflexivity|].
    split; [vm_compute; split; [reflexivity|discriminate]|reflexivity].
  - reflexivity.
  - vm_compute. split; discriminate.
  - reflexivity.
  - exists m', cmd. split; [exact HU|]. split; [exact Hp|].
    apply Hto. vm_compute. discriminate.
Defined.


Lemma uncounted_tick_witness :
  exists m' cmd g',
    Update (H := rigidSpring) sessionGlobals 4 (session [seconds 2])
      (TickMsg 7 false 0) = Ok (m', cmd, g')
    /\ m'.(passed) = millis 100
    /\ m'.(timer) = (session [seconds 2]).(timer).
Proof.
  eexists _, _, _. split; [reflexivity|].
  edestruct (uncounted_tick (H := rigidSpring) sessionGlobals 4
               (session [seconds 2]) 7 false 0) as (Hp & Ht & _);
    [reflexivity|reflexivity|].
  split; [exact Hp|exact Ht].
Defined.

Lemma countdown_identity_witness :
  exists mf gf,
    handle (H := rigidSpring) sessionGlobals (session [seconds 2; seconds 90])
      [(1, TimeoutMsg 1)] = Ok (mf, gf)
    /\ mf.(timer).(Timer.id) = 2
    /\ counted mf.(timer) (TickMsg 1 false 0) = false.
Proof.
  eexists _, _. split; [reflexivity|].
  edestruct (countdown_identity (H := rigidSpring) noFlags noGlobals 0
               [seconds 2; seconds 90] (session [seconds 2; seconds 90])
               sessionGlobals [(1, TimeoutMsg 1)])
    as (Hid & _ & _ & _ & Hstale);
    [vm_compute; discriminate|vm_compute; discriminate
    |apply session_new|reflexivity|].
  split; [exact Hid|].
  apply (Hstale 0 false 0). vm_compute. split; [discriminate|reflexivity].
Defined.

(* ================================================================== *)
(** ** Starting a countdown *)

Section Starting.

Context `{Spring}.

(** X16. The command [Init] returns for the session [RunE] builds delivers
    one message: a tick of the session's own countdown, after the tick
    interval of the first stage.  The countdown counts that tick exactly
    when the first stage is longer than zero. *)
Theorem init_starts_countdown (fl : Flags) (g : Globals) (now : Z)
  (ds : list Time.Duration) (m0 : model) (g0 : Globals) :
  newModel fl g now ds = Ok (m0, g0) ->
  exists d0 tick,
    index ds 0 = Ok d0
    /\ Init m0 = CmdTick (timerInterval d0) tick
    /\ delivers (Init m0) = [tick]
    /\ tick = TickMsg m0.(timer).(Timer.id) (d0 <=? 0) 0
    /\ (counted m0.(timer) tick = true <-> 0 < d0).
Proof.
  intros Hnew. unfold newModel in Hnew.
  destruct (index ds 0) as [d0|] eqn:Hd; [|discriminate].
  cbn in Hnew. injection Hnew as <- _.
  exists d0. eexists. split; [reflexivity|].
  split; [reflexivity|]. split; [reflexivity|]. split; [reflexivity|].
  cbn [timer]. unfold counted, Timer.Running, Timer.Timedout.
  cbn [Timer.Timeout Timer.running Timer.id Timer.tag].
  rewrite Z.eqb_refl. cbn.
  destruct (Z.leb_spec d0 0); cbn; split; intros; (lia || congruence).
Qed.

(** X17. Handing over to the next stage.  The command returned for a
    Timeout before the last stage delivers one message; handled, it leaves
    the session as it is and schedules the first tick of the new
    countdown, after the tick interval of the new stage.  A start or stop
    message for any other timer changes nothing. *)
Theorem stage_handover (g : Globals) (now : Z) (m : model) (ID : Z)
  (m' : model) (cmd : Cmd) (g' : Globals) :
  session_inv m ->
  m.(state) <> len m.(durations) - 1 ->
  Update g now m (TimeoutMsg ID) = Ok (m', cmd, g') ->
  exists D start,
    index m.(durations) (m.(state) + 1) = Ok D
    /\ delivers cmd = [start]
    /\ (forall now',
          Update g' now' m' start
          = Ok (m', CmdTick (timerInterval D)
                      (TickMsg m'.(timer).(Timer.id) (D <=? 0) 0), g'))
    /\ (forall now' other r,
          other <> 0 -> other <> m'.(timer).(Timer.id) ->
          Update g' now' m' (StartStopMsg other r) = Ok (m', CmdNil, g')).
Proof.
  intros [[Hlo Hhi] Hlen] Hst HU. unfold Update in HU.
  rewrite last_index in HU by (pose proof (len_nonneg m.(durations)); lia).
  destruct (Z.eqb_spec m.(state) (len m.(durations) - 1)) as [E|_];
    [contradiction|].
  cbn [set_state set_start set_passed durations state] in HU.
  assert (Hnext : add64 m.(state) 1 = m.(state) + 1).
  { unfold add64. apply wrap64_id.
    unfold in_int64, min_int64, max_int64 in *. lia. }
  rewrite Hnext in HU.
  destruct (index m.(durations) (m.(state) + 1)) as [D|] eqn:HD;
    [|discriminate HU].
  cbn in HU. injection HU as <- <- <-.
  exists D. eexists. split; [reflexivity|]. split; [reflexivity|].
  split.
  - intros now'. unfold Update, Timer.Update.
    cbn [timer set_timer Timer.id]. rewrite Z.eqb_refl.
    cbn [negb andb]. rewrite andb_false_r. reflexivity.
  - intros now' other r H0 Hother. unfold Update, Timer.Update.
    cbn [timer set_timer Timer.id] in *.
    destruct (Z.eqb_spec other 0) as [|_]; [contradiction|].
    destruct (Z.eqb_spec other (add64 g.(timerLastID) 1)) as [|_];
      [contradiction|].
    reflexivity.
Qed.

(** X18. A frame of the progress bar's animation changes nothing of the
    session but what the bar shows and its velocity: stage, elapsed time,
    countdown, flags, the bar's target, width, id and tag stay, and so
    does the package state.  The command is nil or the next frame, and it
    is nil for a frame of another bar or with another tag. *)
Theorem frame_effect (g : Globals) (now : Z) (m : model) (fid ftag : Z)
  (m' : model) (cmd : Cmd) (g' : Globals) :
  Update g now m (FrameMsg fid ftag) = Ok (m', cmd, g') ->
  g' = g
  /\ m' = set_progress m m'.(progress)
  /\ m'.(progress).(Progress.id) = m.(progress).(Progress.id)
  /\ m'.(progress).(Progress.tag) = m.(progress).(Progress.tag)
  /\ m'.(progress).(Progress.width) = m.(progress).(Progress.width)
  /\ m'.(progress).(Progress.targetPercent)
     = m.(progress).(Progress.targetPercent)
  /\ (cmd = CmdNil
      \/ cmd = CmdTick (Z.quot Time.Second Progress.fps)
                 (FrameMsg m.(progress).(Progress.id)
                    m.(progress).(Progress.tag)))
  /\ (fid <> m.(progress).(Progress.id)
      \/ ftag <> m.(progress).(Progress.tag) ->
      m' = m /\ cmd = CmdNil).
Proof.
  intros HU. unfold Update, Progress.Update in HU.
  destruct (Z.eqb_spec fid m.(progress).(Progress.id)) as [Ei|Ei];
    destruct (Z.eqb_spec ftag m.(progress).(Progress.tag)) as [Et|Et];
    cbn [negb orb] in HU.
  2-4: injection HU as <- <- <-; destruct m; cbn; repeat split; auto.
  destruct (negb (Progress.IsAnimating m.(progress))).
  - injection HU as <- <- <-. destruct m; cbn. repeat split; auto.
  - destruct (springUpdate _ _ _) as [shown vel].
    injection HU as <- <- <-. cbn. repeat split; auto; tauto.
Qed.

(** X19. Every tick supersedes the animation frames scheduled before it:
    the tick handler gives the bar a new tag and schedules a frame with
    that tag, and a frame that carries the tag from before the tick is
    then ignored. *)
Theorem tick_supersedes_frames (g : Globals) (now : Z) (m : model)
  (ID : Z) (to : bool) (mtag : Z) (m' : model) (cmd : Cmd) (g' : Globals) :
  Update g now m (TickMsg ID to mtag) = Ok (m', cmd, g') ->
  m'.(progress).(Progress.id) = m.(progress).(Progress.id)
  /\ m'.(progress).(Progress.tag) = add64 m.(progress).(Progress.tag) 1
  /\ m'.(progress).(Progress.tag) <> m.(progress).(Progress.tag)
  /\ In (FrameMsg m'.(progress).(Progress.id) m'.(progress).(Progress.tag))
        (delivers cmd)
  /\ (forall now',
        Update g' now' m'
          (FrameMsg m.(progress).(Progress.id) m.(progress).(Progress.tag))
        = Ok (m', CmdNil, g')).
Proof.
  intros HU. unfold Update in HU.
  destruct (percent _) as [pct|]; [|discriminate HU].
  cbn [bind Progress.SetPercent set_progress set_passed timer progress]
    in HU.
  destruct (Timer.Update m.(timer) _) as [t c] eqn:Ht.
  injection HU as <- <- <-.
  cbn [progress set_timer set_progress Progress.id Progress.tag].
  assert (Hne : add64 m.(progress).(Progress.tag) 1
                <> m.(progress).(Progress.tag)).
  { unfold add64, wrap64.
    pose proof (Z.mod_pos_bound (m.(progress).(Progress.tag) + 1 + 2 ^ 63)
                  (2 ^ 64) ltac:(lia)) as Hb.
    intros E.
    assert (Hq : (m.(progress).(Progress.tag) + 1 + 2 ^ 63) mod 2 ^ 64
                 = m.(progress).(Progress.tag) + 2 ^ 63) by lia.
    pose proof (Z.div_mod (m.(progress).(Progress.tag) + 1 + 2 ^ 63)
                  (2 ^ 64) ltac:(lia)) as Hdm.
    rewrite Hq in Hdm. lia. }
  split; [reflexivity|]. split; [reflexivity|]. split; [exact Hne|].
  split.
  - rewrite delivers_Batch. apply in_or_app. left.
    unfold Progress.nextFrame. cbn. left. reflexivity.
  - intros now'. unfold Update, Progress.Update.
    cbn [progress set_timer set_progress Progress.id Progress.tag].
    rewrite Z.eqb_refl.
    destruct (Z.eqb_spec m.(progress).(Progress.tag)
                (add64 m.(progress).(Progress.tag) 1)) as [E|_];
      [symmetry in E; contradiction|].
    cbn [negb orb]. reflexivity.
Qed.

End Starting.

Lemma init_starts_countdown_witness :
  exists tick,
    Init (session [seconds 90; seconds 5]) = CmdTick (seconds 1) tick
    /\ counted (session [seconds 90; seconds 5]).(timer) tick = true.
Proof.
  destruct (init_starts_countdown noFlags noGlobals 0 [seconds 90; seconds 5]
              (session [seconds 90; seconds 5]) sessionGlobals
              (session_new _ _))
    as (d0 & tick & Hd & Hinit & _ & _ & Hc).
  injection Hd as <-. exists tick. split; [exact Hinit|].
  apply Hc. reflexivity.
Defined.

Lemma stage_handover_witness :
  exists m' cmd g' start,
    Update (H := rigidSpring) sessionGlobals 7
      (session [seconds 2; seconds 90]) (TimeoutMsg 1) = Ok (m', cmd, g')
    /\ delivers cmd = [start]
    /\ Update (H := rigidSpring) g' 8 m' start
       = Ok (m', CmdTick (seconds 1) (TickMsg 2 false 0), g').
Proof.
  eexists _, _, _.
  edestruct (stage_handover (H := rigidSpring) sessionGlobals 7
               (session [seconds 2; seconds 90]) 1)
    as (D & start & HD & Hcmd & Hstart & _);
    [unfold session_inv; vm_compute; repeat split; discriminate
    |vm_compute; discriminate|reflexivity|].
  injection HD as <-. exists start.
  split; [reflexivity|]. split; [exact Hcmd|exact (Hstart 8)].
Defined.

Lemma frame_effect_witness :
  Update (H := rigidSpring) sessionGlobals 0 (session [seconds 2])
    (FrameMsg 9 0)
  = Ok (session [seconds 2], CmdNil, sessionGlobals).
Proof.
  edestruct (frame_effect (H := rigidSpring) sessionGlobals 0
               (session [seconds 2]) 9 0) as (_ & _ & _ & _ & _ & _ & _ & Hk);
    [reflexivity|].
  destruct Hk as [Hm Hc]; [left; discriminate|].
  reflexivity.
Defined.

Lemma tick_supersedes_frames_witness :
  exists m' cmd g',
    Update (H := rigidSpring) sessionGlobals 1 (session [seconds 2])
      (TickMsg 1 false 0) = Ok (m', cmd, g')
    /\ m'.(progress).(Progress.tag) = 1
    /\ Update (H := rigidSpring) g' 2 m' (FrameMsg 1 0) = Ok (m', CmdNil, g').
Proof.
  eexists _, _, _. split; [reflexivity|].
  edestruct (tick_supersedes_frames (H := rigidSpring) sessionGlobals 1
               (session [seconds 2]) 1 false 0)
    as (_ & Htag & _ & _ & Hold); [reflexivity|].
  split; [exact Htag|exact (Hold 2)].
Defined.
